(** * github-repo-stats: the reconciliation and aggregation core of [analyze.py]

    A shallow embedding of the two analysis routines of [analyze.py],
    [analyse_view_clones_ts_fragments] and [analyse_referrer_snapshots],
    together with the pandas operations they are written with, and of the
    two report paths [main] builds.

    Conventions of the embedding.
    - A data frame is a list of rows plus its list of column labels.
    - An index label of a views/clones frame is a [Z]; only the order and the
      equality of labels are used by the code.  Such a frame holds rows that
      have a time; [Scalar.Fragment] is a fragment whose rows may have none.
    - Where it matters which frame an operation changes, frames are objects
      of a store (module [Objects]).
    - A counter cell is a [Z]; a missing cell (pandas' NaN) is an absent key
      of the row's finite map.
    - An exception that ends the run is a value of [fatal]. *)

From Stdlib Require Import ZArith String Ascii.
From stdpp Require Import gmap strings list sorting fin_maps.

Open Scope string_scope.
Open Scope list_scope.
Open Scope Z_scope.

(** ** Fatal outcomes *)

(** What can end a run.  [SchemaMismatch] is the [sys.exit(1)] taken after
    the two [log.error] lines that print the column sets; [TimestampParse]
    is the [ValueError] of [datetime.strptime]; [NoObjectsToConcatenate] is
    the [ValueError] of [pd.concat] on an empty list; [DuplicateLabels] is
    the [ValueError] pandas raises when a series with repeated index labels
    has to be re-indexed; [KeyError] is the look-up of a key a dictionary
    does not hold. *)
Inductive fatal : Type :=
  | SchemaMismatch
  | TimestampParse
  | NoObjectsToConcatenate
  | DuplicateLabels
  | KeyError.

Global Instance fatal_eq_dec : EqDecision fatal.
Proof. solve_decision. Defined.

Definition result (A : Type) : Type := fatal + A.

Definition raise {A} (e : fatal) : result A := inl e.
Definition ret {A} (a : A) : result A := inr a.
Definition bind {A B} (m : result A) (k : A → result B) : result B :=
  match m with
  | inl e => inl e
  | inr a => k a
  end.

Notation "x ←! m ; k" := (bind m (fun x => k))
  (at level 100, m at next level, right associativity).

(** [v] is the greatest element of [vs]. *)
Definition is_maximum (v : Z) (vs : list Z) : Prop :=
  v ∈ vs ∧ ∀ w, w ∈ vs → w ≤ v.

(** [a] stands before [b] in [l]. *)
Definition precedes {A} (a b : A) (l : list A) : Prop := [a; b] `sublist_of` l.

(** The test of lines 163 and 361:
    [column_names_seen and set(df.columns) != column_names_seen]. *)
Definition columns_differ (column_names_seen : gset string)
    (columns : list string) : bool :=
  bool_decide (column_names_seen ≠ ∅) &&
  bool_decide (list_to_set columns ≠ column_names_seen).

(** Column lists that pass that test one after the other: each has the same
    labels, as a set, as every earlier one that has a label at all. *)
Definition agrees (cols : list (list string)) : Prop :=
  ∀ (i j : nat) (ci cj : list string),
    (i < j)%nat → cols !! i = Some ci → cols !! j = Some cj → ci ≠ [] →
    list_to_set cj =@{gset string} list_to_set ci.

(** State passing over the frame objects a list [dfs] refers to: a
    computation returns the objects as it leaves them, and its outcome. *)
Definition M (S A : Type) : Type := S → S * result A.

Definition mret {S A} (a : A) : M S A := λ s, (s, inr a).
Definition mbind {S A B} (m : M S A) (k : A → M S B) : M S B :=
  λ s, match m s with
       | (s', inl e) => (s', inl e)
       | (s', inr a) => k a s'
       end.
(** Reading the objects. *)
Definition reads {S A} (f : S → result A) : M S A := λ s, (s, f s).
(** Updating the objects in place. *)
Definition modifies {S} (f : S → S) : M S unit := λ s, (f s, inr tt).

Notation "x ←$ m ; k" := (mbind m (fun x => k))
  (at level 100, m at next level, right associativity).

(** ** Views/clones frames *)

Module Scalar.

(** The counter cells of one row, by column label. *)
Abbreviation cells := (gmap string Z).

(** One row: its index label and its cells. *)
Abbreviation row := (Z * gmap string Z)%type.

Record DataFrame : Type := mkDataFrame {
  columns : list string;
  rows : list row
}.

Global Instance DataFrame_eq_dec : EqDecision DataFrame.
Proof. solve_decision. Defined.

(** The index of a frame. *)
Definition index (df : DataFrame) : list Z := (rows df).*1.

(** [pd.concat(dfs)] with its defaults (outer join on the columns, column
    order by first appearance, rows of the frames one after the other); an
    empty list of frames raises. *)
Definition union_columns (acc new : list string) : list string :=
  acc ++ filter (λ c, c ∉ acc) (remove_dups new).

Definition concat_columns (dfs : list DataFrame) : list string :=
  foldl (λ acc df, union_columns acc (columns df)) [] dfs.

Definition concat_rows (dfs : list DataFrame) : list row :=
  mjoin (rows <$> dfs).

Definition pd_concat (dfs : list DataFrame) : result DataFrame :=
  match dfs with
  | [] => raise NoObjectsToConcatenate
  | _ => ret (mkDataFrame (concat_columns dfs) (concat_rows dfs))
  end.

(** [df.sort_index()]: the rows in ascending order of their labels.  pandas
    leaves the order of rows with equal labels to the sorting routine; the
    embedding keeps their order. *)
Fixpoint insert_row (r : row) (rs : list row) : list row :=
  match rs with
  | [] => [r]
  | r' :: rs' => if decide (r.1 ≤ r'.1) then r :: rs else r' :: insert_row r rs'
  end.

Definition sort_rows (rs : list row) : list row := foldr insert_row [] rs.

Definition sort_index (df : DataFrame) : DataFrame :=
  mkDataFrame (columns df) (sort_rows (rows df)).

(** The cell-wise maximum of two rows; a missing cell is skipped. *)
Definition cells_max (a b : cells) : cells :=
  union_with (λ x y, Some (Z.max x y)) a b.

(** [.max()] over one group of rows. *)
Definition group_max (rs : list row) : cells := foldr cells_max ∅ rs.*2.

(** The rows of a group. *)
Definition group_rows (t : Z) (rs : list row) : list row :=
  filter (λ r, r.1 = t) rs.

(** The group keys of [groupby]: each distinct label once, ascending. *)
Definition group_keys (ts : list Z) : list Z :=
  merge_sort Z.le (remove_dups ts).

(** [df.groupby(df.index).max()]. *)
Definition groupby_index_max (df : DataFrame) : DataFrame :=
  mkDataFrame (columns df)
    ((λ t, (t, group_max (group_rows t (rows df)))) <$> group_keys (index df)).

(** Lines 375 to 394 of [analyse_view_clones_ts_fragments]: from the loaded
    fragments [dfs] to [df_agg].  Renaming the index changes no label and no
    cell. *)
Definition df_agg (dfs : list DataFrame) : result DataFrame :=
  dfa ←! pd_concat dfs;
  let dfa := sort_index dfa in
  ret (groupby_index_max dfa).

(** The rows of [df_agg] as a function of the concatenated rows alone; a
    normal form used by the proofs (see [df_agg_unfold]). *)
Definition agg_rows (rs : list row) : list row :=
  (λ t, (t, group_max (group_rows t rs))) <$> group_keys rs.*1.

(** The values a counter field [c] takes in the rows labelled [t]. *)
Definition observed (c : string) (t : Z) (rs : list row) : list Z :=
  omap (λ r, r.2 !! c) (group_rows t rs).


(** The loop of lines 351 to 367 over what [pd.read_csv] returns for the
    files found, in the order of the glob. *)
Fixpoint read_fragments_loop (column_names_seen : gset string)
    (dfs : list DataFrame) (files : list DataFrame) : result (list DataFrame) :=
  match files with
  | [] => ret dfs
  | df :: files' =>
      if columns_differ column_names_seen (columns df) then raise SchemaMismatch
      else read_fragments_loop (column_names_seen ∪ list_to_set (columns df))
             (dfs ++ [df]) files'
  end.

Definition read_fragments (files : list DataFrame) : result (list DataFrame) :=
  read_fragments_loop ∅ [] files.

(** Lines 375 to 394 as a computation over the objects of [dfs]:
    [pd.concat] builds a new frame [dfa], the in-place sort and the renaming
    of the index act on [dfa], and [groupby(...).max()] builds [df_agg]. *)
Definition reconciler : M (list DataFrame) DataFrame :=
  dfa ←$ reads pd_concat;
  let dfa := sort_index dfa in
  mret (groupby_index_max dfa).

(** [analyse_view_clones_ts_fragments] up to line 394: its [df_agg]. *)
Definition analyse_view_clones_ts_fragments (files : list DataFrame) :
    result DataFrame :=
  dfs ←! read_fragments files;
  (reconciler dfs).2.

(** Line 372: [sum(len(df) for df in dfs)], the total sample count. *)
Definition total_sample_count (dfs : list DataFrame) : nat :=
  sum_list ((λ df, length (rows df)) <$> dfs).

(** [df[c].max()]: the greatest value of the column [c], missing cells
    skipped; NaN, here [None], when no cell has a value. *)
Definition column_values (c : string) (df : DataFrame) : list Z :=
  omap (λ r : row, r.2 !! c) (rows df).

Definition column_max (c : string) (df : DataFrame) : option Z :=
  foldr (λ v acc, Some (match acc with Some w => Z.max v w | None => v end))
    None (column_values c df).

(** What can end the run between lines 414 and 416: the [ValueError] of
    [reset_index] when the frame already has a column with the name of its
    index, and the [KeyError] of [drop] when a label to drop is not a column
    of the frame. *)
Inductive frame_error : Type :=
  | CannotInsert
  | NotFoundInAxis.

(** Line 414: [df_agg.reset_index()].  The index, which line 379 named
    [time], becomes the first column, and the rows are numbered from 0. *)
Definition reset_index (df : DataFrame) : frame_error + DataFrame :=
  if decide ("time" ∈ columns df) then inl CannotInsert
  else inr (mkDataFrame ("time" :: columns df)
              (imap (λ i r, (Z.of_nat i, <["time" := r.1]> r.2)) (rows df))).

(** [df.drop(columns=labels)]: every label has to be a column. *)
Definition drop_columns (labels : list string) (df : DataFrame) :
    frame_error + DataFrame :=
  if decide (labels ⊆ columns df) then
    inr (mkDataFrame (filter (λ c, c ∉ labels) (columns df))
           ((λ r : row, (r.1, filter (λ kv, kv.1 ∉ labels) r.2)) <$> rows df))
  else inl NotFoundInAxis.

(** Lines 414 to 416: the frames [df_agg_views] and [df_agg_clones] the
    four charts are drawn from. *)
Definition chart_frames (df_agg : DataFrame) :
    frame_error + (DataFrame * DataFrame) :=
  match reset_index df_agg with
  | inl e => inl e
  | inr df_agg =>
      match drop_columns ["clones_unique"; "clones_total"] df_agg with
      | inl e => inl e
      | inr df_agg_views =>
          match drop_columns ["views_unique"; "views_total"] df_agg with
          | inl e => inl e
          | inr df_agg_clones => inr (df_agg_views, df_agg_clones)
          end
      end
  end.

(** The four counter columns of a views/clones file. *)
Definition counters : list string :=
  ["clones_unique"; "clones_total"; "views_unique"; "views_total"].

(** *** Fragments whose rows may have no time *)

(** A row as [pd.read_csv] with [index_col=["time_iso8601"]] and the date
    parser of line 359 returns it: a row whose time cell is empty has the
    label NaT, here [None]. *)
Abbreviation sample := (option Z * gmap string Z)%type.

Record Fragment : Type := mkFragment {
  fragment_columns : list string;
  samples : list sample
}.

(** Line 372. *)
Definition sample_count (fs : list Fragment) : nat :=
  sum_list ((λ f, length (samples f)) <$> fs).

(** Line 375: the rows of [pd.concat(dfs)]. *)
Definition concat_samples (fs : list Fragment) : list sample :=
  mjoin (samples <$> fs).

(** The order of [sort_index] on labels: NaT comes last. *)
Definition label_le (a b : option Z) : Prop :=
  match a, b with
  | Some x, Some y => x ≤ y
  | _, None => True
  | None, Some _ => False
  end.

Global Instance label_le_dec : RelDecision label_le.
Proof. intros [x|] [y|]; simpl; apply _. Defined.

(** Line 376: [dfa.sort_index(inplace=True)]. *)
Fixpoint insert_sample (r : sample) (rs : list sample) : list sample :=
  match rs with
  | [] => [r]
  | r' :: rs' =>
      if decide (label_le r.1 r'.1) then r :: rs else r' :: insert_sample r rs'
  end.

Definition sort_samples (rs : list sample) : list sample :=
  foldr insert_sample [] rs.

(** Line 394: [dfa.groupby(dfa.index).max()].  The group keys are the
    labels other than NaT ([dropna=True]), each once, ascending; a row
    labelled NaT is in no group. *)
Definition groupby_samples_max (rs : list sample) : list row :=
  (λ t, (t, foldr cells_max ∅ (filter (λ r : sample, r.1 = Some t) rs).*2))
    <$> group_keys (omap fst rs).

(** Lines 375 to 394 on fragments that may hold rows without a time. *)
Definition fragments_agg (fs : list Fragment) : result DataFrame :=
  match fs with
  | [] => raise NoObjectsToConcatenate
  | _ =>
      ret (mkDataFrame
             (foldl (λ acc f, union_columns acc (fragment_columns f)) [] fs)
             (groupby_samples_max (sort_samples (concat_samples fs))))
  end.

(** The rows of a fragment that have a time, as a frame. *)
Definition timed_rows (rs : list sample) : list row :=
  omap (λ r : sample, (λ t, (t, r.2)) <$> r.1) rs.

Definition timed (f : Fragment) : DataFrame :=
  mkDataFrame (fragment_columns f) (timed_rows (samples f)).

(** Sample fragments with the same column; the last row of the third has
    no time. *)
Definition sample_a : Fragment :=
  mkFragment ["clones_total"]
    [(Some 20201207, {["clones_total" := 18]}); (Some 20201210, {["clones_total" := 25]})].

Definition sample_b : Fragment :=
  mkFragment ["clones_total"]
    [(Some 20201130, {["clones_total" := 3]}); (Some 20201201, {["clones_total" := 10]})].

Definition sample_nat : Fragment :=
  mkFragment ["clones_total"]
    [(Some 20201201, {["clones_total" := 10]}); (None, {["clones_total" := 99]})].

(** The two fragments of the end-to-end example; the label of a day is its
    date written as a number. *)
Definition fragment1 : DataFrame :=
  mkDataFrame ["clones_total"]
    [(20201201, {["clones_total" := 10]}); (20201207, {["clones_total" := 73]})].

Definition fragment2 : DataFrame :=
  mkDataFrame ["clones_total"]
    [(20201207, {["clones_total" := 18]}); (20201210, {["clones_total" := 25]})].

Definition reconciled12 : DataFrame :=
  mkDataFrame ["clones_total"]
    [(20201201, {["clones_total" := 10]}); (20201207, {["clones_total" := 73]});
     (20201210, {["clones_total" := 25]})].

(** A fragment file that holds the time column only, and a fragment with
    the four counters of the views/clones files. *)
Definition fragment_no_counters : DataFrame :=
  mkDataFrame [] [(20201130, ∅)].

Definition fragment_four : DataFrame :=
  mkDataFrame ["clones_total"; "clones_unique"; "views_total"; "views_unique"]
    [(20201201, {["clones_total" := 10; "clones_unique" := 4;
                  "views_total" := 31; "views_unique" := 9]})].

End Scalar.

(** ** File names and snapshot times *)

Module Strptime.

(** A naive date-time, as [datetime.strptime] returns it; localising it to
    UTC with [pytz] attaches the zone and changes no field. *)
Record datetime : Type := mkDatetime {
  year : Z;
  month : Z;
  day : Z;
  hour : Z;
  minute : Z;
  second : Z
}.

Global Instance datetime_eq_dec : EqDecision datetime.
Proof. solve_decision. Defined.

(** A character class of a regular expression. *)
Definition cls : Type := ascii → bool.

Definition digit_value (c : ascii) : option Z :=
  let n := Z.of_N (N_of_ascii c) in
  if decide (48 ≤ n ≤ 57) then Some (n - 48) else None.

Definition range (lo hi : Z) : cls :=
  λ c, match digit_value c with
       | Some d => bool_decide (lo ≤ d ≤ hi)
       | None => false
       end.

Definition lit (x : ascii) : cls := λ c, bool_decide (c = x).

Definition any_digit : cls := range 0 9.

(** One alternative of a group: a sequence of character classes.  It
    matches at the head of the input or not at all. *)
Fixpoint match_seq (cs : list cls) (s : list ascii) :
    option (list ascii * list ascii) :=
  match cs with
  | [] => Some ([], s)
  | k :: cs' =>
      match s with
      | [] => None
      | c :: s' =>
          if k c then
            match match_seq cs' s' with
            | Some (m, rest) => Some (c :: m, rest)
            | None => None
            end
          else None
      end
  end.

(** [int()] of the text of a group; a blank it starts with is skipped. *)
Definition int_of (m : list ascii) : Z :=
  foldl (λ acc c, match digit_value c with
                  | Some d => 10 * acc + d
                  | None => acc
                  end) 0 m.

(** A group: its alternatives in the order the regular expression tries
    them.  The result lists every way the group matches at the head of the
    input, in that order, with the rest of the input. *)
Definition match_group (alts : list (list cls)) (s : list ascii) :
    list (Z * list ascii) :=
  omap (λ a, (λ mr : list ascii * list ascii, (int_of mr.1, mr.2)) <$> match_seq a s) alts.

(** The groups of the directives of the format ["%Y-%m-%d_%H%M%S"], as the
    [_strptime] module of the Python library compiles them. *)
Definition re_Y : list (list cls) :=
  [[any_digit; any_digit; any_digit; any_digit]].
Definition re_m : list (list cls) :=
  [[lit "1"; range 0 2]; [lit "0"; range 1 9]; [range 1 9]].
Definition re_d : list (list cls) :=
  [[lit "3"; range 0 1]; [range 1 2; any_digit]; [lit "0"; range 1 9];
   [range 1 9]; [lit " "; range 1 9]].
Definition re_H : list (list cls) :=
  [[lit "2"; range 0 3]; [range 0 1; any_digit]; [any_digit]].
Definition re_M : list (list cls) :=
  [[range 0 5; any_digit]; [any_digit]].
Definition re_S : list (list cls) :=
  [[lit "6"; range 0 1]; [range 0 5; any_digit]; [any_digit]].

Definition match_lit (x : ascii) (s : list ascii) : list (list ascii) :=
  match s with
  | c :: s' => if bool_decide (c = x) then [s'] else []
  | [] => []
  end.

(** Every match of the whole pattern at the head of the input, in the order
    in which backtracking finds them: the six fields and the rest. *)
Definition matches (s : list ascii) : list (datetime * list ascii) :=
  '(y, s) ← match_group re_Y s;
  s ← match_lit "-" s;
  '(mo, s) ← match_group re_m s;
  s ← match_lit "-" s;
  '(d, s) ← match_group re_d s;
  s ← match_lit "_" s;
  '(h, s) ← match_group re_H s;
  '(mi, s) ← match_group re_M s;
  '(sec, s) ← match_group re_S s;
  [(mkDatetime y mo d h mi sec, s)].

Definition is_leap (y : Z) : bool :=
  bool_decide (y mod 4 = 0) &&
  (negb (bool_decide (y mod 100 = 0)) || bool_decide (y mod 400 = 0)).

Definition days_in_month (y m : Z) : Z :=
  if bool_decide (m = 2) then (if is_leap y then 29 else 28)
  else if bool_decide (m = 4 ∨ m = 6 ∨ m = 9 ∨ m = 11) then 30
  else 31.

(** The range checks of the [datetime] constructor. *)
Definition valid (dt : datetime) : bool :=
  bool_decide (1 ≤ year dt ≤ 9999) &&
  bool_decide (1 ≤ month dt ≤ 12) &&
  bool_decide (1 ≤ day dt ≤ days_in_month (year dt) (month dt)) &&
  bool_decide (0 ≤ hour dt ≤ 23) &&
  bool_decide (0 ≤ minute dt ≤ 59) &&
  bool_decide (0 ≤ second dt ≤ 59).

(** [datetime.strptime(s, "%Y-%m-%d_%H%M%S")] on a string of ASCII
    characters (the digits of the embedding are the ten ASCII digits): the
    first match of the pattern must use up the input, and the fields must
    pass the checks of the constructor; [None] is the [ValueError] it raises
    otherwise. *)
Definition strptime (s : string) : option datetime :=
  match matches (list_ascii_of_string s) with
  | (dt, []) :: _ => if valid dt then Some dt else None
  | _ => None
  end.

(** [os.path.basename(p)]: what follows the last slash. *)
Fixpoint basename_aux (acc : string) (p : string) : string :=
  match p with
  | EmptyString => acc
  | String c p' =>
      if bool_decide (c = "/"%char) then basename_aux p' p' else basename_aux acc p'
  end.

Definition basename (p : string) : string := basename_aux p p.

(** [s.split(sep)[0]]: the part of [s] before the first occurrence of [sep],
    all of [s] when there is none. *)
Fixpoint split_head (sep s : string) : string :=
  if String.prefix sep s then EmptyString
  else match s with
       | EmptyString => EmptyString
       | String c s' => String c (split_head sep s')
       end.

Definition suffix : string := "_top_referrers_snapshot.csv".

(** [pprefix] of line 153. *)
Definition pprefix (p : string) : string := split_head suffix (basename p).

(** [snapshot_time] of lines 154 to 156. *)
Definition snapshot_time_of (p : string) : option datetime := strptime (pprefix p).

(** The order of two snapshot times, as a number that grows with time. *)
Definition dt_key (dt : datetime) : Z :=
  ((((year dt * 13 + month dt) * 32 + day dt) * 24 + hour dt) * 60 + minute dt) * 60
  + second dt.

(** The text of a date-time in the format, every field padded with zeros to
    its width: the token YYYY-MM-DD_HHMMSS. *)
Definition digit_char (d : Z) : ascii := ascii_of_N (Z.to_N (48 + d)).

Definition two_digits (n : Z) : list ascii :=
  [digit_char (n / 10); digit_char (n mod 10)].

Definition four_digits (n : Z) : list ascii :=
  [digit_char (n / 1000); digit_char (n / 100 mod 10);
   digit_char (n / 10 mod 10); digit_char (n mod 10)].

Definition token_chars (dt : datetime) : list ascii :=
  four_digits (year dt) ++ "-"%char :: two_digits (month dt) ++ "-"%char ::
  two_digits (day dt) ++ "_"%char :: two_digits (hour dt) ++
  two_digits (minute dt) ++ two_digits (second dt).

Definition token (dt : datetime) : string := string_of_list_ascii (token_chars dt).

(** The characters a token is written with. *)
Definition token_alphabet : list ascii :=
  list_ascii_of_string "0123456789-_".

(** The shape the specification gives for the token of a file name: four
    digits, a dash, two digits, a dash, two digits, an underscore and six
    digits. *)
Definition token_shape : list cls :=
  [any_digit; any_digit; any_digit; any_digit; lit "-"; any_digit; any_digit;
   lit "-"; any_digit; any_digit; lit "_"; any_digit; any_digit; any_digit;
   any_digit; any_digit; any_digit].

(** A base name that begins with such a token, followed by the suffix. *)
Definition begins_with_token (name : string) : bool :=
  match match_seq token_shape (list_ascii_of_string name) with
  | Some (_, rest) => String.prefix suffix (string_of_list_ascii rest)
  | None => false
  end.

End Strptime.

(** ** Referrer snapshots *)

Module Referrer.
Import Strptime.

(** One row of a snapshot file: the two columns the analysis reads.  The
    referrer column holds text and the count column integers.  (A file
    without one of them makes the look-up of the column raise after the
    loading loop; such files are outside the embedding.) *)
Record csv_row : Type := mkRow {
  referrer : string;
  count_unique : Z
}.

Global Instance csv_row_eq_dec : EqDecision csv_row.
Proof. solve_decision. Defined.

(** What [pd.read_csv(p)] returns: the header and the rows. *)
Record csv : Type := mkCsv {
  header : list string;
  body : list csv_row
}.

(** A loaded snapshot: its column labels, the [snapshot_time] kept in
    [df.attrs] and its rows.  The column [time] of lines 185 and 186 holds
    [snapshot_time] in every row; the frame has it when its label is among
    [columns]. *)
Record DataFrame : Type := mkDataFrame {
  columns : list string;
  snapshot_time : datetime;
  rows : list csv_row
}.

Global Instance DataFrame_eq_dec : EqDecision DataFrame.
Proof. solve_decision. Defined.

(** [df.rename(columns={"referrers": "referrer"}, inplace=True)]. *)
Definition rename_columns (cols : list string) : list string :=
  (λ c, if decide (c = "referrers") then "referrer" else c) <$> cols.

(** The loop of lines 147 to 172 over the paths found and what
    [pd.read_csv] returns for each. *)
Fixpoint read_snapshots_loop (column_names_seen : gset string)
    (dfs : list DataFrame) (files : list (string * csv)) :
    result (list DataFrame) :=
  match files with
  | [] => ret dfs
  | (p, f) :: files' =>
      match snapshot_time_of p with
      | None => raise TimestampParse
      | Some snapshot_time =>
          let cols := rename_columns (header f) in
          if columns_differ column_names_seen cols then raise SchemaMismatch
          else read_snapshots_loop (column_names_seen ∪ list_to_set cols)
                 (dfs ++ [mkDataFrame cols snapshot_time (body f)]) files'
      end
  end.

Definition read_snapshots (files : list (string * csv)) :
    result (list DataFrame) :=
  read_snapshots_loop ∅ [] files.

(** A snapshot file the analysis can read to its end: once [referrers] is
    renamed, its header names the columns [referrer] and [count_unique], and
    no column twice.  The look-ups of lines 179, 225 and 248 raise for other
    files. *)
Definition readable (f : csv) : Prop :=
  NoDup (rename_columns (header f)) ∧
  "referrer" ∈ rename_columns (header f) ∧
  "count_unique" ∈ rename_columns (header f).

(** Lines 177 to 179: the set of all referrers seen. *)
Definition referrers (dfs : list DataFrame) : gset string :=
  list_to_set (referrer <$> mjoin (rows <$> dfs)).

(** Lines 185 and 186, for one frame: [df["time"] = df.attrs["snapshot_time"]]. *)
Definition set_time (df : DataFrame) : DataFrame :=
  mkDataFrame
    (if decide ("time" ∈ columns df) then columns df else columns df ++ ["time"])
    (snapshot_time df) (rows df).

(** A row of [dfa]: the value of its [time] column and the row. *)
Abbreviation trow := (datetime * csv_row)%type.

Definition tagged_rows (df : DataFrame) : list trow :=
  (λ r, (snapshot_time df, r)) <$> rows df.

(** Line 188: [pd.concat(dfs)]. *)
Definition pd_concat (dfs : list DataFrame) : result (list trow) :=
  match dfs with
  | [] => raise NoObjectsToConcatenate
  | _ => ret (mjoin (tagged_rows <$> dfs))
  end.

(** [rdf.sort_index()]: ascending by time, rows of one time in their order. *)
Fixpoint insert_trow (r : trow) (rs : list trow) : list trow :=
  match rs with
  | [] => [r]
  | r' :: rs' =>
      if decide (dt_key r.1 ≤ dt_key r'.1) then r :: rs
      else r' :: insert_trow r rs'
  end.

Definition sort_index (rs : list trow) : list trow := foldr insert_trow [] rs.

(** Lines 196 to 201: the raw time series of one referrer. *)
Definition rdf_of (dfa : list trow) (name : string) : list trow :=
  sort_index (filter (λ r, referrer r.2 = name) dfa).

(** [Series.max()]; the maximum of no value is NaN, here [None]. *)
Definition series_max (vs : list Z) : option Z :=
  match vs with
  | [] => None
  | v :: vs' => Some (foldl Z.max v vs')
  end.

(** [<] on two such values; a comparison with NaN is false. *)
Definition py_lt (a b : option Z) : bool :=
  match a, b with
  | Some x, Some y => bool_decide (x < y)
  | _, _ => false
  end.

(** [sorted(items, key=lambda i: i[1], reverse=True)]: descending by the
    value, items of equal value in their original order. *)
Fixpoint insert_item (x : string * option Z) (l : list (string * option Z)) :
    list (string * option Z) :=
  match l with
  | [] => [x]
  | y :: l' => if py_lt x.2 y.2 then y :: insert_item x l' else x :: l
  end.

Definition sorted_reverse (items : list (string * option Z)) :
    list (string * option Z) :=
  foldr insert_item [] items.

Definition top_n : nat := 5.

(** A dictionary, by its items in insertion order. *)
Definition dict_get {V} (d : list (string * V)) (k : string) : result V :=
  match list_find (λ kv, kv.1 = k) d with
  | Some (_, kv) => ret kv.2
  | None => raise KeyError
  end.

(** A series: index labels and values. *)
Abbreviation series := (list (datetime * Z)).

(** [rdf["count_unique"]]. *)
Definition count_unique_series (rdf : list trow) : series :=
  (λ r, (r.1, count_unique r.2)) <$> rdf.

(** The aligned table [df_top_cu]: its index and its columns in order; a
    cell is [None] when it is unset (NaN). *)
Record Table : Type := mkTable {
  tindex : list datetime;
  tcolumns : list (string * list (option Z))
}.

Global Instance Table_eq_dec : EqDecision Table.
Proof. solve_decision. Defined.

(** [pd.DataFrame()]. *)
Definition empty_table : Table := mkTable [] [].

Definition series_at (s : series) (t : datetime) : option Z :=
  snd <$> (snd <$> list_find (λ p, p.1 = t) s).

(** Storing a column under a label: in place of the column of that label if
    there is one, as the last column otherwise. *)
Fixpoint set_column (name : string) (col : list (option Z))
    (cols : list (string * list (option Z))) : list (string * list (option Z)) :=
  match cols with
  | [] => [(name, col)]
  | c :: cols' =>
      if decide (c.1 = name) then (name, col) :: cols'
      else c :: set_column name col cols'
  end.

(** [df[name] = s] for a series [s].  A frame whose index is empty takes the
    index of a non-empty [s] (columns it already has are filled with NaN);
    otherwise [s] is aligned to the index of the frame: taken as it is when
    its index equals that of the frame, re-indexed when its own labels are
    pairwise distinct, and refused when they are not. *)
Definition setitem (tbl : Table) (name : string) (s : series) : result Table :=
  if decide (tindex tbl = []) then
    if decide (s = []) then
      ret (mkTable [] (set_column name [] (tcolumns tbl)))
    else
      ret (mkTable s.*1
             (set_column name (Some <$> s.*2)
                ((λ c, (c.1, (λ _, None) <$> s)) <$> tcolumns tbl)))
  else if decide (s.*1 = tindex tbl) then
    ret (mkTable (tindex tbl) (set_column name (Some <$> s.*2) (tcolumns tbl)))
  else if decide (NoDup s.*1) then
    ret (mkTable (tindex tbl)
           (set_column name (series_at s <$> tindex tbl) (tcolumns tbl)))
  else raise DuplicateLabels.

(** The counts of unique views observed for one referrer, over all rows of
    [dfa]. *)
Definition observations (dfa : list trow) (name : string) : list Z :=
  (λ r, count_unique r.2) <$> filter (λ r, referrer r.2 = name) dfa.

(** The times at which one referrer was observed. *)
Definition observed_at (dfa : list trow) (name : string) : list datetime :=
  (filter (λ r, referrer r.2 = name) dfa).*1.

(** The referrers of the rows of [dfa]. *)
Definition names_of (dfa : list trow) : gset string :=
  list_to_set ((λ r, referrer r.2) <$> dfa).

(** What [ref_max_cu_map] holds for one referrer. *)
Definition max_cu (dfa : list trow) (name : string) : option Z :=
  series_max (count_unique_series (rdf_of dfa name)).*2.

(** [x] is not below [y] in the order of [sorted]. *)
Definition not_lt (x y : string * option Z) : Prop := py_lt x.2 y.2 = false.

(** The rows of [dfa] for the frames [dfs], once their [time] column is
    set. *)
Definition dfa_of (dfs : list DataFrame) : list trow :=
  mjoin (tagged_rows <$> (set_time <$> dfs)).

(** The table [df_top_cu] with each look-up [referrer_dfs[rname]] replaced by
    the series stored under that key; a normal form used by the proofs (see
    [df_top_cu_build_table]). *)
Definition build_table (dfa : list trow) (rnames : list string) : result Table :=
  foldl (λ acc rname,
           tbl ←! acc;
           setitem tbl rname (count_unique_series (rdf_of dfa rname)))
        (ret empty_table) rnames.

(** A column [col] of the table, under the index [idx], agrees with the
    observations of the referrer [name]: a cell at a time at which [name]
    has no row is unset, and a cell that is set holds the count of a row of
    [name] at that time. *)
Definition aligned (dfa : list trow) (idx : list datetime) (name : string)
    (col : list (option Z)) : Prop :=
  length col = length idx ∧
  ∀ (i : nat) (t : datetime), idx !! i = Some t →
    (t ∉ observed_at dfa name → col !! i = Some None) ∧
    (∀ v, col !! i = Some (Some v) →
       ∃ r, r ∈ dfa ∧ r.1 = t ∧ referrer r.2 = name ∧ count_unique r.2 = v).

(** A table with the index [idx] whose columns are those of the referrers
    [done], in order, each aligned. *)
Definition stored (dfa : list trow) (idx : list datetime) (done : list string)
    (tbl : Table) : Prop :=
  tindex tbl = idx ∧
  (tcolumns tbl).*1 = done ∧
  Forall (λ c, aligned dfa idx c.1 c.2) (tcolumns tbl).

(** An iteration order lists the elements of a set, each once. *)
Definition lists_elements (set_iter : gset string → list string) : Prop :=
  ∀ s, set_iter s ≡ₚ elements s.

Section iteration.
(** The order in which a [for] loop visits the elements of a Python set.
    It lists each element once; which order it is depends on the hashes of
    the elements, and the hash of a string changes from one interpreter
    process to the next. *)
Variable set_iter : gset string → list string.

(** Lines 192 to 203: the dictionary [referrer_dfs]. *)
Definition referrer_dfs (dfa : list trow) (referrers : gset string) :
    list (string * list trow) :=
  (λ name, (name, rdf_of dfa name)) <$> set_iter referrers.

(** Lines 223 to 225. *)
Definition ref_max_cu_map (rdfs : list (string * list trow)) :
    list (string * option Z) :=
  (λ kv, (kv.1, series_max (count_unique_series kv.2).*2)) <$> rdfs.

(** Lines 229 to 232. *)
Definition sorted_dict (rdfs : list (string * list trow)) :
    list (string * option Z) :=
  sorted_reverse (ref_max_cu_map rdfs).

(** Line 235. *)
Definition top_n_rnames (rdfs : list (string * list trow)) : list string :=
  take top_n (sorted_dict rdfs).*1.

(** Lines 244 to 248. *)
Definition df_top_cu (rdfs : list (string * list trow)) (rnames : list string) :
    result Table :=
  foldl (λ acc rname,
           tbl ←! acc;
           rdf ←! dict_get rdfs rname;
           setitem tbl rname (count_unique_series rdf))
        (ret empty_table) rnames.

(** Lines 177 to 248 as a computation over the objects of [dfs]: the loop
    of lines 185 and 186 stores a column into each of them; everything else
    builds new values. *)
Definition aggregator : M (list DataFrame) (list string * Table) :=
  names ←$ reads (λ dfs, ret (referrers dfs));
  _ ←$ modifies (fmap set_time);
  dfa ←$ reads pd_concat;
  let rdfs := referrer_dfs dfa names in
  let rnames := top_n_rnames rdfs in
  tbl ←$ reads (λ _, df_top_cu rdfs rnames);
  mret (rnames, tbl).

(** The names the aggregator selects, as a function of the loaded frames. *)
Definition top_referrers (dfs : list DataFrame) : list string :=
  top_n_rnames (referrer_dfs (dfa_of dfs) (referrers dfs)).

(** [analyse_referrer_snapshots] up to line 248: the names of the top
    referrers and the table [df_top_cu]. *)
Definition analyse_referrer_snapshots (files : list (string * csv)) :
    result (list string * Table) :=
  dfs ←! read_snapshots files;
  (aggregator dfs).2.

End iteration.

(** A row of [df_melted], lines 264 to 266: the index label, which
    [reset_index] turns into the column [time], the column label of
    [df_top_cu] the cell comes from and the cell. *)
Record melted_row : Type := mkMelted {
  melted_time : datetime;
  melted_referrer : string;
  melted_count_unique : option Z
}.

(** [df_top_cu.melt(var_name="referrer", value_name="count_unique",
    ignore_index=False).reset_index()]: the columns one after the other,
    each with the whole index. *)
Definition melt (tbl : Table) : list melted_row :=
  tcolumns tbl ≫= λ c, zip_with (λ t v, mkMelted t c.1 v) (tindex tbl) c.2.

(** Line 282: [df_melted["count_unique"].max()]; unset cells are skipped. *)
Definition melted_max (df_melted : list melted_row) : option Z :=
  series_max (omap melted_count_unique df_melted).

(** Sample snapshot files.  The header of the first names the referrer
    column [referrers], that of the others [referrer]. *)
Definition snap1 : string * csv :=
  ("csv/2020-12-01_120000_top_referrers_snapshot.csv",
   mkCsv ["referrers"; "count_unique"]
     [mkRow "A" 50; mkRow "B" 12; mkRow "C" 30; mkRow "D" 20; mkRow "E" 10;
      mkRow "F" 5]).

Definition snap2 : string * csv :=
  ("csv/2020-12-02_120000_top_referrers_snapshot.csv",
   mkCsv ["referrer"; "count_unique"] [mkRow "B" 40; mkRow "F" 3; mkRow "A" 20]).

(** The frames the loop of lines 147 to 172 makes of [snap1] and [snap2]. *)
Definition loaded12 : list DataFrame :=
  [mkDataFrame ["referrer"; "count_unique"] (mkDatetime 2020 12 1 12 0 0)
     (body snap1.2);
   mkDataFrame ["referrer"; "count_unique"] (mkDatetime 2020 12 2 12 0 0)
     (body snap2.2)].

(** A file whose name leaves out the leading zeros of month and day. *)
Definition snap_short : string * csv :=
  ("csv/2020-1-5_123456_top_referrers_snapshot.csv",
   mkCsv ["referrer"; "count_unique"] [mkRow "A" 7]).

(** A file whose name carries no time. *)
Definition snap_bad : string * csv :=
  ("csv/latest_top_referrers_snapshot.csv",
   mkCsv ["referrer"; "count_unique"] [mkRow "A" 7]).

(** Six referrers with the same count. *)
Definition snap_tie : string * csv :=
  ("csv/2020-12-04_120000_top_referrers_snapshot.csv",
   mkCsv ["referrer"; "count_unique"]
     [mkRow "a" 10; mkRow "b" 10; mkRow "c" 10; mkRow "d" 10; mkRow "e" 10;
      mkRow "f" 10]).

(** Two snapshots; the referrer with the greatest count is missing from the
    second. *)
Definition snap_early : string * csv :=
  ("csv/2020-12-05_120000_top_referrers_snapshot.csv",
   mkCsv ["referrer"; "count_unique"] [mkRow "A" 50; mkRow "B" 12]).

Definition snap_late : string * csv :=
  ("csv/2020-12-06_120000_top_referrers_snapshot.csv",
   mkCsv ["referrer"; "count_unique"] [mkRow "B" 40]).

(** The frames the loading loop makes of [snap_early] and [snap_late]. *)
Definition loaded_early_late : list DataFrame :=
  [mkDataFrame ["referrer"; "count_unique"] (mkDatetime 2020 12 5 12 0 0)
     (body snap_early.2);
   mkDataFrame ["referrer"; "count_unique"] (mkDatetime 2020 12 6 12 0 0)
     (body snap_late.2)].

(** A file with one more column. *)
Definition snap_wide : string * csv :=
  ("csv/2020-12-03_120000_top_referrers_snapshot.csv",
   mkCsv ["referrer"; "count_unique"; "count"] [mkRow "A" 7]).

End Referrer.

(** ** Frames as objects

    The frames of a run are objects: a list such as [dfs] holds references
    to them, an operation with [inplace=True] or an assignment into a frame
    changes the object it is applied to, and every other operation builds a
    new object.  A store maps the identity of each object to what it
    holds. *)

Module Objects.
Import Strptime.

(** The identity of an object. *)
Definition loc : Type := positive.

(** Building a new object: it gets an identity no object has. *)
Definition alloc {O} (o : O) : M (gmap loc O) loc :=
  λ σ, let l := fresh (dom σ) in (<[l := o]> σ, inr l).

(** Changing the object [l] in place. *)
Definition update {O} (l : loc) (f : O → O) : M (gmap loc O) unit :=
  modifies (alter f l).

(** [for x in xs: body]. *)
Fixpoint for_each {S A B} (xs : list A) (body : A → M S B) : M S (list B) :=
  match xs with
  | [] => mret []
  | x :: xs' =>
      y ←$ body x;
      ys ←$ for_each xs' body;
      mret (y :: ys)
  end.

(** *** The objects of the reconciler *)

(** A views/clones frame object: the name of its index and its content. *)
Record frame : Type := mkFrame {
  index_name : option string;
  content : Scalar.DataFrame
}.

Global Instance frame_inhabited : Inhabited frame :=
  populate (mkFrame None (Scalar.mkDataFrame [] [])).

(** The name [pd.concat] gives the index of its result: the name the
    indexes of the frames share, none when they differ. *)
Definition concat_index_name (names : list (option string)) : option string :=
  match names with
  | [] => None
  | n :: ns => if decide (Forall (λ m, m = n) ns) then n else None
  end.

(** Lines 375 to 394 on objects; [dfs] lists the loaded fragments.
    [pd.concat] builds the object [dfa]; the sort of line 376 and the
    renaming of line 379 change [dfa] in place; [groupby(...).max()] builds
    [df_agg], whose index has the name of the key, the index of [dfa]. *)
Definition reconciler (dfs : list loc) : M (gmap loc frame) loc :=
  frames ←$ reads (λ σ, ret ((λ df, σ !!! df) <$> dfs));
  concatenated ←$ reads (λ _, Scalar.pd_concat (content <$> frames));
  dfa ←$ alloc (mkFrame (concat_index_name (index_name <$> frames)) concatenated);
  _ ←$ update dfa (λ o, mkFrame (index_name o) (Scalar.sort_index (content o)));
  _ ←$ update dfa (λ o, mkFrame (Some "time") (content o));
  o ←$ reads (λ σ, ret (σ !!! dfa));
  alloc (mkFrame (index_name o) (Scalar.groupby_index_max (content o))).

(** *** The objects of the aggregator *)

(** Where a frame cut from [dfa] has the snapshot times of its rows: in
    the column [time], nowhere once that column is dropped, or in its
    index. *)
Inductive time_place : Type :=
  | InColumn
  | Dropped
  | InIndex.

(** The frame objects of the aggregator: a loaded snapshot, [dfa] or a
    frame cut from it, or the table [df_top_cu]. *)
Inductive obj : Type :=
  | Snapshot (df : Referrer.DataFrame)
  | Frame (place : time_place) (rows : list Referrer.trow)
  | Top (tbl : Referrer.Table).

Global Instance obj_inhabited : Inhabited obj := populate (Top Referrer.empty_table).

Definition snapshot_of (o : obj) : option Referrer.DataFrame :=
  match o with
  | Snapshot df => Some df
  | _ => None
  end.

Definition rows_of (o : obj) : list Referrer.trow :=
  match o with
  | Frame _ rows => rows
  | _ => []
  end.

Definition table_of (o : obj) : Referrer.Table :=
  match o with
  | Top tbl => tbl
  | _ => Referrer.empty_table
  end.

Definition on_snapshot (f : Referrer.DataFrame → Referrer.DataFrame) (o : obj) : obj :=
  match o with
  | Snapshot df => Snapshot (f df)
  | _ => o
  end.

(** The snapshots a list [dfs] refers to. *)
Definition snapshots_at (σ : gmap loc obj) (dfs : list loc) :
    list Referrer.DataFrame :=
  omap (λ df, σ !! df ≫= snapshot_of) dfs.

Section iteration.
Import Referrer.
Variable set_iter : gset string → list string.

(** Lines 196 to 203 for one referrer.  The selection of line 196, the
    [drop] of line 199 and the [sort_index] of line 201 each build a frame;
    line 200 stores the times as the index of the second one, in place. *)
Definition referrer_frame (dfa : loc) (referrer : string) :
    M (gmap loc obj) (string * loc) :=
  rdf ←$ (rows ←$ reads (λ σ, ret (rows_of (σ !!! dfa)));
          alloc (Frame InColumn
                   (filter (λ r, Referrer.referrer r.2 = referrer) rows)));
  newindex ←$ reads (λ σ, ret (rows_of (σ !!! rdf)).*1);
  rdf ←$ (rows ←$ reads (λ σ, ret (rows_of (σ !!! rdf)));
          alloc (Frame Dropped rows));
  _ ←$ update rdf (λ o, Frame InIndex (zip newindex (rows_of o).*2));
  rdf ←$ (rows ←$ reads (λ σ, ret (rows_of (σ !!! rdf)));
          alloc (Frame InIndex (sort_index rows)));
  mret (referrer, rdf).

(** Lines 246 to 248 for one name: the column is stored into the table
    object in place. *)
Definition store_column (referrer_dfs : list (string * loc)) (df_top_cu : loc)
    (rname : string) : M (gmap loc obj) unit :=
  rdf ←$ reads (λ _, dict_get referrer_dfs rname);
  tbl ←$ reads (λ σ,
    setitem (table_of (σ !!! df_top_cu)) rname
      (count_unique_series (rows_of (σ !!! rdf))));
  update df_top_cu (λ _, Top tbl).

(** Lines 177 to 248 on objects; [dfs] lists the loaded snapshots. *)
Definition aggregator (dfs : list loc) : M (gmap loc obj) (list string * loc) :=
  referrers ←$ reads (λ σ, ret (Referrer.referrers (snapshots_at σ dfs)));
  _ ←$ for_each dfs (λ df, update df (on_snapshot set_time));
  rows ←$ reads (λ σ, Referrer.pd_concat (snapshots_at σ dfs));
  dfa ←$ alloc (Frame InColumn rows);
  referrer_dfs ←$ for_each (set_iter referrers) (referrer_frame dfa);
  ref_max_cu_map ←$ reads (λ σ,
    ret ((λ kv : string * loc,
            (kv.1, series_max (count_unique_series (rows_of (σ !!! kv.2))).*2))
           <$> referrer_dfs));
  let sorted_dict := sorted_reverse ref_max_cu_map in
  let top_n_rnames := take top_n sorted_dict.*1 in
  df_top_cu ←$ alloc (Top empty_table);
  _ ←$ for_each top_n_rnames (store_column referrer_dfs df_top_cu);
  mret (top_n_rnames, df_top_cu).

End iteration.

(** A store with two loaded fragments and one with two loaded snapshots. *)
Definition two_fragments : gmap loc frame :=
  {[ 1%positive := mkFrame (Some "time_iso8601") Scalar.fragment1;
     2%positive := mkFrame (Some "time_iso8601") Scalar.fragment2 ]}.

Definition two_snapshots : gmap loc obj :=
  {[ 1%positive := Snapshot (Referrer.mkDataFrame ["referrer"; "count_unique"]
                               (mkDatetime 2020 12 1 12 0 0)
                               (Referrer.body Referrer.snap1.2));
     2%positive := Snapshot (Referrer.mkDataFrame ["referrer"; "count_unique"]
                               (mkDatetime 2020 12 2 12 0 0)
                               (Referrer.body Referrer.snap2.2)) ]}.

End Objects.

(** ** The paths of the report *)

(** [os.path.join] and [os.path.splitext] as [posixpath] defines them, and
    the two paths [main] builds with them. *)
Module Paths.

(** [b.startswith("/")]. *)
Definition startswith_sep (b : string) : bool :=
  match b with
  | String c _ => bool_decide (c = "/"%char)
  | EmptyString => false
  end.

(** [path.endswith("/")]. *)
Fixpoint endswith_sep (path : string) : bool :=
  match path with
  | EmptyString => false
  | String c EmptyString => bool_decide (c = "/"%char)
  | String _ path' => endswith_sep path'
  end.

(** [os.path.join(a, b)] of [posixpath]. *)
Definition join (a b : string) : string :=
  if startswith_sep b then b
  else if bool_decide (a = "") || endswith_sep a then a +:+ b
  else a +:+ "/" +:+ b.

(** [p.rfind(c)] for a character [c]: the index of its last occurrence,
    or -1. *)
Fixpoint rfind_from (c : ascii) (p : list ascii) (i found : Z) : Z :=
  match p with
  | [] => found
  | x :: p' => rfind_from c p' (i + 1) (if decide (x = c) then i else found)
  end.

Definition rfind (c : ascii) (p : list ascii) : Z := rfind_from c p 0 (-1).

(** The loop of [genericpath._splitext] that skips leading dots: whether it
    meets a character other than a dot before [filenameIndex] reaches
    [dotIndex]; [n] is the number of indexes left. *)
Fixpoint skip_dots (n : nat) (p : list ascii) (filenameIndex : Z) : bool :=
  match n with
  | O => false
  | S n' =>
      if decide (p !! Z.to_nat filenameIndex ≠ Some "."%char) then true
      else skip_dots n' p (filenameIndex + 1)
  end.

(** [os.path.splitext(p)] of [posixpath]. *)
Definition splitext (p : string) : string * string :=
  let l := list_ascii_of_string p in
  let sepIndex := rfind "/" l in
  let dotIndex := rfind "." l in
  if decide (dotIndex > sepIndex) then
    if skip_dots (Z.to_nat (dotIndex - (sepIndex + 1))) l (sepIndex + 1) then
      (string_of_list_ascii (take (Z.to_nat dotIndex) l),
       string_of_list_ascii (drop (Z.to_nat dotIndex) l))
    else (p, "")
  else (p, "").

(** Lines 79 and 87 of [main]. *)
Definition md_report_filepath (OUTDIR TODAY : string) : string :=
  join OUTDIR (TODAY +:+ "_report.md").

Definition html_report_filepath (OUTDIR TODAY : string) : string :=
  (splitext (md_report_filepath OUTDIR TODAY)).1 +:+ ".html".

End Paths.

(** * Properties *)

(** ** The reconciliation of views/clones fragments *)

Section scalar_lemmas.
Import Scalar.

Lemma cells_max_lookup (a b : cells) (c : string) :
  cells_max a b !! c = union_with (λ x y, Some (Z.max x y)) (a !! c) (b !! c).
Proof. unfold cells_max. apply lookup_union_with. Qed.

Lemma cells_max_comm (a b : cells) : cells_max a b = cells_max b a.
Proof.
  apply map_eq; intros c. rewrite !cells_max_lookup.
  destruct (a !! c), (b !! c); simpl; f_equal; lia.
Qed.

Lemma cells_max_assoc (a b c : cells) :
  cells_max a (cells_max b c) = cells_max (cells_max a b) c.
Proof.
  apply map_eq; intros k. rewrite !cells_max_lookup.
  destruct (a !! k), (b !! k), (c !! k); simpl; f_equal; lia.
Qed.

Lemma cells_max_empty_r (a : cells) : cells_max a ∅ = a.
Proof.
  apply map_eq; intros k. rewrite cells_max_lookup, lookup_empty.
  by destruct (a !! k).
Qed.

Lemma cells_max_idemp (a : cells) : cells_max a a = a.
Proof.
  apply map_eq; intros k. rewrite cells_max_lookup.
  destruct (a !! k); simpl; f_equal; lia.
Qed.

Lemma group_max_Permutation (rs1 rs2 : list row) :
  rs1 ≡ₚ rs2 → group_max rs1 = group_max rs2.
Proof.
  intros Hp. unfold group_max.
  assert (Hq : rs1.*2 ≡ₚ rs2.*2) by (by rewrite Hp).
  induction Hq as [|x l1 l2 _ IH|x y l|l1 l2 l3 _ IH1 _ IH2]; simpl.
  - done.
  - by rewrite IH.
  - rewrite !cells_max_assoc. by rewrite (cells_max_comm y x).
  - by rewrite IH1.
Qed.

Lemma is_maximum_unique (v w : Z) (vs : list Z) :
  is_maximum v vs → is_maximum w vs → v = w.
Proof. intros [Hv1 Hv2] [Hw1 Hw2]. apply Hv2 in Hw1. apply Hw2 in Hv1. lia. Qed.

Lemma omap_cons {A B} (f : A → option B) (x : A) (l : list A) :
  omap f (x :: l) = match f x with Some y => y :: omap f l | None => omap f l end.
Proof. reflexivity. Qed.

Lemma group_max_spec (c : string) (rs : list row) :
  match group_max rs !! c with
  | Some v => is_maximum v (omap (λ r, r.2 !! c) rs)
  | None => omap (λ r : row, r.2 !! c) rs = []
  end.
Proof.
  induction rs as [|r rs IH].
  { unfold group_max; simpl. by rewrite lookup_empty. }
  change (group_max (r :: rs)) with (cells_max r.2 (group_max rs)).
  rewrite cells_max_lookup, omap_cons.
  destruct (r.2 !! c) as [x|], (group_max rs !! c) as [y|]; simpl; try done.
  - destruct IH as [Hin Hle]. split.
    + destruct (Z.max_spec x y) as [[_ ->]|[_ ->]]; [by right|by left].
    + intros w [->|Hw]%elem_of_cons; [lia|]. apply Hle in Hw. lia.
  - rewrite IH. split; [by left|]. by intros w ->%list_elem_of_singleton.
Qed.

Lemma group_max_Some (c : string) (rs : list row) (v : Z) :
  group_max rs !! c = Some v ↔ is_maximum v (omap (λ r, r.2 !! c) rs).
Proof.
  pose proof (group_max_spec c rs) as H.
  destruct (group_max rs !! c) as [w|].
  - split; [by intros [= ->]|]. intros Hv. f_equal. by eapply is_maximum_unique.
  - rewrite H. split; [done|]. by intros [?%elem_of_nil _].
Qed.

Lemma group_max_None (c : string) (rs : list row) :
  group_max rs !! c = None ↔ omap (λ r : row, r.2 !! c) rs = [].
Proof.
  pose proof (group_max_spec c rs) as H.
  destruct (group_max rs !! c) as [w|]; [|done].
  split; [done|]. intros Hnil. rewrite Hnil in H. by destruct H as [?%elem_of_nil _].
Qed.

Lemma insert_row_Permutation (r : row) (rs : list row) :
  insert_row r rs ≡ₚ r :: rs.
Proof.
  induction rs as [|r' rs IH]; simpl; [done|].
  case_decide; [done|]. rewrite IH. apply perm_swap.
Qed.

Lemma sort_rows_Permutation (rs : list row) : sort_rows rs ≡ₚ rs.
Proof.
  induction rs as [|r rs IH]; simpl; [done|].
  by rewrite insert_row_Permutation, IH.
Qed.

Lemma insert_row_Sorted (r : row) (rs : list row) :
  Sorted (λ a b : row, a.1 ≤ b.1) rs →
  Sorted (λ a b : row, a.1 ≤ b.1) (insert_row r rs).
Proof.
  induction 1 as [|r' rs Hs IH Hhd]; simpl; [by repeat constructor|].
  case_decide.
  - by repeat constructor.
  - constructor; [done|]. destruct Hhd; simpl.
    + constructor. lia.
    + case_decide; constructor; lia.
Qed.

Lemma sort_rows_Sorted (rs : list row) :
  Sorted (λ a b : row, a.1 ≤ b.1) (sort_rows rs).
Proof.
  induction rs; simpl; [constructor|by apply insert_row_Sorted].
Qed.

Global Instance Z_le_total : Total Z.le.
Proof. intros x y. lia. Qed.

Lemma group_keys_Sorted (ts : list Z) : Sorted Z.le (group_keys ts).
Proof. apply (Sorted_merge_sort Z.le). Qed.

Lemma group_keys_Permutation (ts : list Z) : group_keys ts ≡ₚ remove_dups ts.
Proof. apply merge_sort_Permutation. Qed.

Lemma group_keys_NoDup (ts : list Z) : NoDup (group_keys ts).
Proof. rewrite group_keys_Permutation. apply NoDup_remove_dups. Qed.

Lemma elem_of_group_keys (ts : list Z) (t : Z) : t ∈ group_keys ts ↔ t ∈ ts.
Proof. by rewrite group_keys_Permutation, elem_of_remove_dups. Qed.

Lemma group_keys_ext (ts1 ts2 : list Z) :
  (∀ t, t ∈ ts1 ↔ t ∈ ts2) → group_keys ts1 = group_keys ts2.
Proof.
  intros Hel. apply (Sorted_unique Z.le); try apply group_keys_Sorted.
  apply NoDup_Permutation; try apply group_keys_NoDup.
  intros t. by rewrite !elem_of_group_keys.
Qed.

Lemma Sorted_le_NoDup_lt (ts : list Z) :
  Sorted Z.le ts → NoDup ts → StronglySorted Z.lt ts.
Proof.
  intros Hs%Sorted_StronglySorted; [|apply _].
  induction Hs as [|t ts Hs IH Hall]; intros Hnd; [constructor|].
  apply NoDup_cons in Hnd as [Hnin Hnd]. constructor; [by apply IH|].
  rewrite Forall_forall in *. intros u Hu.
  assert (t ≠ u) by (by intros ->). specialize (Hall u Hu). lia.
Qed.

Lemma group_keys_StronglySorted (ts : list Z) :
  StronglySorted Z.lt (group_keys ts).
Proof.
  apply Sorted_le_NoDup_lt; [apply group_keys_Sorted|apply group_keys_NoDup].
Qed.

Lemma group_rows_Permutation (t : Z) (rs1 rs2 : list row) :
  rs1 ≡ₚ rs2 → group_rows t rs1 ≡ₚ group_rows t rs2.
Proof. intros Hp. unfold group_rows. by rewrite Hp. Qed.

(** The grouped maximum does not depend on the order of the rows. *)
Lemma groupby_rows_Permutation (rs1 rs2 : list row) :
  rs1 ≡ₚ rs2 →
  (λ t, (t, group_max (group_rows t rs1))) <$> group_keys rs1.*1 =
  (λ t, (t, group_max (group_rows t rs2))) <$> group_keys rs2.*1.
Proof.
  intros Hp. rewrite (group_keys_ext rs1.*1 rs2.*1).
  - apply list_fmap_ext. intros _ t _. f_equal.
    by apply group_max_Permutation, group_rows_Permutation.
  - intros t. by rewrite Hp.
Qed.

Lemma df_agg_unfold (dfs : list DataFrame) :
  dfs ≠ [] →
  df_agg dfs = inr (mkDataFrame (concat_columns dfs) (agg_rows (concat_rows dfs))).
Proof.
  intros Hne. unfold df_agg, pd_concat.
  destruct dfs as [|df dfs]; [done|]. simpl. unfold ret. f_equal.
  unfold groupby_index_max, index. simpl. f_equal.
  apply groupby_rows_Permutation, sort_rows_Permutation.
Qed.

Lemma df_agg_inr (dfs : list DataFrame) (out : DataFrame) :
  df_agg dfs = inr out →
  dfs ≠ [] ∧ out = mkDataFrame (concat_columns dfs) (agg_rows (concat_rows dfs)).
Proof.
  intros H. destruct dfs as [|df dfs]; [done|].
  rewrite df_agg_unfold in H by done. split; [done|]. by injection H.
Qed.

Lemma agg_rows_index (rs : list row) : (agg_rows rs).*1 = group_keys rs.*1.
Proof.
  unfold agg_rows. rewrite <-list_fmap_compose.
  rewrite <-(list_fmap_id (group_keys _)) at 2. by apply list_fmap_ext.
Qed.

Lemma elem_of_agg_rows (rs : list row) (t : Z) (m : cells) :
  (t, m) ∈ agg_rows rs ↔ t ∈ rs.*1 ∧ m = group_max (group_rows t rs).
Proof.
  unfold agg_rows. rewrite list_elem_of_fmap. split.
  - intros (u & Heq & Hu). injection Heq as -> ->.
    rewrite elem_of_group_keys in Hu. by split.
  - intros [Ht ->]. exists t. by rewrite elem_of_group_keys.
Qed.

Lemma group_rows_singleton_key (t : Z) (f : Z → cells) (ts : list Z) :
  NoDup ts → t ∈ ts → group_rows t ((λ u, (u, f u)) <$> ts) = [(t, f t)].
Proof.
  unfold group_rows. induction ts as [|u ts IH]; intros Hnd Hin.
  { by apply elem_of_nil in Hin. }
  apply NoDup_cons in Hnd as [Hu Hnd]. rewrite fmap_cons, filter_cons. simpl.
  case_decide as Hd; subst.
  - f_equal. clear IH Hin Hnd. induction ts as [|w ts IH]; [done|].
    rewrite fmap_cons, filter_cons. simpl. apply not_elem_of_cons in Hu as [??].
    case_decide; [congruence|by apply IH].
  - apply elem_of_cons in Hin as [?|Hin]; [congruence|]. by apply IH.
Qed.

(** Aggregating an aggregate changes nothing. *)
Lemma agg_rows_idemp (rs : list row) : agg_rows (agg_rows rs) = agg_rows rs.
Proof.
  unfold agg_rows at 1. rewrite agg_rows_index.
  rewrite (group_keys_ext (group_keys rs.*1) rs.*1)
    by (intros t; apply elem_of_group_keys).
  unfold agg_rows. apply list_fmap_ext. intros _ t Ht%list_elem_of_lookup_2.
  f_equal. rewrite group_rows_singleton_key;
    [|apply group_keys_NoDup|done].
  unfold group_max. simpl. apply cells_max_empty_r.
Qed.

Lemma remove_dups_NoDup {A} `{EqDecision A} (l : list A) :
  NoDup l → remove_dups l = l.
Proof.
  induction 1 as [|x l Hx _ IH]; simpl; [done|].
  destruct (decide_rel _ _ _); [done|]. by rewrite IH.
Qed.

Lemma union_columns_NoDup (acc new : list string) :
  NoDup acc → NoDup (union_columns acc new).
Proof.
  intros Hacc. unfold union_columns. apply NoDup_app. split_and!; [done| |].
  - intros c Hc [Hn _]%list_elem_of_filter. done.
  - apply NoDup_filter, NoDup_remove_dups.
Qed.

Lemma elem_of_union_columns (acc new : list string) (c : string) :
  c ∈ union_columns acc new ↔ c ∈ acc ∨ c ∈ new.
Proof.
  unfold union_columns.
  rewrite elem_of_app, list_elem_of_filter, elem_of_remove_dups.
  destruct (decide (c ∈ acc)); tauto.
Qed.

Lemma foldl_union_columns_NoDup (acc : list string) (dfs : list DataFrame) :
  NoDup acc → NoDup (foldl (λ acc df, union_columns acc (columns df)) acc dfs).
Proof.
  revert acc. induction dfs as [|df dfs IH]; intros acc Hacc; simpl; [done|].
  by apply IH, union_columns_NoDup.
Qed.

Lemma elem_of_foldl_union_columns (acc : list string) (dfs : list DataFrame) c :
  c ∈ foldl (λ acc df, union_columns acc (columns df)) acc dfs ↔
  c ∈ acc ∨ ∃ df, df ∈ dfs ∧ c ∈ columns df.
Proof.
  revert acc. induction dfs as [|df dfs IH]; intros acc; simpl.
  - split; [by left|]. intros [?|(df & ?%elem_of_nil & _)]; done.
  - rewrite IH, elem_of_union_columns. split.
    + intros [[?|?]|(df' & ? & ?)]; [by left|right..].
      * exists df. split; [by left|done].
      * exists df'. split; [by right|done].
    + intros [?|(df' & [->|?]%elem_of_cons & ?)]; [by left;left|by left;right|].
      right. by exists df'.
Qed.

Lemma concat_columns_NoDup (dfs : list DataFrame) : NoDup (concat_columns dfs).
Proof. apply foldl_union_columns_NoDup. constructor. Qed.

Lemma elem_of_concat_columns (dfs : list DataFrame) (c : string) :
  c ∈ concat_columns dfs ↔ ∃ df, df ∈ dfs ∧ c ∈ columns df.
Proof.
  unfold concat_columns. rewrite elem_of_foldl_union_columns.
  split; [intros [?%elem_of_nil|?]; done|by right].
Qed.

Lemma concat_columns_singleton (df : DataFrame) :
  NoDup (columns df) → concat_columns [df] = columns df.
Proof.
  intros Hnd. unfold concat_columns, union_columns. simpl.
  rewrite remove_dups_NoDup by done. clear Hnd.
  induction (columns df) as [|c cs IH]; [done|].
  rewrite filter_cons. rewrite decide_True by apply not_elem_of_nil. by f_equal.
Qed.

Lemma concat_rows_Permutation (dfs1 dfs2 : list DataFrame) :
  dfs1 ≡ₚ dfs2 → concat_rows dfs1 ≡ₚ concat_rows dfs2.
Proof. intros Hp. unfold concat_rows. by rewrite Hp. Qed.

Lemma concat_columns_Permutation (dfs1 dfs2 : list DataFrame) :
  dfs1 ≡ₚ dfs2 → concat_columns dfs1 ≡ₚ concat_columns dfs2.
Proof.
  intros Hp. apply NoDup_Permutation; try apply concat_columns_NoDup.
  intros c. rewrite !elem_of_concat_columns. by setoid_rewrite Hp.
Qed.

Lemma elem_of_concat_rows (dfs : list DataFrame) (r : row) :
  r ∈ concat_rows dfs ↔ ∃ df, df ∈ dfs ∧ r ∈ rows df.
Proof.
  unfold concat_rows. rewrite list_elem_of_join. split.
  - intros (l & Hr & (df & -> & Hdf)%list_elem_of_fmap). by exists df.
  - intros (df & Hdf & Hr). exists (rows df). split; [done|].
    apply list_elem_of_fmap. by exists df.
Qed.

Lemma df_agg_example : df_agg [fragment1; fragment2] = inr reconciled12.
Proof. vm_compute. reflexivity. Qed.

(** C1. For every non-empty collection of fragments the aggregate exists,
    and the cell of a counter field [c] in the entry labelled [t] is the
    greatest value of [c] among the fragment rows labelled [t] (it is unset
    exactly when no such row has a value for [c]); a label carried by a
    single row passes through with that row's cells; the two fragments of
    the end-to-end example reconcile to (2020-12-01, 10), (2020-12-07, 73),
    (2020-12-10, 25). *)
Theorem C1_value_is_field_maximum (dfs : list DataFrame) (Hne : dfs ≠ []) :
  ∃ out, df_agg dfs = inr out ∧
    (∀ t m c, (t, m) ∈ rows out →
       (∀ v, m !! c = Some v ↔ is_maximum v (observed c t (concat_rows dfs))) ∧
       (m !! c = None ↔ observed c t (concat_rows dfs) = [])) ∧
    (∀ r, group_rows r.1 (concat_rows dfs) = [r] → r ∈ rows out) ∧
    df_agg [fragment1; fragment2] = inr reconciled12.
Proof.
  eexists. split; [by apply df_agg_unfold|]. simpl. split_and!.
  - intros t m c [_ ->]%elem_of_agg_rows. split.
    + intros v. apply group_max_Some.
    + apply group_max_None.
  - intros [t m] Hr. simpl in Hr. apply elem_of_agg_rows. split.
    + assert (Hin : (t, m) ∈ group_rows t (concat_rows dfs))
        by (rewrite Hr; by left).
      apply list_elem_of_filter in Hin as [_ Hin].
      apply list_elem_of_fmap. by exists (t, m).
    + rewrite Hr. unfold group_max. simpl. by rewrite cells_max_empty_r.
  - apply df_agg_example.
Qed.

Lemma C1_value_is_field_maximum_witness :
  [fragment1; fragment2] ≠ [] ∧
  ∃ out, df_agg [fragment1; fragment2] = inr out ∧
    (∀ t m c, (t, m) ∈ rows out →
       (∀ v, m !! c = Some v ↔
          is_maximum v (observed c t (concat_rows [fragment1; fragment2]))) ∧
       (m !! c = None ↔ observed c t (concat_rows [fragment1; fragment2]) = [])) ∧
    (∀ r, group_rows r.1 (concat_rows [fragment1; fragment2]) = [r] →
       r ∈ rows out) ∧
    df_agg [fragment1; fragment2] = inr reconciled12.
Proof.
  split; [discriminate|].
  apply (C1_value_is_field_maximum [fragment1; fragment2]). discriminate.
Defined.

(** C2. Reconciliation is idempotent: the aggregate of a non-empty
    collection of fragments, reconciled again as a single fragment, is
    returned unchanged. *)
Theorem C2_reconciliation_idempotent (dfs : list DataFrame) (Hne : dfs ≠ []) :
  ∃ out, df_agg dfs = inr out ∧ df_agg [out] = inr out.
Proof.
  eexists. split; [by apply df_agg_unfold|].
  rewrite df_agg_unfold by done. f_equal.
  rewrite concat_columns_singleton by apply concat_columns_NoDup.
  unfold concat_rows. simpl. rewrite app_nil_r. by rewrite agg_rows_idemp.
Qed.

Lemma C2_reconciliation_idempotent_witness :
  [fragment1; fragment2] ≠ [] ∧
  ∃ out, df_agg [fragment1; fragment2] = inr out ∧ df_agg [out] = inr out.
Proof.
  split; [discriminate|].
  apply (C2_reconciliation_idempotent [fragment1; fragment2]). discriminate.
Defined.

(** C5. The labels of the aggregate are strictly increasing, hence pairwise
    distinct, and they are exactly the labels that occur in some row of some
    fragment. *)
Theorem C5_index_strictly_increasing (dfs : list DataFrame) (Hne : dfs ≠ []) :
  ∃ out, df_agg dfs = inr out ∧
    StronglySorted Z.lt (index out) ∧
    NoDup (index out) ∧
    (∀ t, t ∈ index out ↔ ∃ df r, df ∈ dfs ∧ r ∈ rows df ∧ r.1 = t).
Proof.
  eexists. split; [by apply df_agg_unfold|]. unfold index. simpl.
  rewrite agg_rows_index. split_and!.
  - apply group_keys_StronglySorted.
  - apply group_keys_NoDup.
  - intros t. rewrite elem_of_group_keys, list_elem_of_fmap. split.
    + intros (r & -> & (df & ? & ?)%elem_of_concat_rows). by exists df, r.
    + intros (df & r & ? & ? & <-). exists r. split; [done|].
      apply elem_of_concat_rows. by exists df.
Qed.

Lemma C5_index_strictly_increasing_witness :
  [fragment1; fragment2] ≠ [] ∧
  ∃ out, df_agg [fragment1; fragment2] = inr out ∧
    StronglySorted Z.lt (index out) ∧
    NoDup (index out) ∧
    (∀ t, t ∈ index out ↔
       ∃ df r, df ∈ [fragment1; fragment2] ∧ r ∈ rows df ∧ r.1 = t).
Proof.
  split; [discriminate|].
  apply (C5_index_strictly_increasing [fragment1; fragment2]). discriminate.
Defined.

(** C10. Reconciliation does not depend on the order of the fragments: two
    orderings of the same non-empty collection give aggregates with the same
    rows, label for label and cell for cell, over the same set of column
    labels. *)
Theorem C10_order_independent (dfs1 dfs2 : list DataFrame)
    (Hp : dfs1 ≡ₚ dfs2) (Hne : dfs1 ≠ []) :
  ∃ out1 out2, df_agg dfs1 = inr out1 ∧ df_agg dfs2 = inr out2 ∧
    rows out1 = rows out2 ∧ columns out1 ≡ₚ columns out2.
Proof.
  assert (Hne2 : dfs2 ≠ []).
  { intros ->. by apply Permutation_nil_r in Hp. }
  do 2 eexists. split_and!; [by apply df_agg_unfold..| |]; simpl.
  - apply groupby_rows_Permutation, concat_rows_Permutation, Hp.
  - by apply concat_columns_Permutation.
Qed.

Lemma C10_order_independent_witness :
  [fragment1; fragment2] ≡ₚ [fragment2; fragment1] ∧
  [fragment1; fragment2] ≠ [] ∧
  ∃ out1 out2,
    df_agg [fragment1; fragment2] = inr out1 ∧
    df_agg [fragment2; fragment1] = inr out2 ∧
    rows out1 = rows out2 ∧ columns out1 ≡ₚ columns out2.
Proof.
  split; [apply perm_swap|]. split; [discriminate|].
  apply (C10_order_independent [fragment1; fragment2] [fragment2; fragment1]).
  - apply perm_swap.
  - discriminate.
Defined.

End scalar_lemmas.

(** ** The parser of file names *)

Section strptime_lemmas.
Import Strptime.

Lemma digit_cases (d : Z) : 0 ≤ d ≤ 9 →
  d = 0 ∨ d = 1 ∨ d = 2 ∨ d = 3 ∨ d = 4 ∨ d = 5 ∨ d = 6 ∨ d = 7 ∨ d = 8 ∨ d = 9.
Proof. lia. Qed.

Lemma digit_value_char (d : Z) : 0 ≤ d ≤ 9 → digit_value (digit_char d) = Some d.
Proof.
  intros H. destruct (digit_cases d H) as [->|[->|[->|[->|[->|[->|[->|[->|[->| ->]]]]]]]]];
    reflexivity.
Qed.

Lemma head_bind {A B} (f : A → list B) (l : list A) (x : A) (y : B) :
  head l = Some x → head (f x) = Some y → head (l ≫= f) = Some y.
Proof.
  destruct l as [|x' l]; [done|]. intros [= ->]. csimpl.
  by destruct (f x).
Qed.

Lemma match_group_Y (y : Z) (rest : list ascii) : 0 ≤ y ≤ 9999 →
  match_group re_Y (four_digits y ++ rest) = [(y, rest)].
Proof.
  intros Hy. unfold match_group, re_Y, four_digits. simpl.
  unfold any_digit, range.
  rewrite !digit_value_char by (Z.div_mod_to_equations; lia).
  rewrite !bool_decide_eq_true_2 by (Z.div_mod_to_equations; lia).
  simpl. unfold int_of. simpl.
  rewrite !digit_value_char by (Z.div_mod_to_equations; lia).
  do 2 f_equal. Z.div_mod_to_equations; lia.
Qed.

Local Ltac small_cases n :=
  destruct n as [|n|n]; [| |lia];
  [|do 6 (try (destruct n as [n|n|]; try lia))].

Lemma match_group_m (n : Z) (rest : list ascii) : 1 ≤ n ≤ 12 →
  head (match_group re_m (two_digits n ++ rest)) = Some (n, rest).
Proof. intros H. small_cases n; try lia; reflexivity. Qed.

Lemma match_group_d (n : Z) (rest : list ascii) : 1 ≤ n ≤ 31 →
  head (match_group re_d (two_digits n ++ rest)) = Some (n, rest).
Proof. intros H. small_cases n; try lia; reflexivity. Qed.

Lemma match_group_H (n : Z) (rest : list ascii) : 0 ≤ n ≤ 23 →
  head (match_group re_H (two_digits n ++ rest)) = Some (n, rest).
Proof. intros H. small_cases n; try lia; reflexivity. Qed.

Lemma match_group_M (n : Z) (rest : list ascii) : 0 ≤ n ≤ 59 →
  head (match_group re_M (two_digits n ++ rest)) = Some (n, rest).
Proof. intros H. small_cases n; try lia; reflexivity. Qed.

Lemma match_group_S (n : Z) (rest : list ascii) : 0 ≤ n ≤ 59 →
  head (match_group re_S (two_digits n ++ rest)) = Some (n, rest).
Proof. intros H. small_cases n; try lia; reflexivity. Qed.

Lemma valid_ranges (dt : datetime) : valid dt = true →
  1 ≤ year dt ≤ 9999 ∧ 1 ≤ month dt ≤ 12 ∧ 1 ≤ day dt ≤ 31 ∧
  0 ≤ hour dt ≤ 23 ∧ 0 ≤ minute dt ≤ 59 ∧ 0 ≤ second dt ≤ 59.
Proof.
  unfold valid. rewrite !andb_true_iff, !bool_decide_eq_true.
  intros (((((Hy & Hm) & Hd) & Hh) & Hmi) & Hs). split_and!; try lia.
  unfold days_in_month in Hd. repeat case_bool_decide; try destruct (is_leap (year dt)); lia.
Qed.

Lemma match_lit_head (c : ascii) (s : list ascii) :
  head (match_lit c (c :: s)) = Some s.
Proof. unfold match_lit. by rewrite bool_decide_eq_true_2. Qed.

Lemma matches_token (dt : datetime) : valid dt = true →
  head (matches (token_chars dt)) = Some (dt, []).
Proof.
  intros (Hy & Hm & Hd & Hh & Hmi & Hs)%valid_ranges.
  unfold matches, token_chars.
  eapply head_bind; [by rewrite match_group_Y by lia|]; cbv beta iota.
  eapply head_bind; [apply match_lit_head|]; cbv beta iota.
  eapply head_bind; [by apply match_group_m|]; cbv beta iota.
  eapply head_bind; [apply match_lit_head|]; cbv beta iota.
  eapply head_bind; [by apply match_group_d|]; cbv beta iota.
  eapply head_bind; [apply match_lit_head|]; cbv beta iota.
  eapply head_bind; [by apply match_group_H|]; cbv beta iota.
  eapply head_bind; [by apply match_group_M|]; cbv beta iota.
  eapply head_bind;
    [rewrite <-(app_nil_r (two_digits _)); by apply match_group_S|];
    cbv beta iota.
  by destruct dt.
Qed.

Lemma strptime_token (dt : datetime) : valid dt = true → strptime (token dt) = Some dt.
Proof.
  intros Hv. unfold strptime, token.
  rewrite list_ascii_of_string_of_list_ascii.
  pose proof (matches_token dt Hv) as Hm.
  destruct (matches (token_chars dt)) as [|[dt' r] l]; [done|].
  injection Hm as -> ->. by rewrite Hv.
Qed.

Lemma list_ascii_of_string_app (a b : string) :
  list_ascii_of_string (a +:+ b) = list_ascii_of_string a ++ list_ascii_of_string b.
Proof. induction a as [|c a IH]; [done|]. simpl. by rewrite IH. Qed.

Lemma basename_aux_no_slash (acc s : string) :
  "/"%char ∉ list_ascii_of_string s → basename_aux acc s = acc.
Proof.
  induction s as [|c s IH]; [done|]. simpl.
  intros [Hc Hs]%not_elem_of_cons.
  rewrite bool_decide_eq_false_2 by congruence. by apply IH.
Qed.

Lemma basename_aux_dir (acc dir name : string) :
  "/"%char ∉ list_ascii_of_string name →
  basename_aux acc (dir +:+ String "/" name) = name.
Proof.
  intros Hn. revert acc. induction dir as [|c dir IH]; intros acc; simpl.
  - by apply basename_aux_no_slash.
  - case_bool_decide; apply IH.
Qed.

Lemma basename_dir (dir name : string) :
  "/"%char ∉ list_ascii_of_string name → basename (dir +:+ String "/" name) = name.
Proof. apply basename_aux_dir. Qed.

Lemma basename_plain (name : string) :
  "/"%char ∉ list_ascii_of_string name → basename name = name.
Proof. apply basename_aux_no_slash. Qed.

Lemma prefix_cons (a b : ascii) (s1 s2 : string) :
  String.prefix (String a s1) (String b s2) =
  if ascii_dec a b then String.prefix s1 s2 else false.
Proof. reflexivity. Qed.

Lemma split_head_cons (sep : string) (c : ascii) (s : string) :
  String.prefix sep (String c s) = false →
  split_head sep (String c s) = String c (split_head sep s).
Proof.
  intros H.
  change (split_head sep (String c s))
    with (if String.prefix sep (String c s) then EmptyString
          else String c (split_head sep s)).
  by rewrite H.
Qed.

Lemma split_head_suffix (tok : string) :
  "t"%char ∉ list_ascii_of_string tok → split_head suffix (tok +:+ suffix) = tok.
Proof.
  induction tok as [|c tok IH]; [done|]. intros [Hc Ht]%not_elem_of_cons.
  change (String c tok +:+ suffix) with (String c (tok +:+ suffix)).
  rewrite split_head_cons; [by rewrite IH|].
  unfold suffix at 1. rewrite prefix_cons.
  destruct (ascii_dec "_" c); [|done].
  destruct tok as [|c' tok]; [done|].
  change (String c' tok +:+ suffix) with (String c' (tok +:+ suffix)).
  rewrite prefix_cons. apply not_elem_of_cons in Ht as [Hc' _].
  by destruct (ascii_dec "t" c').
Qed.

Lemma digit_char_alphabet (d : Z) : 0 ≤ d ≤ 9 → digit_char d ∈ token_alphabet.
Proof.
  intros H.
  destruct (digit_cases d H) as [->|[->|[->|[->|[->|[->|[->|[->|[->| ->]]]]]]]]];
    compute_done.
Qed.

Lemma token_chars_alphabet (dt : datetime) :
  valid dt = true → Forall (λ c, c ∈ token_alphabet) (token_chars dt).
Proof.
  intros (Hy & Hm & Hd & Hh & Hmi & Hs)%valid_ranges.
  unfold token_chars, four_digits, two_digits. simpl.
  repeat (constructor;
          [first [apply digit_char_alphabet; Z.div_mod_to_equations; lia
                 |compute_done]|]).
  constructor.
Qed.

Lemma token_no_char (dt : datetime) (c : ascii) :
  valid dt = true → c ∉ token_alphabet → c ∉ list_ascii_of_string (token dt).
Proof.
  intros Hv Hc Hin. unfold token in Hin.
  rewrite list_ascii_of_string_of_list_ascii in Hin.
  pose proof (token_chars_alphabet dt Hv) as Hall.
  rewrite Forall_forall in Hall. by apply Hc, Hall.
Qed.

Lemma pprefix_token (dt : datetime) :
  valid dt = true → pprefix (token dt +:+ suffix) = token dt.
Proof.
  intros Hv. unfold pprefix. rewrite basename_plain.
  - apply split_head_suffix. apply token_no_char; [done|compute_done].
  - rewrite list_ascii_of_string_app. intros [Hin|Hin]%elem_of_app.
    + revert Hin. apply token_no_char; [done|compute_done].
    + revert Hin. compute_done.
Qed.

Lemma pprefix_dir_token (dir : string) (dt : datetime) :
  valid dt = true → pprefix (dir +:+ String "/" (token dt +:+ suffix)) = token dt.
Proof.
  intros Hv. unfold pprefix. rewrite basename_dir.
  - apply split_head_suffix. apply token_no_char; [done|compute_done].
  - rewrite list_ascii_of_string_app. intros [Hin|Hin]%elem_of_app.
    + revert Hin. apply token_no_char; [done|compute_done].
    + revert Hin. compute_done.
Qed.

Lemma snapshot_time_of_token (dir : string) (dt : datetime) :
  valid dt = true →
  snapshot_time_of (token dt +:+ suffix) = Some dt ∧
  snapshot_time_of (dir +:+ String "/" (token dt +:+ suffix)) = Some dt.
Proof.
  intros Hv. unfold snapshot_time_of.
  rewrite pprefix_token, pprefix_dir_token by done.
  by rewrite strptime_token.
Qed.

Lemma strptime_valid (s : string) (dt : datetime) :
  strptime s = Some dt → valid dt = true.
Proof.
  unfold strptime. destruct (matches _) as [|[dt' [|??]] ?]; try done.
  destruct (valid dt') eqn:Hv; [|done]. by intros [= <-].
Qed.

Lemma begins_with_token_token (dt : datetime) :
  valid dt = true → begins_with_token (token dt +:+ suffix) = true.
Proof.
  intros (Hy & Hm & Hd & Hh & Hmi & Hs)%valid_ranges.
  unfold begins_with_token, token.
  rewrite list_ascii_of_string_app, list_ascii_of_string_of_list_ascii.
  unfold token_chars, four_digits, two_digits, token_shape. simpl.
  unfold any_digit, range.
  rewrite !digit_value_char by (Z.div_mod_to_equations; lia).
  rewrite !bool_decide_eq_true_2 by (Z.div_mod_to_equations; lia).
  reflexivity.
Qed.

End strptime_lemmas.

(** ** The schema check of the two loading loops *)

Section loader_lemmas.

Lemma columns_differ_empty (cols : list string) : columns_differ ∅ cols = false.
Proof.
  unfold columns_differ. rewrite bool_decide_eq_false_2; [done|]. by intros [].
Qed.

Lemma columns_differ_seen (seen : gset string) (cols : list string) :
  seen ≠ ∅ → columns_differ seen cols = bool_decide (list_to_set cols ≠ seen).
Proof. intros H. unfold columns_differ. by rewrite bool_decide_eq_true_2. Qed.

Lemma list_to_set_nonempty (cols : list string) :
  cols ≠ [] → list_to_set cols ≠@{gset string} ∅.
Proof.
  destruct cols as [|c cols]; [done|]. intros _ H.
  assert (c ∈@{gset string} ∅); [|set_solver].
  rewrite <-H. set_solver.
Qed.

Lemma list_to_set_differ (c : string) (l1 l2 : list string) :
  c ∈ l1 → c ∉ l2 → list_to_set l1 ≠@{gset string} list_to_set l2.
Proof.
  intros H1 H2 Heq. apply H2.
  apply (elem_of_list_to_set (C:=gset string)). rewrite <-Heq.
  by apply elem_of_list_to_set.
Qed.

Lemma read_fragments_loop_same (seen : gset string)
    (dfs files : list Scalar.DataFrame) :
  seen ≠ ∅ →
  Forall (λ df, list_to_set (Scalar.columns df) = seen) files →
  Scalar.read_fragments_loop seen dfs files = inr (dfs ++ files).
Proof.
  intros Hne Hall. revert dfs.
  induction Hall as [|df files Hdf _ IH]; intros dfs; simpl.
  { by rewrite app_nil_r. }
  rewrite columns_differ_seen by done.
  rewrite bool_decide_eq_false_2 by (by intros []).
  rewrite Hdf, union_idemp_L, IH. by rewrite <-app_assoc.
Qed.

Lemma read_fragments_loop_differ (seen : gset string)
    (dfs files : list Scalar.DataFrame) :
  seen ≠ ∅ →
  Exists (λ df, list_to_set (Scalar.columns df) ≠ seen) files →
  Scalar.read_fragments_loop seen dfs files = inl SchemaMismatch.
Proof.
  intros Hne Hex. revert dfs.
  induction files as [|df files IH]; intros dfs; [by inversion Hex|]. simpl.
  rewrite columns_differ_seen by done.
  destruct (decide (list_to_set (Scalar.columns df) = seen)) as [Heq|Hd].
  - rewrite bool_decide_eq_false_2 by (by intros []).
    rewrite Heq, union_idemp_L. apply IH.
    by apply Exists_cons in Hex as [?|?].
  - by rewrite bool_decide_eq_true_2.
Qed.

(** The loop returns the frames it was given, or nothing. *)
Lemma read_fragments_loop_inr (seen : gset string)
    (dfs files out : list Scalar.DataFrame) :
  Scalar.read_fragments_loop seen dfs files = inr out → out = dfs ++ files.
Proof.
  revert seen dfs. induction files as [|df files IH]; intros seen dfs; simpl.
  { intros [= <-]. by rewrite app_nil_r. }
  destruct (columns_differ _ _); [done|]. intros ->%IH. by rewrite <-app_assoc.
Qed.

Lemma read_snapshots_loop_differ (seen : gset string)
    (dfs : list Referrer.DataFrame) (files : list (string * Referrer.csv)) :
  seen ≠ ∅ →
  Exists (λ pf, list_to_set (Referrer.rename_columns (Referrer.header pf.2)) ≠ seen)
    files →
  ∃ e, Referrer.read_snapshots_loop seen dfs files = inl e ∧
       (e = SchemaMismatch ∨ e = TimestampParse) ∧
       (Forall (λ pf, is_Some (Strptime.snapshot_time_of pf.1)) files →
        e = SchemaMismatch).
Proof.
  intros Hne Hex. revert dfs.
  induction files as [|[p f] files IH]; intros dfs; [by inversion Hex|]. simpl.
  destruct (Strptime.snapshot_time_of p) as [t|] eqn:Ht.
  - rewrite columns_differ_seen by done.
    destruct (decide (list_to_set (Referrer.rename_columns (Referrer.header f)) = seen))
      as [Heq|Hd].
    + rewrite bool_decide_eq_false_2 by (by intros []).
      rewrite Heq, union_idemp_L.
      apply Exists_cons in Hex as [?|Hex]; [done|].
      destruct (IH Hex
                  (dfs ++ [Referrer.mkDataFrame
                             (Referrer.rename_columns (Referrer.header f)) t
                             (Referrer.body f)])) as (e & -> & He & Hall).
      exists e. split_and!; [done..|]. intros [_ ?]%Forall_cons. auto.
    + rewrite bool_decide_eq_true_2 by done. exists SchemaMismatch. by split_and!; [|left|].
  - exists TimestampParse. split_and!; [done|by right|].
    intros [[? Hs] _]%Forall_cons. simpl in Hs. congruence.
Qed.

(** What a successful load returns: one frame per file, in order, with the
    time parsed from the name of the file and the rows of the file. *)
Lemma read_snapshots_loop_inr (seen : gset string)
    (dfs out : list Referrer.DataFrame) (files : list (string * Referrer.csv)) :
  Referrer.read_snapshots_loop seen dfs files = inr out →
  ∃ new, out = dfs ++ new ∧
    Forall2 (λ pf df,
      Strptime.snapshot_time_of pf.1 = Some (Referrer.snapshot_time df) ∧
      Referrer.columns df = Referrer.rename_columns (Referrer.header pf.2) ∧
      Referrer.rows df = Referrer.body pf.2) files new.
Proof.
  revert seen dfs. induction files as [|[p f] files IH]; intros seen dfs; simpl.
  { intros [= <-]. exists []. by rewrite app_nil_r. }
  destruct (Strptime.snapshot_time_of p) as [t|] eqn:Ht; [|done].
  destruct (columns_differ _ _); [done|].
  intros (new & -> & Hall)%IH. eexists (_ :: new). rewrite <-app_assoc.
  split; [done|]. by constructor.
Qed.

Lemma read_snapshots_loop_bad_name (seen : gset string)
    (dfs : list Referrer.DataFrame) (files : list (string * Referrer.csv)) :
  Exists (λ pf, Strptime.snapshot_time_of pf.1 = None) files →
  ∃ e, Referrer.read_snapshots_loop seen dfs files = inl e.
Proof.
  intros Hex. revert seen dfs.
  induction files as [|[p f] files IH]; intros seen dfs; [by inversion Hex|]. simpl.
  destruct (Strptime.snapshot_time_of p) as [t|] eqn:Ht; [|by eexists].
  destruct (columns_differ _ _); [by eexists|]. apply IH.
  apply Exists_cons in Hex as [Hp|?]; [|done]. simpl in Hp. congruence.
Qed.

(** Loading a list of files that continues a list which loads. *)
Lemma read_snapshots_loop_app (seen : gset string)
    (dfs out : list Referrer.DataFrame) (pre post : list (string * Referrer.csv)) :
  Referrer.read_snapshots_loop seen dfs pre = inr out →
  ∃ seen', Referrer.read_snapshots_loop seen dfs (pre ++ post) =
           Referrer.read_snapshots_loop seen' out post.
Proof.
  revert seen dfs. induction pre as [|[p f] pre IH]; intros seen dfs; simpl.
  { intros [= <-]. by exists seen. }
  destruct (Strptime.snapshot_time_of p) as [t|]; [|done].
  destruct (columns_differ _ _); [done|]. apply IH.
Qed.

End loader_lemmas.

Section loader_theorems.
Import Strptime Referrer.

Lemma analyse_scalar_inl (files : list Scalar.DataFrame) (e : fatal) :
  Scalar.read_fragments files = inl e →
  Scalar.analyse_view_clones_ts_fragments files = inl e.
Proof. unfold Scalar.analyse_view_clones_ts_fragments. by intros ->. Qed.

Lemma analyse_referrer_inl set_iter (files : list (string * csv)) (e : fatal) :
  read_snapshots files = inl e →
  analyse_referrer_snapshots set_iter files = inl e.
Proof. unfold analyse_referrer_snapshots. by intros ->. Qed.

(** C6, as stated, fails.  Two snapshot files whose headers differ (one
    names the column [referrers], the other [referrer]) load and are
    analysed; so are two fragment files of which the first has no counter
    column and the second has four. *)
Lemma C6_counterexample :
  (list_to_set (header snap1.2) ≠@{gset string} list_to_set (header snap2.2) ∧
   ∃ out, analyse_referrer_snapshots elements [snap1; snap2] = inr out) ∧
  (list_to_set (Scalar.columns Scalar.fragment_no_counters) ≠@{gset string}
     list_to_set (Scalar.columns Scalar.fragment_four) ∧
   ∃ out, Scalar.analyse_view_clones_ts_fragments
            [Scalar.fragment_no_counters; Scalar.fragment_four] = inr out).
Proof.
  split; split.
  - apply (list_to_set_differ "referrers"); compute_done.
  - eexists. vm_compute. reflexivity.
  - intros H. symmetry in H. revert H.
    apply (list_to_set_differ "clones_total"); compute_done.
  - eexists. vm_compute. reflexivity.
Qed.

(** C6, amended.  When the first file of a kind has at least one column and
    some file of that kind has a column set that differs from it (for
    snapshots, after [referrers] is renamed to [referrer]), the analysis of
    that kind ends in a fatal outcome and returns no frame: for fragments it
    is the exit taken at the column check; for snapshots it is that exit or
    the failure to parse a file name, and it is that exit whenever every
    file name parses. *)
Theorem C6_schema_mismatch_aborts
    (sfiles : list Scalar.DataFrame) (sdf0 sdf : Scalar.DataFrame)
    (rfiles : list (string * csv)) (pf0 pf : string * csv)
    (set_iter : gset string → list string)
    (Hs0 : sfiles !! 0%nat = Some sdf0)
    (Hs0c : Scalar.columns sdf0 ≠ [])
    (Hs : sdf ∈ sfiles)
    (Hsd : list_to_set (Scalar.columns sdf) ≠@{gset string}
           list_to_set (Scalar.columns sdf0))
    (Hr0 : rfiles !! 0%nat = Some pf0)
    (Hr0c : header pf0.2 ≠ [])
    (Hr : pf ∈ rfiles)
    (Hrd : list_to_set (rename_columns (header pf.2)) ≠@{gset string}
           list_to_set (rename_columns (header pf0.2))) :
  Scalar.analyse_view_clones_ts_fragments sfiles = inl SchemaMismatch ∧
  ∃ e, analyse_referrer_snapshots set_iter rfiles = inl e ∧
       (e = SchemaMismatch ∨ e = TimestampParse) ∧
       (Forall (λ pf, is_Some (snapshot_time_of pf.1)) rfiles → e = SchemaMismatch).
Proof.
  split.
  - apply analyse_scalar_inl. destruct sfiles as [|df0 sfiles]; [done|].
    injection Hs0 as ->. unfold Scalar.read_fragments. simpl.
    rewrite columns_differ_empty, union_empty_l_L.
    apply read_fragments_loop_differ; [by apply list_to_set_nonempty|].
    apply elem_of_cons in Hs as [->|Hs]; [done|].
    apply Exists_exists. by exists sdf.
  - destruct rfiles as [|[p0 f0] rfiles]; [done|]. injection Hr0 as <-.
    simpl in *. unfold analyse_referrer_snapshots, read_snapshots. simpl.
    destruct (snapshot_time_of p0) as [t0|] eqn:Ht0.
    + rewrite columns_differ_empty, union_empty_l_L.
      apply elem_of_cons in Hr as [->|Hr]; [done|].
      edestruct (read_snapshots_loop_differ
                   (list_to_set (rename_columns (header f0)))) as (e & -> & He & Hall).
      * apply list_to_set_nonempty. unfold rename_columns.
        by destruct (header f0).
      * apply Exists_exists. by exists pf.
      * exists e. split_and!; [done..|]. intros [_ ?]%Forall_cons. auto.
    + exists TimestampParse. split_and!; [done|by right|].
      intros [[? Hx] _]%Forall_cons. simpl in Hx. congruence.
Qed.

Lemma C6_schema_mismatch_aborts_witness :
  Scalar.analyse_view_clones_ts_fragments
    [Scalar.fragment_four; Scalar.fragment1] = inl SchemaMismatch ∧
  ∃ e, analyse_referrer_snapshots elements [snap1; snap2; snap_wide] = inl e ∧
       (e = SchemaMismatch ∨ e = TimestampParse) ∧
       (Forall (λ pf, is_Some (snapshot_time_of pf.1)) [snap1; snap2; snap_wide] →
        e = SchemaMismatch).
Proof.
  apply (C6_schema_mismatch_aborts
           [Scalar.fragment_four; Scalar.fragment1] Scalar.fragment_four
           Scalar.fragment1 [snap1; snap2; snap_wide] snap1 snap_wide elements).
  - reflexivity.
  - discriminate.
  - apply list_elem_of_further, list_elem_of_here.
  - intros H. symmetry in H. revert H.
    apply (list_to_set_differ "views_total"); compute_done.
  - reflexivity.
  - discriminate.
  - do 2 apply list_elem_of_further. apply list_elem_of_here.
  - apply (list_to_set_differ "count"); compute_done.
Defined.

(** C8, as stated, fails.  The base name of [snap_short] does not begin with
    a token of the shape YYYY-MM-DD_HHMMSS (its month and day have one digit
    each), yet the file loads, with the snapshot time 2020-01-05 12:34:56. *)
Lemma C8_counterexample :
  begins_with_token (basename snap_short.1) = false ∧
  read_snapshots [snap_short] =
    inr [mkDataFrame ["referrer"; "count_unique"]
           (mkDatetime 2020 1 5 12 34 56) [mkRow "A" 7]].
Proof. split; reflexivity. Qed.

(** C8, amended.  A file name is accepted when [strptime] accepts the part
    of its base name before the suffix.  If some file name is not accepted,
    loading ends in a fatal outcome; it is the parse error when the files
    before that one load.  When loading succeeds, every file has become one
    frame whose snapshot time is the time parsed from its name, and every
    row of that frame, once the [time] column is set, carries that time.
    Every name made of the token YYYY-MM-DD_HHMMSS of a valid date and time
    and the suffix, in any directory, is accepted with exactly that time,
    and every time that is parsed is a valid one. *)
Theorem C8_snapshot_time_from_file_name
    (set_iter : gset string → list string) (files : list (string * csv)) :
  (∀ pf, pf ∈ files → snapshot_time_of pf.1 = None →
     ∃ e, read_snapshots files = inl e ∧
          analyse_referrer_snapshots set_iter files = inl e) ∧
  (∀ pre pf post dfs,
     files = pre ++ pf :: post → read_snapshots pre = inr dfs →
     snapshot_time_of pf.1 = None →
     read_snapshots files = inl TimestampParse ∧
     analyse_referrer_snapshots set_iter files = inl TimestampParse) ∧
  (∀ dfs, read_snapshots files = inr dfs →
     Forall2 (λ pf df,
       snapshot_time_of pf.1 = Some (snapshot_time df) ∧
       rows df = body pf.2 ∧
       ∀ r, r ∈ tagged_rows (set_time df) →
            Some r.1 = snapshot_time_of pf.1 ∧ r.2 ∈ body pf.2) files dfs) ∧
  (∀ dir dt, valid dt = true →
     begins_with_token (token dt +:+ suffix) = true ∧
     snapshot_time_of (dir +:+ String "/" (token dt +:+ suffix)) = Some dt) ∧
  (∀ p dt, snapshot_time_of p = Some dt → valid dt = true).
Proof.
  split_and!; [| | |intros dir dt Hv; split;
                      [by apply begins_with_token_token
                      |by apply snapshot_time_of_token]
               |intros p dt; apply strptime_valid].
  - intros pf Hin Hnone.
    destruct (read_snapshots_loop_bad_name ∅ [] files) as [e He].
    { apply Exists_exists. by exists pf. }
    exists e. split; [done|]. by apply analyse_referrer_inl.
  - intros pre [p f] post dfs -> Hpre Hnone. simpl in Hnone.
    assert (read_snapshots (pre ++ (p, f) :: post) = inl TimestampParse) as H.
    { unfold read_snapshots in *.
      destruct (read_snapshots_loop_app _ _ _ _ ((p, f) :: post) Hpre) as [seen ->].
      simpl. by rewrite Hnone. }
    split; [done|]. by apply analyse_referrer_inl.
  - intros dfs (new & -> & Hall)%read_snapshots_loop_inr. simpl.
    eapply Forall2_impl; [done|]. intros pf df (Ht & _ & Hrows).
    split_and!; [done..|]. intros r (r0 & -> & Hr0)%list_elem_of_fmap. simpl.
    by rewrite Ht, <-Hrows.
Qed.

Lemma C8_snapshot_time_from_file_name_witness :
  (snap_bad ∈ [snap1; snap_bad; snap2] ∧ snapshot_time_of snap_bad.1 = None ∧
   read_snapshots [snap1; snap_bad; snap2] = inl TimestampParse ∧
   analyse_referrer_snapshots elements [snap1; snap_bad; snap2] =
     inl TimestampParse) ∧
  (read_snapshots [snap1; snap2] =
     inr [mkDataFrame ["referrer"; "count_unique"]
            (mkDatetime 2020 12 1 12 0 0) (body snap1.2);
          mkDataFrame ["referrer"; "count_unique"]
            (mkDatetime 2020 12 2 12 0 0) (body snap2.2)] ∧
   Forall2 (λ pf df,
       snapshot_time_of pf.1 = Some (snapshot_time df) ∧
       rows df = body pf.2 ∧
       ∀ r, r ∈ tagged_rows (set_time df) →
            Some r.1 = snapshot_time_of pf.1 ∧ r.2 ∈ body pf.2)
     [snap1; snap2]
     [mkDataFrame ["referrer"; "count_unique"]
        (mkDatetime 2020 12 1 12 0 0) (body snap1.2);
      mkDataFrame ["referrer"; "count_unique"]
        (mkDatetime 2020 12 2 12 0 0) (body snap2.2)]).
Proof.
  split.
  - split; [apply list_elem_of_further, list_elem_of_here|]. split; [reflexivity|].
    apply (proj1 (proj2 (C8_snapshot_time_from_file_name elements
                           [snap1; snap_bad; snap2]))
             [snap1] snap_bad [snap2] _ eq_refl eq_refl eq_refl).
  - split; [reflexivity|].
    apply (proj1 (proj2 (proj2 (C8_snapshot_time_from_file_name elements
                                  [snap1; snap2])))).
    reflexivity.
Defined.

End loader_theorems.

(** ** The ranking of the referrers *)

Section ranking_lemmas.
Import Strptime Referrer.

Lemma foldl_max_spec (v : Z) (vs : list Z) : is_maximum (foldl Z.max v vs) (v :: vs).
Proof.
  revert v. induction vs as [|a vs IH]; intros v; simpl.
  { split; [by left|]. intros w ->%list_elem_of_singleton. lia. }
  destruct (IH (Z.max v a)) as [Hin Hle]. split.
  - apply elem_of_cons in Hin as [->|Hin]; [|by do 2 right].
    destruct (Z.max_spec v a) as [[_ ->]|[_ ->]]; [right|]; by left.
  - assert (Z.max v a ≤ foldl Z.max (Z.max v a) vs) by (apply Hle; by left).
    intros w [->|[->|Hw]%elem_of_cons]%elem_of_cons; [lia..|].
    apply Hle. by right.
Qed.

Lemma series_max_Some (vs : list Z) (v : Z) :
  series_max vs = Some v ↔ is_maximum v vs.
Proof.
  destruct vs as [|x vs]; simpl.
  { split; [done|]. by intros [?%elem_of_nil _]. }
  pose proof (foldl_max_spec x vs) as Hm. split.
  - by intros [= <-].
  - intros Hv. f_equal. by eapply is_maximum_unique.
Qed.

Lemma series_max_None (vs : list Z) : series_max vs = None ↔ vs = [].
Proof. by destruct vs. Qed.

Lemma is_maximum_Permutation (v : Z) (l1 l2 : list Z) :
  l1 ≡ₚ l2 → is_maximum v l1 ↔ is_maximum v l2.
Proof. intros Hp. unfold is_maximum. by setoid_rewrite Hp. Qed.

Lemma insert_trow_Permutation (r : trow) (rs : list trow) :
  insert_trow r rs ≡ₚ r :: rs.
Proof.
  induction rs as [|r' rs IH]; simpl; [done|].
  case_decide; [done|]. rewrite IH. apply perm_swap.
Qed.

Lemma sort_index_Permutation (rs : list trow) : sort_index rs ≡ₚ rs.
Proof.
  induction rs as [|r rs IH]; simpl; [done|].
  by rewrite insert_trow_Permutation, IH.
Qed.

Lemma rdf_of_Permutation (dfa : list trow) (name : string) :
  rdf_of dfa name ≡ₚ filter (λ r, referrer r.2 = name) dfa.
Proof. apply sort_index_Permutation. Qed.

Lemma rdf_values_Permutation (dfa : list trow) (name : string) :
  (count_unique_series (rdf_of dfa name)).*2 ≡ₚ observations dfa name.
Proof.
  unfold count_unique_series, observations. rewrite <-list_fmap_compose.
  by rewrite rdf_of_Permutation.
Qed.

Lemma max_cu_Some (dfa : list trow) (name : string) (v : Z) :
  max_cu dfa name = Some v ↔ is_maximum v (observations dfa name).
Proof.
  unfold max_cu. rewrite series_max_Some.
  apply is_maximum_Permutation, rdf_values_Permutation.
Qed.

Lemma elem_of_names_of (dfa : list trow) (name : string) :
  name ∈ names_of dfa ↔ ∃ r, r ∈ dfa ∧ referrer r.2 = name.
Proof.
  unfold names_of. rewrite elem_of_list_to_set, list_elem_of_fmap. split.
  - intros (r & -> & Hr). by exists r.
  - intros (r & Hr & <-). by exists r.
Qed.

Lemma max_cu_is_Some (dfa : list trow) (name : string) :
  name ∈ names_of dfa → is_Some (max_cu dfa name).
Proof.
  intros (r & Hr & Hn)%elem_of_names_of.
  destruct (max_cu dfa name) as [v|] eqn:Hm; [by eexists|].
  unfold max_cu in Hm. apply series_max_None in Hm.
  assert (Hin : count_unique r.2 ∈ observations dfa name).
  { unfold observations. apply list_elem_of_fmap. exists r. split; [done|].
    by apply list_elem_of_filter. }
  rewrite <-rdf_values_Permutation, Hm in Hin. by apply elem_of_nil in Hin.
Qed.

(** *** The stable descending sort *)

Lemma insert_item_Permutation x l : insert_item x l ≡ₚ x :: l.
Proof.
  induction l as [|y l IH]; simpl; [done|].
  destruct (py_lt _ _); [|done]. rewrite IH. apply perm_swap.
Qed.

Lemma sorted_reverse_Permutation l : sorted_reverse l ≡ₚ l.
Proof.
  induction l as [|x l IH]; simpl; [done|].
  by rewrite insert_item_Permutation, IH.
Qed.

Lemma py_lt_asym (a b : option Z) : py_lt a b = true → py_lt b a = false.
Proof.
  destruct a, b; simpl; try done.
  intros ?%bool_decide_eq_true. apply bool_decide_eq_false. lia.
Qed.

Lemma not_lt_trans x y z :
  is_Some y.2 → not_lt x y → not_lt y z → not_lt x z.
Proof.
  unfold not_lt. intros [b Hb]. rewrite Hb.
  destruct x.2, z.2; simpl; try done.
  intros ?%bool_decide_eq_false ?%bool_decide_eq_false.
  apply bool_decide_eq_false. lia.
Qed.

Lemma insert_item_sorted x l :
  Forall (λ y, is_Some y.2) l →
  StronglySorted not_lt l → StronglySorted not_lt (insert_item x l).
Proof.
  intros Hsome Hs. induction Hs as [|y l Hs IH Hall]; simpl.
  { by repeat constructor. }
  apply Forall_cons in Hsome as [Hy Hsome].
  destruct (py_lt x.2 y.2) eqn:Hlt.
  - constructor; [by apply IH|].
    rewrite insert_item_Permutation. constructor; [|done].
    by apply py_lt_asym.
  - constructor; [by constructor|]. constructor; [done|].
    eapply Forall_impl; [done|]. intros z Hz. by eapply not_lt_trans.
Qed.

Lemma sorted_reverse_sorted l :
  Forall (λ y, is_Some y.2) l → StronglySorted not_lt (sorted_reverse l).
Proof.
  induction 1 as [|x l Hx Hl IH]; simpl; [constructor|].
  apply insert_item_sorted; [|done]. by rewrite sorted_reverse_Permutation.
Qed.

Lemma insert_item_sublist x l : l `sublist_of` insert_item x l.
Proof.
  induction l as [|y l IH]; simpl; [apply sublist_nil_l|].
  destruct (py_lt _ _); [by constructor|]. by apply sublist_cons.
Qed.

Lemma precedes_cons_elem {A} (a b : A) (l : list A) :
  b ∈ l → precedes a b (a :: l).
Proof.
  intros (l1 & l2 & ->)%list_elem_of_split. unfold precedes.
  apply sublist_skip, sublist_inserts_l, sublist_skip, sublist_nil_l.
Qed.

Lemma insert_item_front x b l :
  b ∈ l → py_lt x.2 b.2 = false → precedes x b (insert_item x l).
Proof.
  intros Hb Hlt. induction l as [|y l IH]; [by apply elem_of_nil in Hb|]. simpl.
  destruct (py_lt x.2 y.2) eqn:Hxy.
  - apply elem_of_cons in Hb as [->|Hb]; [congruence|].
    apply sublist_cons. by apply IH.
  - by apply precedes_cons_elem.
Qed.

(** Items that are not out of order keep their order. *)
Lemma sorted_reverse_stable a b l :
  precedes a b l → py_lt a.2 b.2 = false → precedes a b (sorted_reverse l).
Proof.
  unfold precedes at 1. intros Hab Hlt.
  induction l as [|x l IH]; [by inv Hab|]. simpl.
  apply sublist_cons_r in Hab as [Hab|(l' & [= <- <-] & Hb)].
  - unfold precedes. etrans; [by apply IH|]. apply insert_item_sublist.
  - apply insert_item_front; [|done]. rewrite sorted_reverse_Permutation.
    apply sublist_cons_l in Hb as (k1 & k2 & -> & _).
    apply elem_of_app. right. by left.
Qed.

Lemma StronglySorted_precedes {A} (R : relation A) (a b : A) (l : list A) :
  StronglySorted R l → precedes a b l → R a b.
Proof.
  unfold precedes. induction 1 as [|x l Hs IH Hall]; intros Hab; [by inv Hab|].
  apply sublist_cons_r in Hab as [Hab|(l' & [= <- <-] & Hb)]; [by apply IH|].
  rewrite Forall_forall in Hall. apply Hall.
  apply sublist_cons_l in Hb as (k1 & k2 & -> & _).
  apply elem_of_app. right. by left.
Qed.

Lemma precedes_total {A} (a b : A) (l : list A) :
  a ∈ l → b ∈ l → a ≠ b → precedes a b l ∨ precedes b a l.
Proof.
  intros Ha Hb Hne. induction l as [|x l IH]; [by apply elem_of_nil in Ha|].
  apply elem_of_cons in Ha as [->|Ha]; apply elem_of_cons in Hb as [->|Hb].
  - done.
  - left. by apply precedes_cons_elem.
  - right. by apply precedes_cons_elem.
  - destruct (IH Ha Hb); [left|right]; by apply sublist_cons.
Qed.

Lemma lookup_lt_precedes {A} (l : list A) (i j : nat) (x y : A) :
  (i < j)%nat → l !! i = Some x → l !! j = Some y → precedes x y l.
Proof.
  revert i j. induction l as [|z l IH]; intros i j Hij Hi Hj; [done|].
  destruct i as [|i], j as [|j]; try lia; simpl in *.
  - injection Hi as ->. by eapply precedes_cons_elem, list_elem_of_lookup_2.
  - apply sublist_cons. apply (IH i j); [lia|done..].
Qed.

(** An item of greater value stands before one of smaller value. *)
Lemma sorted_reverse_strict a b l :
  Forall (λ y, is_Some y.2) l → a ∈ l → b ∈ l → py_lt b.2 a.2 = true →
  precedes a b (sorted_reverse l).
Proof.
  intros Hsome Ha Hb Hlt.
  assert (a ≠ b) as Hne.
  { intros ->. apply py_lt_asym in Hlt as Hx. congruence. }
  destruct (precedes_total a b (sorted_reverse l)) as [?|Hba]; [..|done|].
  - by rewrite sorted_reverse_Permutation.
  - by rewrite sorted_reverse_Permutation.
  - done.
  - apply (StronglySorted_precedes not_lt) in Hba;
      [|by apply sorted_reverse_sorted].
    unfold not_lt in Hba. congruence.
Qed.

(** With pairwise distinct values the order of the items does not matter. *)
Lemma sorted_reverse_unique l1 l2 :
  l1 ≡ₚ l2 → Forall (λ y, is_Some y.2) l1 → NoDup l1.*2 →
  sorted_reverse l1 = sorted_reverse l2.
Proof.
  intros Hp Hsome Hnd.
  apply (StronglySorted_unique_strong not_lt).
  - intros x y Hx Hy Hxy Hyx. rewrite sorted_reverse_Permutation in Hx, Hy.
    rewrite <-Hp in Hy.
    rewrite Forall_forall in Hsome.
    destruct (Hsome x Hx) as [vx Hvx], (Hsome y Hy) as [vy Hvy].
    unfold not_lt in *. rewrite Hvx, Hvy in *. simpl in *.
    apply bool_decide_eq_false in Hxy, Hyx. assert (vx = vy) as -> by lia.
    apply list_elem_of_lookup in Hx as [i Hi], Hy as [j Hj].
    assert (i = j) as ->.
    { eapply NoDup_lookup; [done|..]; rewrite list_lookup_fmap.
      - by rewrite Hi; simpl; rewrite Hvx.
      - by rewrite Hj; simpl; rewrite Hvy. }
    congruence.
  - by apply sorted_reverse_sorted.
  - apply sorted_reverse_sorted. by rewrite <-Hp.
  - by rewrite !sorted_reverse_Permutation.
Qed.

End ranking_lemmas.

(** ** The aggregator, stage by stage *)

Section aggregator_lemmas.
Import Strptime Referrer.
Context (set_iter : gset string → list string).

Lemma tagged_rows_set_time (df : DataFrame) :
  tagged_rows (set_time df) = tagged_rows df.
Proof. done. Qed.

Lemma referrers_names_of (dfs : list DataFrame) :
  referrers dfs = names_of (dfa_of dfs).
Proof.
  unfold referrers, names_of, dfa_of. f_equal.
  induction dfs as [|df dfs IH]; [done|]. csimpl.
  rewrite !fmap_app, IH. f_equal.
  unfold tagged_rows. simpl. by rewrite <-list_fmap_compose.
Qed.

(** The outcome of the aggregator on a non-empty list of frames. *)
Lemma aggregator_snd (dfs : list DataFrame) :
  dfs ≠ [] →
  (aggregator set_iter dfs).2 =
    (tbl ←! df_top_cu (referrer_dfs set_iter (dfa_of dfs) (referrers dfs))
              (top_referrers set_iter dfs);
     ret (top_referrers set_iter dfs, tbl)).
Proof.
  intros Hne. unfold aggregator, mbind, reads, modifies, mret. simpl.
  destruct dfs as [|df dfs]; [done|]. simpl.
  unfold top_referrers, dfa_of. simpl.
  by destruct (df_top_cu _ _).
Qed.

Lemma aggregator_nil : (aggregator set_iter []).2 = inl NoObjectsToConcatenate.
Proof. done. Qed.

(** The frame objects as the aggregator leaves them. *)
Lemma aggregator_fst (dfs : list DataFrame) :
  (aggregator set_iter dfs).1 = set_time <$> dfs.
Proof.
  unfold aggregator, mbind, reads, modifies, mret. simpl.
  destruct dfs as [|df dfs]; [done|]. simpl. by destruct (df_top_cu _ _).
Qed.

Lemma ref_max_cu_map_items (dfa : list trow) (names : gset string) :
  ref_max_cu_map (referrer_dfs set_iter dfa names) =
  (λ n, (n, max_cu dfa n)) <$> set_iter names.
Proof.
  unfold ref_max_cu_map, referrer_dfs. by rewrite <-list_fmap_compose.
Qed.

Lemma dict_get_referrer_dfs (dfa : list trow) (names : gset string) (n : string) :
  n ∈ set_iter names →
  dict_get (referrer_dfs set_iter dfa names) n = inr (rdf_of dfa n).
Proof.
  intros Hn. unfold dict_get, referrer_dfs.
  induction (set_iter names) as [|k ks IH]; [by apply elem_of_nil in Hn|].
  rewrite fmap_cons. simpl. case_decide as Hk; simpl in Hk; [by subst|].
  apply elem_of_cons in Hn as [->|Hn]; [done|].
  specialize (IH Hn). rewrite list_find_fmap in IH |- *. simpl in *.
  destruct (list_find _ ks) as [[i k']|]; simpl in *; [|done]. done.
Qed.

Lemma df_top_cu_build_table (dfa : list trow) (names : gset string)
    (rnames : list string) :
  rnames ⊆ set_iter names →
  df_top_cu (referrer_dfs set_iter dfa names) rnames = build_table dfa rnames.
Proof.
  unfold df_top_cu, build_table. generalize (ret empty_table).
  induction rnames as [|n rnames IH]; intros acc Hsub; [done|]. simpl.
  rewrite dict_get_referrer_dfs by (apply Hsub; by left).
  apply IH. intros x Hx. apply Hsub. by right.
Qed.

End aggregator_lemmas.

(** ** The ranked referrers *)

Section ranked_lemmas.
Import Strptime Referrer.
Context (set_iter : gset string → list string) (Hiter : lists_elements set_iter).
Context (dfa : list trow).

Local Abbreviation names := (names_of dfa).
Local Abbreviation keys := (set_iter (names_of dfa)).
Local Abbreviation items := ((λ n, (n, max_cu dfa n)) <$> set_iter (names_of dfa)).
Local Abbreviation ranked := (sorted_dict (referrer_dfs set_iter dfa (names_of dfa))).

Lemma keys_NoDup : NoDup keys.
Proof. rewrite (Hiter names). apply NoDup_elements. Qed.

Lemma elem_of_keys (n : string) : n ∈ keys ↔ n ∈ names.
Proof. rewrite (Hiter names). apply elem_of_elements. Qed.

Lemma length_keys : length keys = size names.
Proof. by rewrite (Hiter names). Qed.

Lemma ranked_eq : ranked = sorted_reverse items.
Proof. unfold sorted_dict. by rewrite ref_max_cu_map_items. Qed.

Lemma items_fst : items.*1 = keys.
Proof.
  rewrite <-list_fmap_compose. rewrite <-(list_fmap_id keys) at 2.
  by apply list_fmap_ext.
Qed.

Lemma items_Some : Forall (λ y : string * option Z, is_Some y.2) items.
Proof.
  apply Forall_fmap, Forall_forall. intros n Hn. simpl.
  by apply max_cu_is_Some, elem_of_keys.
Qed.

Lemma ranked_Permutation : ranked ≡ₚ items.
Proof. rewrite ranked_eq. apply sorted_reverse_Permutation. Qed.

Lemma ranked_fst_Permutation : ranked.*1 ≡ₚ keys.
Proof. by rewrite ranked_Permutation, items_fst. Qed.

Lemma ranked_sorted : StronglySorted not_lt ranked.
Proof. rewrite ranked_eq. apply sorted_reverse_sorted, items_Some. Qed.

Lemma elem_of_ranked (x : string * option Z) :
  x ∈ ranked ↔ x.1 ∈ names ∧ x.2 = max_cu dfa x.1.
Proof.
  rewrite ranked_Permutation, list_elem_of_fmap. split.
  - intros (n & -> & Hn). split; [by apply elem_of_keys|done].
  - intros [Hn Hx]. exists x.1. split; [|by apply elem_of_keys].
    destruct x as [n k]. simpl in *. by subst.
Qed.

Lemma not_lt_maxima (x y : string * option Z) (vx vy : Z) :
  x ∈ ranked → y ∈ ranked → not_lt x y →
  is_maximum vx (observations dfa x.1) → is_maximum vy (observations dfa y.1) →
  vy ≤ vx.
Proof.
  intros [_ Hx]%elem_of_ranked [_ Hy]%elem_of_ranked Hxy
    Hvx%max_cu_Some Hvy%max_cu_Some.
  unfold not_lt in Hxy. rewrite Hx, Hy, Hvx, Hvy in Hxy. simpl in Hxy.
  apply bool_decide_eq_false in Hxy. lia.
Qed.

Lemma top_n_rnames_take :
  top_n_rnames (referrer_dfs set_iter dfa names) = (take top_n ranked).*1.
Proof. unfold top_n_rnames. by rewrite fmap_take. Qed.

Lemma top_n_rnames_subseteq :
  top_n_rnames (referrer_dfs set_iter dfa names) ⊆ keys.
Proof.
  intros n Hn. rewrite <-ranked_fst_Permutation.
  unfold top_n_rnames in Hn. by eapply subseteq_take.
Qed.

Lemma top_n_rnames_length :
  length (top_n_rnames (referrer_dfs set_iter dfa names)) =
  (top_n `min` size names)%nat.
Proof.
  unfold top_n_rnames. rewrite length_take. f_equal.
  by rewrite ranked_fst_Permutation, length_keys.
Qed.

Lemma top_n_rnames_NoDup : NoDup (top_n_rnames (referrer_dfs set_iter dfa names)).
Proof.
  unfold top_n_rnames. apply (sublist_NoDup _ ranked.*1); [|apply sublist_take].
  rewrite ranked_fst_Permutation. apply keys_NoDup.
Qed.

(** A selected referrer is not below one that is left out. *)
Lemma top_outranks_rest (a b : string) (va vb : Z) :
  a ∈ top_n_rnames (referrer_dfs set_iter dfa names) →
  b ∈ names → b ∉ top_n_rnames (referrer_dfs set_iter dfa names) →
  is_maximum va (observations dfa a) → is_maximum vb (observations dfa b) →
  vb ≤ va.
Proof.
  rewrite top_n_rnames_take.
  intros (x & -> & Hx)%list_elem_of_fmap Hb Hnb Hva Hvb.
  assert (Hy : (b, max_cu dfa b) ∈ ranked) by (by apply elem_of_ranked).
  rewrite <-(take_drop top_n ranked) in Hy.
  apply elem_of_app in Hy as [Hy|Hy].
  { exfalso. apply Hnb, list_elem_of_fmap. by exists (b, max_cu dfa b). }
  pose proof ranked_sorted as Hs. rewrite <-(take_drop top_n ranked) in Hs.
  apply StronglySorted_app in Hs as (Hxy & _ & _).
  apply (not_lt_maxima x (b, max_cu dfa b)); [..|by apply Hxy|done|done].
  - by eapply subseteq_take.
  - by apply elem_of_ranked.
Qed.

(** The selected referrers stand in descending order of their maxima. *)
Lemma top_descending (i j : nat) (a b : string) (va vb : Z) :
  (i < j)%nat →
  top_n_rnames (referrer_dfs set_iter dfa names) !! i = Some a →
  top_n_rnames (referrer_dfs set_iter dfa names) !! j = Some b →
  is_maximum va (observations dfa a) → is_maximum vb (observations dfa b) →
  vb ≤ va.
Proof.
  rewrite top_n_rnames_take. intros Hij Hi Hj Hva Hvb.
  apply list_lookup_fmap_Some in Hi as (x & -> & [Hx _]%lookup_take_Some).
  apply list_lookup_fmap_Some in Hj as (y & -> & [Hy _]%lookup_take_Some).
  apply (not_lt_maxima x y); [by eapply list_elem_of_lookup_2..| |done|done].
  eapply StronglySorted_precedes; [apply ranked_sorted|].
  by eapply lookup_lt_precedes.
Qed.

End ranked_lemmas.

(** With pairwise distinct maxima the ranking is the same for every
    iteration order. *)
Lemma sorted_dict_iteration_independent
    (iter1 iter2 : gset string → list string) (dfa : list Referrer.trow) :
  Referrer.lists_elements iter1 → Referrer.lists_elements iter2 →
  NoDup (Referrer.max_cu dfa <$> elements (Referrer.names_of dfa)) →
  Referrer.sorted_dict (Referrer.referrer_dfs iter1 dfa (Referrer.names_of dfa)) =
  Referrer.sorted_dict (Referrer.referrer_dfs iter2 dfa (Referrer.names_of dfa)).
Proof.
  intros H1 H2 Hnd. rewrite !ranked_eq. apply sorted_reverse_unique.
  - by rewrite (H1 _), (H2 _).
  - by apply items_Some.
  - rewrite <-list_fmap_compose. by rewrite (H1 _).
Qed.

Lemma aggregator_iteration_independent
    (iter1 iter2 : gset string → list string) (dfs : list Referrer.DataFrame) :
  Referrer.lists_elements iter1 → Referrer.lists_elements iter2 →
  NoDup (Referrer.max_cu (Referrer.dfa_of dfs) <$>
         elements (Referrer.names_of (Referrer.dfa_of dfs))) →
  (Referrer.aggregator iter1 dfs).2 = (Referrer.aggregator iter2 dfs).2.
Proof.
  intros H1 H2 Hnd. destruct (decide (dfs = [])) as [->|Hne]; [done|].
  rewrite !aggregator_snd by done. unfold Referrer.top_referrers.
  rewrite !referrers_names_of.
  rewrite !df_top_cu_build_table by (by apply top_n_rnames_subseteq).
  unfold Referrer.top_n_rnames.
  by rewrite (sorted_dict_iteration_independent iter1 iter2).
Qed.

Section ranking_theorems.
Import Strptime Referrer.

Lemma read_snapshots_12 : read_snapshots [snap1; snap2] = inr loaded12.
Proof. reflexivity. Qed.

Lemma maxima_12 :
  max_cu (dfa_of loaded12) <$> ["A"; "B"; "C"; "D"; "E"; "F"] =
  Some <$> [50; 40; 30; 20; 10; 5].
Proof. reflexivity. Qed.

Lemma elements_Permutation_list (l : list string) :
  NoDup l → elements (list_to_set (C:=gset string) l) ≡ₚ l.
Proof. apply elements_list_to_set. Qed.

Lemma analyse_12 (set_iter : gset string → list string) :
  lists_elements set_iter →
  analyse_referrer_snapshots set_iter [snap1; snap2] =
  analyse_referrer_snapshots elements [snap1; snap2].
Proof.
  intros Hiter. unfold analyse_referrer_snapshots.
  rewrite read_snapshots_12. simpl.
  apply aggregator_iteration_independent; [done|by intros ?|].
  assert (Hel : elements (names_of (dfa_of loaded12)) ≡ₚ
                ["A"; "B"; "C"; "D"; "E"; "F"]).
  { apply NoDup_Permutation; [apply NoDup_elements|compute_done|].
    intros n. rewrite elem_of_elements. unfold names_of.
    rewrite elem_of_list_to_set. simpl.
    split; intros H; repeat (apply elem_of_cons in H as [->|H]);
      try (by apply elem_of_nil in H); compute_done. }
  rewrite Hel, maxima_12. compute_done.
Qed.

(** Whatever the snapshots and the iteration order: six referrers with the
    maxima 50, 40, 30, 20, 10 and 5 are cut to the first five. *)
Lemma top_referrers_six (set_iter : gset string → list string)
    (dfs : list DataFrame) :
  lists_elements set_iter →
  referrers dfs = list_to_set ["A"; "B"; "C"; "D"; "E"; "F"] →
  max_cu (dfa_of dfs) <$> ["A"; "B"; "C"; "D"; "E"; "F"] =
    Some <$> [50; 40; 30; 20; 10; 5] →
  top_referrers set_iter dfs = ["A"; "B"; "C"; "D"; "E"].
Proof.
  intros Hiter Hnames Hmax.
  unfold top_referrers, top_n_rnames, sorted_dict.
  rewrite ref_max_cu_map_items.
  pose (l1 := [("A", Some 50); ("B", Some 40); ("C", Some 30); ("D", Some 20);
               ("E", Some 10); ("F", Some 5)] : list (string * option Z)).
  assert (Hp : l1 ≡ₚ (λ n, (n, max_cu (dfa_of dfs) n)) <$> set_iter (referrers dfs)).
  { rewrite (Hiter _), Hnames, elements_list_to_set by compute_done.
    simpl in Hmax. injection Hmax as H1 H2 H3 H4 H5 H6. simpl.
    by rewrite H1, H2, H3, H4, H5, H6. }
  rewrite <-(sorted_reverse_unique l1 _ Hp); [reflexivity| |compute_done].
  repeat constructor; by eexists.
Qed.

(** C3. For every collection of loaded snapshots and every iteration order
    of the set of referrers, the selection holds [top_n] referrers (all of
    them when there are fewer), each once; the maximum count of unique
    views of a selected referrer is not below that of any referrer left
    out, and the selection is in descending order of these maxima; these
    are the names the aggregator returns.  Whenever the referrers are A to
    F with the maxima A=50, B=40, C=30, D=20, E=10, F=5, the selection is
    A, B, C, D, E; the snapshots [snap1] and [snap2] are such a case. *)
Theorem C3_top_n_by_max_count_unique
    (set_iter : gset string → list string) (Hiter : lists_elements set_iter)
    (dfs : list DataFrame) :
  let dfa := dfa_of dfs in
  let top := top_referrers set_iter dfs in
  length top = (top_n `min` size (referrers dfs))%nat ∧
  NoDup top ∧
  (∀ a, a ∈ top →
     a ∈ referrers dfs ∧ ∃ va, is_maximum va (observations dfa a)) ∧
  (∀ a b va vb, a ∈ top → b ∈ referrers dfs → b ∉ top →
     is_maximum va (observations dfa a) → is_maximum vb (observations dfa b) →
     vb ≤ va) ∧
  (∀ i j a b va vb, (i < j)%nat → top !! i = Some a → top !! j = Some b →
     is_maximum va (observations dfa a) → is_maximum vb (observations dfa b) →
     vb ≤ va) ∧
  (∀ rnames tbl, (aggregator set_iter dfs).2 = inr (rnames, tbl) → rnames = top) ∧
  (referrers dfs = list_to_set ["A"; "B"; "C"; "D"; "E"; "F"] →
   max_cu dfa <$> ["A"; "B"; "C"; "D"; "E"; "F"] =
     Some <$> [50; 40; 30; 20; 10; 5] →
   top = ["A"; "B"; "C"; "D"; "E"]) ∧
  (max_cu (dfa_of loaded12) <$> ["A"; "B"; "C"; "D"; "E"; "F"] =
     Some <$> [50; 40; 30; 20; 10; 5] ∧
   ∃ tbl, analyse_referrer_snapshots set_iter [snap1; snap2] =
          inr (["A"; "B"; "C"; "D"; "E"], tbl)).
Proof.
  intros dfa top. unfold top, top_referrers. rewrite !referrers_names_of.
  fold dfa. split_and!.
  - by apply top_n_rnames_length.
  - by apply top_n_rnames_NoDup.
  - intros a Ha. apply top_n_rnames_subseteq in Ha.
    apply (elem_of_keys _ Hiter) in Ha. split; [done|].
    destruct (max_cu_is_Some dfa a Ha) as [va Hva]. exists va.
    by apply max_cu_Some.
  - intros a b va vb. by apply top_outranks_rest.
  - intros i j a b va vb. by apply top_descending.
  - intros rnames tbl. destruct (decide (dfs = [])) as [->|Hne]; [done|].
    rewrite aggregator_snd by done. unfold top_referrers.
    rewrite referrers_names_of. fold dfa.
    destruct (df_top_cu _ _); [done|]. by intros [= <- _].
  - intros Hn Hm. subst dfa. rewrite <-referrers_names_of in Hn |- *.
    by apply (top_referrers_six set_iter dfs).
  - apply maxima_12.
  - rewrite analyse_12 by done. eexists. vm_compute. reflexivity.
Qed.

Lemma C3_top_n_by_max_count_unique_witness :
  lists_elements elements ∧
  length (top_referrers elements loaded12) =
    (top_n `min` size (referrers loaded12))%nat ∧
  NoDup (top_referrers elements loaded12) ∧
  ∃ tbl, analyse_referrer_snapshots elements [snap1; snap2] =
         inr (["A"; "B"; "C"; "D"; "E"], tbl).
Proof.
  assert (H : lists_elements elements) by (intros s; reflexivity).
  split; [exact H|].
  destruct (C3_top_n_by_max_count_unique elements H loaded12)
    as (H1 & H2 & _ & _ & _ & _ & _ & _ & H3).
  split; [exact H1|]. split; [exact H2|exact H3].
Defined.

Lemma reverse_lists_elements : lists_elements (λ s, reverse (elements s)).
Proof. intros s. apply reverse_Permutation. Qed.

(** C4, as stated, fails.  Six referrers share the maximum 10.  Both
    [elements] and its reverse list the elements of every set, each once;
    under the first the selection is c, e, a, f, b, under the second it is
    d, b, f, a, e: neither the order nor the members of the selection are
    fixed by the snapshots. *)
Lemma C4_counterexample :
  lists_elements elements ∧
  lists_elements (λ s, reverse (elements s)) ∧
  ∃ tbl1 tbl2,
    analyse_referrer_snapshots elements [snap_tie] =
      inr (["c"; "e"; "a"; "f"; "b"], tbl1) ∧
    analyse_referrer_snapshots (λ s, reverse (elements s)) [snap_tie] =
      inr (["d"; "b"; "f"; "a"; "e"], tbl2).
Proof.
  split; [by intros ?|]. split; [apply reverse_lists_elements|].
  do 2 eexists. split; vm_compute; reflexivity.
Qed.

(** C4, amended.  For a given iteration order of the set of referrers, the
    ranking lists every referrer once and the selection is its first
    [top_n] names; a referrer that the iteration visits before another and
    whose maximum is not smaller stays before it, so among equal maxima the
    one visited first wins; a referrer with a greater maximum stands before
    one with a smaller maximum whatever the iteration order; and when the
    maxima are pairwise distinct, every iteration order gives the same
    selection and the same outcome. *)
Theorem C4_ties_follow_iteration_order
    (set_iter : gset string → list string) (Hiter : lists_elements set_iter)
    (dfs : list DataFrame) :
  let dfa := dfa_of dfs in
  let visited := set_iter (referrers dfs) in
  let ranking := (sorted_dict (referrer_dfs set_iter dfa (referrers dfs))).*1 in
  ranking ≡ₚ visited ∧
  top_referrers set_iter dfs = take top_n ranking ∧
  (∀ a b va vb, precedes a b visited →
     is_maximum va (observations dfa a) → is_maximum vb (observations dfa b) →
     vb ≤ va → precedes a b ranking) ∧
  (∀ a b va vb, a ∈ referrers dfs → b ∈ referrers dfs →
     is_maximum va (observations dfa a) → is_maximum vb (observations dfa b) →
     vb < va → precedes a b ranking) ∧
  (∀ set_iter', lists_elements set_iter' →
     NoDup (max_cu dfa <$> elements (referrers dfs)) →
     top_referrers set_iter' dfs = top_referrers set_iter dfs ∧
     (aggregator set_iter' dfs).2 = (aggregator set_iter dfs).2).
Proof.
  intros dfa visited ranking. unfold ranking, visited, top_referrers.
  rewrite !referrers_names_of. fold dfa. split_and!.
  - apply ranked_fst_Permutation.
  - done.
  - intros a b va vb Hab Hva%max_cu_Some Hvb%max_cu_Some Hle.
    rewrite ranked_eq. unfold precedes.
    change [a; b] with ([(a, max_cu dfa a); (b, max_cu dfa b)].*1).
    apply fmap_sublist, sorted_reverse_stable.
    + unfold precedes.
      change [(a, max_cu dfa a); (b, max_cu dfa b)]
        with ((λ n, (n, max_cu dfa n)) <$> [a; b]).
      by apply fmap_sublist.
    + simpl. rewrite Hva, Hvb. simpl. apply bool_decide_eq_false. lia.
  - intros a b va vb Ha Hb Hva%max_cu_Some Hvb%max_cu_Some Hlt.
    rewrite ranked_eq. unfold precedes.
    change [a; b] with ([(a, max_cu dfa a); (b, max_cu dfa b)].*1).
    apply fmap_sublist, sorted_reverse_strict.
    + by apply items_Some.
    + apply list_elem_of_fmap. exists a. split; [done|]. by apply elem_of_keys.
    + apply list_elem_of_fmap. exists b. split; [done|]. by apply elem_of_keys.
    + simpl. rewrite Hva, Hvb. simpl. apply bool_decide_eq_true. lia.
  - intros set_iter' Hiter' Hnd. split.
    + unfold top_n_rnames.
      by rewrite (sorted_dict_iteration_independent set_iter' set_iter).
    + by apply aggregator_iteration_independent.
Qed.

Lemma C4_ties_follow_iteration_order_witness :
  lists_elements elements ∧
  (sorted_dict (referrer_dfs elements (dfa_of loaded12) (referrers loaded12))).*1
    ≡ₚ elements (referrers loaded12) ∧
  top_referrers elements loaded12 =
    take top_n
      (sorted_dict (referrer_dfs elements (dfa_of loaded12) (referrers loaded12))).*1.
Proof.
  assert (H : lists_elements elements) by (intros s; reflexivity).
  split; [exact H|].
  destruct (C4_ties_follow_iteration_order elements H loaded12) as (H1 & H2 & _).
  split; [exact H1|exact H2].
Defined.

End ranking_theorems.

(** ** The aligned table *)

Section table_lemmas.
Import Strptime Referrer.
Context (dfa : list trow).

Local Abbreviation series_of n := (count_unique_series (rdf_of dfa n)).

Lemma series_index (n : string) : (series_of n).*1 = (rdf_of dfa n).*1.
Proof. unfold count_unique_series. by rewrite <-list_fmap_compose. Qed.

Lemma series_index_Permutation (n : string) :
  (series_of n).*1 ≡ₚ observed_at dfa n.
Proof. rewrite series_index. unfold observed_at. by rewrite rdf_of_Permutation. Qed.

Lemma elem_of_series (n : string) (p : datetime * Z) :
  p ∈ series_of n →
  ∃ r, r ∈ dfa ∧ r.1 = p.1 ∧ referrer r.2 = n ∧ count_unique r.2 = p.2.
Proof.
  intros (r & -> & Hr)%list_elem_of_fmap.
  rewrite rdf_of_Permutation in Hr. apply list_elem_of_filter in Hr as [Hn Hr].
  by exists r.
Qed.

Lemma series_nonempty (n : string) : n ∈ names_of dfa → series_of n ≠ [].
Proof.
  intros (r & Hr & Hn)%elem_of_names_of Hnil.
  assert (Hin : r.1 ∈ observed_at dfa n).
  { apply list_elem_of_fmap. exists r. split; [done|]. by apply list_elem_of_filter. }
  rewrite <-series_index_Permutation, Hnil in Hin. by apply elem_of_nil in Hin.
Qed.

Lemma aligned_same (n : string) :
  aligned dfa (series_of n).*1 n (Some <$> (series_of n).*2).
Proof.
  split; [by rewrite !length_fmap|]. intros i t Hi.
  apply list_lookup_fmap_Some in Hi as (p & -> & Hp). split.
  - intros Hnot. exfalso. apply Hnot. rewrite <-series_index_Permutation.
    apply list_elem_of_fmap. exists p. split; [done|].
    by eapply list_elem_of_lookup_2.
  - intros v Hv. rewrite !list_lookup_fmap, Hp in Hv. simpl in Hv.
    injection Hv as <-. by eapply elem_of_series, list_elem_of_lookup_2.
Qed.

Lemma aligned_reindex (n : string) (idx : list datetime) :
  aligned dfa idx n (series_at (series_of n) <$> idx).
Proof.
  split; [by rewrite length_fmap|]. intros i t Hi.
  rewrite list_lookup_fmap, Hi. simpl. unfold series_at. split.
  - intros Hnot. f_equal.
    destruct (list_find _ _) as [[j p]|] eqn:Hf; [|done]. exfalso.
    apply list_find_Some in Hf as (Hj & Hp & _). apply Hnot.
    rewrite <-series_index_Permutation. apply list_elem_of_fmap.
    exists p. split; [done|]. by eapply list_elem_of_lookup_2.
  - intros v [= Hv].
    destruct (list_find _ _) as [[j p]|] eqn:Hf; [|done]. simpl in Hv.
    injection Hv as <-. apply list_find_Some in Hf as (Hj & <- & _).
    by eapply elem_of_series, list_elem_of_lookup_2.
Qed.

Lemma set_column_fresh (n : string) (col : list (option Z))
    (cols : list (string * list (option Z))) :
  n ∉ cols.*1 → set_column n col cols = cols ++ [(n, col)].
Proof.
  induction cols as [|c cols IH]; [done|]. simpl.
  intros [Hc Hn]%not_elem_of_cons. rewrite decide_False by done.
  by rewrite IH.
Qed.

Lemma setitem_stored (idx : list datetime) (done : list string) (tbl : Table)
    (n : string) :
  idx ≠ [] → stored dfa idx done tbl → n ∉ done →
  NoDup (observed_at dfa n) →
  ∃ tbl', setitem tbl n (series_of n) = inr tbl' ∧ stored dfa idx (done ++ [n]) tbl'.
Proof.
  intros Hidx (Hi & Hc & Hall) Hn Hnd. unfold setitem.
  rewrite decide_False by congruence.
  rewrite <-Hc in Hn. rewrite Hi.
  destruct (decide ((series_of n).*1 = idx)) as [Heq|Hne].
  - eexists. split; [done|]. rewrite set_column_fresh by done.
    split_and!; simpl; [done|by rewrite fmap_app, Hc|].
    apply Forall_app. split; [done|]. constructor; [|done]. simpl.
    rewrite <-Heq. apply aligned_same.
  - rewrite decide_True by (by rewrite series_index_Permutation).
    eexists. split; [done|]. rewrite set_column_fresh by done.
    split_and!; simpl; [done|by rewrite fmap_app, Hc|].
    apply Forall_app. split; [done|]. constructor; [|done]. simpl.
    apply aligned_reindex.
Qed.

Lemma build_stored (idx : list datetime) (done rest : list string) (tbl : Table) :
  idx ≠ [] → stored dfa idx done tbl → NoDup (done ++ rest) →
  (∀ n, n ∈ rest → NoDup (observed_at dfa n)) →
  ∃ tbl',
    foldl (λ acc rname,
             tbl ←! acc; setitem tbl rname (series_of rname)) (inr tbl) rest
      = inr tbl' ∧
    stored dfa idx (done ++ rest) tbl'.
Proof.
  intros Hidx. revert done tbl.
  induction rest as [|n rest IH]; intros done tbl Hst Hnd Hobs; simpl.
  { exists tbl. by rewrite app_nil_r. }
  destruct (setitem_stored idx done tbl n) as (tbl1 & -> & Hst1); [done..| | |].
  - apply NoDup_app in Hnd as (_ & Hd & _). intros Hin.
    apply (Hd n Hin). by left.
  - apply Hobs. by left.
  - destruct (IH (done ++ [n]) tbl1) as (tbl' & Heq & Hst'); [done| | |].
    + by rewrite <-app_assoc.
    + intros m Hm. apply Hobs. by right.
    + exists tbl'. split; [done|]. by rewrite <-app_assoc in Hst'.
Qed.

(** The table of a duplicate-free list of referrers that all have rows:
    its index is that of the series of the first of them. *)
Lemma build_table_stored (first : string) (rest : list string) :
  first ∈ names_of dfa → NoDup (first :: rest) →
  (∀ n, n ∈ rest → NoDup (observed_at dfa n)) →
  ∃ tbl, build_table dfa (first :: rest) = inr tbl ∧
         stored dfa (rdf_of dfa first).*1 (first :: rest) tbl.
Proof.
  intros Hfirst Hnd Hobs. unfold build_table. simpl.
  pose proof (series_nonempty first Hfirst) as Hne.
  unfold setitem at 2. simpl. rewrite decide_False by done.
  rewrite <-series_index.
  apply (build_stored (series_of first).*1 [first]); [|split_and!|done..].
  - by destruct (series_of first).
  - done.
  - done.
  - constructor; [|done]. apply aligned_same.
Qed.

End table_lemmas.

Section table_theorems.
Import Strptime Referrer.

(** C7, as stated, fails.  A leads the ranking and is observed on
    2020-12-05 only; B is observed on 2020-12-05 and on 2020-12-06.  The
    index of the table is 2020-12-05 alone: the time 2020-12-06, at which
    the selected referrer B was observed, is not a row of the table. *)
Lemma C7_counterexample :
  read_snapshots [snap_early; snap_late] = inr loaded_early_late ∧
  analyse_referrer_snapshots elements [snap_early; snap_late] =
    inr (["A"; "B"],
         mkTable [mkDatetime 2020 12 5 12 0 0]
           [("A", [Some 50]); ("B", [Some 12])]) ∧
  mkDatetime 2020 12 6 12 0 0 ∈ observed_at (dfa_of loaded_early_late) "B".
Proof. split_and!; [reflexivity|vm_compute; reflexivity|compute_done]. Qed.

(** C7, amended.  When every selected referrer has at most one row per
    snapshot time, the aggregator returns a table whose columns are the
    selected referrers in order and whose index is the sequence of times at
    which the first of them was observed; in every column, a cell at a time
    at which the referrer of the column has no row is unset (it is never a
    number), and a cell that is set holds the count of a row of that
    referrer at that time. *)
Theorem C7_missing_cells_unset
    (set_iter : gset string → list string) (Hiter : lists_elements set_iter)
    (dfs : list DataFrame) (Hne : dfs ≠ [])
    (Hobs : ∀ n, n ∈ top_referrers set_iter dfs →
                 NoDup (observed_at (dfa_of dfs) n)) :
  let dfa := dfa_of dfs in
  let top := top_referrers set_iter dfs in
  ∃ tbl, (aggregator set_iter dfs).2 = inr (top, tbl) ∧
    (tcolumns tbl).*1 = top ∧
    (∀ first rest, top = first :: rest →
       tindex tbl = (rdf_of dfa first).*1 ∧
       ∀ t, t ∈ tindex tbl ↔ t ∈ observed_at dfa first) ∧
    (∀ name col, (name, col) ∈ tcolumns tbl →
       aligned dfa (tindex tbl) name col).
Proof.
  intros dfa top. rewrite aggregator_snd by done. fold top.
  assert (Hsub : top ⊆ set_iter (names_of dfa)).
  { unfold top, top_referrers. rewrite referrers_names_of.
    apply top_n_rnames_subseteq. }
  assert (Hnd : NoDup top).
  { unfold top, top_referrers. rewrite referrers_names_of.
    by apply top_n_rnames_NoDup. }
  rewrite referrers_names_of, df_top_cu_build_table by done. fold dfa.
  destruct top as [|first rest] eqn:Htop.
  { exists empty_table. split_and!; [done..|]. by intros ?? ?%elem_of_nil. }
  destruct (build_table_stored dfa first rest) as (tbl & -> & Hi & Hc & Hall).
  - apply (elem_of_keys set_iter Hiter), Hsub. by left.
  - done.
  - intros n Hn. apply Hobs. fold top. rewrite Htop. by right.
  - exists tbl. split_and!; [done..| |].
    + intros ? ? [= <- <-]. split; [done|]. intros t.
      rewrite Hi. unfold observed_at. by rewrite rdf_of_Permutation.
    + intros name col Hin. rewrite Forall_forall in Hall.
      rewrite Hi. apply (Hall (name, col) Hin).
Qed.

Lemma C7_missing_cells_unset_witness :
  lists_elements elements ∧ loaded12 ≠ [] ∧
  ∃ tbl, (aggregator elements loaded12).2 =
           inr (top_referrers elements loaded12, tbl) ∧
    (tcolumns tbl).*1 = top_referrers elements loaded12 ∧
    (∀ name col, (name, col) ∈ tcolumns tbl →
       aligned (dfa_of loaded12) (tindex tbl) name col).
Proof.
  assert (H : lists_elements elements) by (intros s; reflexivity).
  split; [exact H|]. split; [discriminate|].
  destruct (C7_missing_cells_unset elements H loaded12) as (tbl & H1 & H2 & _ & H3).
  - discriminate.
  - intros n Hn.
    assert (top_referrers elements loaded12 = ["A"; "B"; "C"; "D"; "E"]) as Htop
      by (vm_compute; reflexivity).
    rewrite Htop in Hn.
    repeat (apply elem_of_cons in Hn as [->|Hn]);
      try (by apply elem_of_nil in Hn); compute_done.
  - exists tbl. split; [exact H1|]. split; [exact H2|exact H3].
Defined.

End table_theorems.

(** ** Runs on objects *)

Section store_lemmas.
Import Objects.
Context {O : Type}.
Implicit Types σ : gmap loc O.

Lemma fresh_lookup σ : σ !! fresh (dom σ) = None.
Proof. apply not_elem_of_dom, is_fresh. Qed.

Lemma subseteq_alter_fresh σ0 σ (l : loc) (f : O → O) :
  σ0 !! l = None → σ0 ⊆ σ → σ0 ⊆ alter f l σ.
Proof.
  intros Hl Hsub. apply map_subseteq_spec. intros k o Hk.
  assert (k ≠ l) by congruence.
  rewrite lookup_alter_ne by done.
  by eapply lookup_weaken.
Qed.

Lemma subseteq_fresh σ0 σ : σ0 ⊆ σ → σ0 !! fresh (dom σ) = None.
Proof.
  intros Hsub. destruct (σ0 !! fresh (dom σ)) as [o|] eqn:Hl; [|done].
  eapply lookup_weaken in Hl; [|done]. by rewrite fresh_lookup in Hl.
Qed.

Lemma lookup_total_all `{Inhabited O} σ (ls : list loc) (os : list O) :
  Forall2 (λ l o, σ !! l = Some o) ls os → (λ l, σ !!! l) <$> ls = os.
Proof.
  induction 1 as [|l o ls os Hl _ IH]; [done|]. csimpl.
  by rewrite IH, (lookup_total_correct _ _ _ Hl).
Qed.

End store_lemmas.

Section reconciler_objects.
Import Objects.

Lemma reconciler_spec (σ : gmap loc frame) (dfs : list loc) (frames : list frame) :
  Forall2 (λ l o, σ !! l = Some o) dfs frames →
  (∀ l o, σ !! l = Some o → (reconciler dfs σ).1 !! l = Some o) ∧
  match (reconciler dfs σ).2 with
  | inr l =>
      σ !! l = None ∧
      ∃ out, Scalar.df_agg (content <$> frames) = inr out ∧
             (reconciler dfs σ).1 !! l = Some (mkFrame (Some "time") out)
  | inl e => Scalar.df_agg (content <$> frames) = inl e ∧ (reconciler dfs σ).1 = σ
  end.
Proof.
  intros Hdfs.
  unfold reconciler, mbind, reads, update, modifies, alloc, mret, ret.
  cbv beta iota zeta. rewrite (lookup_total_all σ dfs frames Hdfs).
  unfold Scalar.df_agg, bind, ret.
  destruct (Scalar.pd_concat (content <$> frames)) as [e|dfa]; cbn [fst snd].
  { by split. }
  set (l1 := fresh (dom σ)).
  set (name := concat_index_name (index_name <$> frames)).
  rewrite !alter_insert_eq. cbn [index_name content].
  rewrite lookup_total_insert_eq. cbn [index_name content].
  set (σ1 := <[l1 := _]> σ).
  set (l2 := fresh (dom σ1)).
  assert (H1 : σ !! l1 = None) by apply fresh_lookup.
  assert (Hsub : σ ⊆ σ1) by (by apply insert_subseteq).
  assert (H2 : σ !! l2 = None) by (by apply subseteq_fresh).
  split.
  - intros l o Hl. eapply lookup_weaken; [done|].
    apply insert_subseteq_r; [done|]. done.
  - split; [done|]. eexists. split; [done|]. by rewrite lookup_insert_eq.
Qed.

End reconciler_objects.

Section aggregator_objects.
Import Strptime Referrer Objects.
Context (set_iter : gset string → list string).
Implicit Types σ : gmap loc obj.

Lemma set_time_idemp (df : DataFrame) : set_time (set_time df) = set_time df.
Proof.
  unfold set_time. simpl. destruct (decide ("time" ∈ columns df)) as [Hin|Hnin].
  - by rewrite decide_True.
  - rewrite decide_True; [done|]. apply elem_of_app. right. by left.
Qed.

Lemma on_snapshot_idemp (o : obj) :
  on_snapshot set_time (on_snapshot set_time o) = on_snapshot set_time o.
Proof. destruct o; simpl; [|done..]. by rewrite set_time_idemp. Qed.

(** The loop of lines 185 and 186. *)
Lemma for_each_update σ (dfs : list loc) (f : obj → obj) :
  for_each dfs (λ df, update df f) σ =
  (foldl (λ σ l, alter f l σ) σ dfs, inr ((λ _, tt) <$> dfs)).
Proof.
  revert σ. induction dfs as [|l dfs IH]; intros σ; [done|].
  cbn [for_each]. unfold mbind at 1. unfold update at 1, modifies.
  unfold mbind at 1. rewrite IH. done.
Qed.

Lemma foldl_alter_lookup σ (dfs : list loc) (f : obj → obj) (l : loc) :
  (∀ o, f (f o) = f o) →
  foldl (λ σ l, alter f l σ) σ dfs !! l =
  if decide (l ∈ dfs) then f <$> σ !! l else σ !! l.
Proof.
  intros Hf. revert σ. induction dfs as [|k dfs IH]; intros σ; [done|].
  cbn [foldl]. rewrite IH. destruct (decide (k = l)) as [->|Hne].
  - rewrite lookup_alter_eq. rewrite (decide_True (P := l ∈ l :: dfs)) by (by left).
    case_decide; [|done]. rewrite <-option_fmap_compose.
    apply option_fmap_ext. intros o. apply Hf.
  - rewrite lookup_alter_ne by done.
    destruct (decide (l ∈ dfs)) as [Hin|Hnin].
    + by rewrite decide_True by (by right).
    + rewrite decide_False; [done|]. intros [?|?]%elem_of_cons; congruence.
Qed.

Lemma snapshots_at_Forall2 σ (dfs : list loc) (snaps : list DataFrame) :
  Forall2 (λ l df, σ !! l = Some (Snapshot df)) dfs snaps →
  snapshots_at σ dfs = snaps.
Proof.
  unfold snapshots_at. induction 1 as [|l df dfs snaps Hl _ IH]; [done|].
  csimpl. rewrite Hl. csimpl. by rewrite IH.
Qed.

(** Lines 196 to 203 for one referrer. *)
Lemma referrer_frame_spec σ (dfa : loc) (name : string) (rows : list trow) :
  rows_of (σ !!! dfa) = rows →
  ∃ σ' l, referrer_frame dfa name σ = (σ', inr (name, l)) ∧
          σ ⊆ σ' ∧ σ !! l = None ∧
          σ' !! l = Some (Frame InIndex (rdf_of rows name)).
Proof.
  intros Hdfa.
  unfold referrer_frame, mbind, reads, update, modifies, alloc, mret, ret.
  cbv beta iota zeta. rewrite Hdfa.
  set (F := filter (λ r : trow, referrer r.2 = name) rows).
  set (l0 := fresh (dom σ)).
  rewrite !lookup_total_insert_eq. cbn [rows_of].
  set (σa := <[l0 := Frame InColumn F]> σ).
  set (l1 := fresh (dom σa)).
  rewrite alter_insert_eq. cbn [rows_of]. rewrite zip_fst_snd.
  rewrite lookup_total_insert_eq. cbn [rows_of].
  set (σb := <[l1 := Frame InIndex F]> σa).
  set (l2 := fresh (dom σb)).
  assert (Ha : σ ⊆ σa) by apply insert_subseteq, fresh_lookup.
  assert (Hb : σa ⊆ σb) by apply insert_subseteq, fresh_lookup.
  assert (Hab : σ ⊆ σb) by (by etrans).
  do 2 eexists. split; [done|]. split_and!.
  - etrans; [exact Hab|]. apply insert_subseteq, fresh_lookup.
  - by apply subseteq_fresh.
  - by rewrite lookup_insert_eq.
Qed.

(** The loop of lines 193 to 203. *)
Lemma referrer_frames_spec σ (dfa : loc) (names : list string) (rows : list trow) :
  σ !! dfa = Some (Frame InColumn rows) →
  ∃ σ' dict, for_each names (referrer_frame dfa) σ = (σ', inr dict) ∧
    σ ⊆ σ' ∧ dict.*1 = names ∧
    Forall (λ kv : string * loc,
              σ !! kv.2 = None ∧
              σ' !! kv.2 = Some (Frame InIndex (rdf_of rows kv.1))) dict.
Proof.
  revert σ. induction names as [|name names IH]; intros σ Hdfa.
  { exists σ, []. by split_and!. }
  cbn [for_each]. unfold mbind at 1.
  destruct (referrer_frame_spec σ dfa name rows) as (σ1 & l & -> & Hsub & Hl & Hl1).
  { by rewrite (lookup_total_correct _ _ _ Hdfa). }
  destruct (IH σ1) as (σ' & dict & Hrun & Hsub' & Hkeys & Hall).
  { by eapply lookup_weaken. }
  unfold mbind at 1. rewrite Hrun. unfold mret.
  exists σ', ((name, l) :: dict). split_and!; [done|by etrans|by csimpl; f_equal|].
  constructor.
  - split; [done|]. by eapply lookup_weaken.
  - eapply Forall_impl; [exact Hall|]. intros kv [Hn Hs]. split; [|done].
    destruct (σ !! kv.2) as [o|] eqn:Hkv; [|done].
    eapply lookup_weaken in Hkv; [|exact Hsub]. congruence.
Qed.

Lemma dict_get_values {V W} (d : list (string * V)) (h : string → W) (k : string) :
  match dict_get d k with
  | inr v => (k, v) ∈ d ∧ dict_get ((λ kv, (kv.1, h kv.1)) <$> d) k = inr (h k)
  | inl e => dict_get ((λ kv, (kv.1, h kv.1)) <$> d) k = inl e
  end.
Proof.
  unfold dict_get. rewrite list_find_fmap.
  change ((λ kv : string * W, kv.1 = k) ∘ (λ kv : string * V, (kv.1, h kv.1)))
    with (λ kv : string * V, kv.1 = k).
  destruct (list_find (λ kv : string * V, kv.1 = k) d) as [[i [k' v]]|] eqn:Hf;
    [|done].
  apply list_find_Some in Hf as (Hi & Hk & _). simpl in Hk. subst k'.
  simpl. split; [|done]. by eapply list_elem_of_lookup_2.
Qed.

(** The pure counterpart of one turn of the loop of lines 245 to 248. *)
Local Abbreviation pure_step pdict :=
  (λ (acc : result Table) (rname : string),
     tbl ←! acc;
     rdf ←! dict_get pdict rname;
     setitem tbl rname (count_unique_series rdf)).

Lemma foldl_pure_step_inl (pdict : list (string * list trow)) (e : fatal)
    (rnames : list string) :
  foldl (pure_step pdict) (inl e) rnames = inl e.
Proof. by induction rnames. Qed.

Lemma foldl_pure_step_cons (pdict : list (string * list trow)) (acc : Table)
    (rname : string) (rnames : list string) :
  foldl (pure_step pdict) (inr acc) (rname :: rnames) =
  foldl (pure_step pdict)
    (match dict_get pdict rname with
     | inl e => inl e
     | inr rdf => setitem acc rname (count_unique_series rdf)
     end) rnames.
Proof. done. Qed.

Lemma for_each_cons {S A B} (body : A → M S B) (x : A) (xs : list A) (σ : S) :
  for_each (x :: xs) body σ =
  match body x σ with
  | (σ', inl e) => (σ', inl e)
  | (σ', inr y) =>
      match for_each xs body σ' with
      | (σ'', inl e) => (σ'', inl e)
      | (σ'', inr ys) => (σ'', inr (y :: ys))
      end
  end.
Proof.
  cbn [for_each]. unfold mbind at 1. destruct (body x σ) as [σ' [e|y]]; [done|].
  unfold mbind. by destruct (for_each xs body σ') as [σ'' [e|ys]].
Qed.

Lemma store_column_run σ (dict : list (string * loc)) (tbl : loc) (rname : string) :
  store_column dict tbl rname σ =
  match dict_get dict rname with
  | inl e => (σ, inl e)
  | inr rdf =>
      match setitem (table_of (σ !!! tbl)) rname
              (count_unique_series (rows_of (σ !!! rdf))) with
      | inl e => (σ, inl e)
      | inr t => (alter (λ _, Top t) tbl σ, inr tt)
      end
  end.
Proof.
  unfold store_column, mbind, reads, update, modifies.
  destruct (dict_get dict rname) as [e|rdf]; [done|].
  by destruct (setitem _ _ _).
Qed.

(** The loop of lines 245 to 248: it changes the table object and nothing
    else, and leaves in it what the pure loop computes. *)
Lemma store_columns_spec σ (dict : list (string * loc)) (tbl : loc)
    (rows : list trow) (rnames : list string) (acc : Table) :
  σ !! tbl = Some (Top acc) →
  Forall (λ kv : string * loc,
            kv.2 ≠ tbl ∧ σ !! kv.2 = Some (Frame InIndex (rdf_of rows kv.1))) dict →
  ∃ acc',
    (for_each rnames (store_column dict tbl) σ).1 = <[tbl := Top acc']> σ ∧
    match foldl (pure_step ((λ kv : string * loc, (kv.1, rdf_of rows kv.1)) <$> dict))
            (inr acc) rnames with
    | inr t => acc' = t ∧ ∃ us, (for_each rnames (store_column dict tbl) σ).2 = inr us
    | inl e => (for_each rnames (store_column dict tbl) σ).2 = inl e
    end.
Proof.
  revert σ acc. induction rnames as [|rname rnames IH]; intros σ acc Htbl Hdict.
  { exists acc. cbn. split; [by rewrite insert_id|]. split; [done|by eexists]. }
  rewrite foldl_pure_step_cons, for_each_cons, store_column_run.
  pose proof (dict_get_values dict (rdf_of rows) rname) as Hget.
  destruct (dict_get dict rname) as [e|l].
  { rewrite Hget, foldl_pure_step_inl. exists acc.
    cbn. split; [by rewrite insert_id|done]. }
  destruct Hget as [Hin ->].
  rewrite Forall_forall in Hdict. destruct (Hdict _ Hin) as [Hne Hl].
  cbn [fst snd] in Hne, Hl.
  rewrite (lookup_total_correct _ _ _ Htbl), (lookup_total_correct _ _ _ Hl).
  cbn [table_of rows_of].
  destruct (setitem acc rname (count_unique_series (rdf_of rows rname)))
    as [e|t1] eqn:Hset.
  { rewrite foldl_pure_step_inl. exists acc. cbn.
    split; [by rewrite insert_id|done]. }
  set (σ1 := alter (λ _ : obj, Top t1) tbl σ).
  assert (Hσ1 : σ1 = <[tbl := Top t1]> σ).
  { unfold σ1. apply map_eq. intros k. destruct (decide (tbl = k)) as [<-|Hk].
    - by rewrite lookup_alter_eq, lookup_insert_eq, Htbl.
    - by rewrite lookup_alter_ne, lookup_insert_ne. }
  destruct (IH σ1 t1) as (acc' & Hst & Hres).
  { by rewrite Hσ1, lookup_insert_eq. }
  { apply Forall_forall. intros kv Hkv. destruct (Hdict kv Hkv) as [Hk Hv].
    split; [done|]. by rewrite Hσ1, lookup_insert_ne. }
  exists acc'.
  destruct (for_each rnames (store_column dict tbl) σ1) as [σ2 [e|us]];
    cbn [fst snd] in *.
  - split; [by rewrite Hst, Hσ1, insert_insert_eq|].
    match type of Hres with
    | match ?x with _ => _ end => destruct x as [e'|t]
    end; [done|].
    destruct Hres as [_ [? ?]]. done.
  - split; [by rewrite Hst, Hσ1, insert_insert_eq|].
    match type of Hres with
    | match ?x with _ => _ end => destruct x as [e'|t]
    end; [done|].
    destruct Hres as [-> _]. split; [done|]. by eexists.
Qed.

Lemma alloc_run {O} (o : O) (σ : gmap loc O) :
  alloc o σ = (<[fresh (dom σ) := o]> σ, inr (fresh (dom σ))).
Proof. done. Qed.

(** The run of the aggregator on objects, phase by phase. *)
Lemma aggregator_run σ (dfs : list loc) :
  aggregator set_iter dfs σ =
  let σ1 := foldl (λ σ l, alter (on_snapshot set_time) l σ) σ dfs in
  match pd_concat (snapshots_at σ1 dfs) with
  | inl e => (σ1, inl e)
  | inr rows =>
      let dfa := fresh (dom σ1) in
      match for_each (set_iter (referrers (snapshots_at σ dfs)))
              (referrer_frame dfa) (<[dfa := Frame InColumn rows]> σ1) with
      | (σ3, inl e) => (σ3, inl e)
      | (σ3, inr referrer_dfs) =>
          let top_n_rnames :=
            take top_n
              (sorted_reverse
                 ((λ kv : string * loc,
                     (kv.1, series_max
                              (count_unique_series (rows_of (σ3 !!! kv.2))).*2))
                    <$> referrer_dfs)).*1 in
          let df_top_cu := fresh (dom σ3) in
          match for_each top_n_rnames (store_column referrer_dfs df_top_cu)
                  (<[df_top_cu := Top empty_table]> σ3) with
          | (σ5, inl e) => (σ5, inl e)
          | (σ5, inr _) => (σ5, inr (top_n_rnames, df_top_cu))
          end
      end
  end.
Proof.
  unfold aggregator, mbind, reads, mret, ret. cbv beta iota zeta.
  rewrite for_each_update. cbv beta iota.
  destruct (pd_concat _) as [e|rows]; [done|].
  rewrite alloc_run. cbv beta iota.
  destruct (for_each _ (referrer_frame _) _) as [σ3 [e|referrer_dfs]]; [done|].
  rewrite alloc_run. cbv beta iota.
  by destruct (for_each _ (store_column _ _) _) as [σ5 [e|us]].
Qed.

Lemma aggregator_spec σ (dfs : list loc) (snaps : list DataFrame) :
  Forall2 (λ l df, σ !! l = Some (Snapshot df)) dfs snaps →
  ∃ σ' r, aggregator set_iter dfs σ = (σ', r) ∧
    (∀ l o, l ∉ dfs → σ !! l = Some o → σ' !! l = Some o) ∧
    Forall2 (λ l df, σ' !! l = Some (Snapshot (set_time df))) dfs snaps ∧
    match r with
    | inr (top, l) =>
        σ !! l = None ∧
        ∃ tbl, σ' !! l = Some (Top tbl) ∧
               (Referrer.aggregator set_iter snaps).2 = inr (top, tbl)
    | inl e => (Referrer.aggregator set_iter snaps).2 = inl e
    end.
Proof.
  intros Hdfs. rewrite aggregator_run. cbv zeta.
  set (σ1 := foldl (λ σ l, alter (on_snapshot set_time) l σ) σ dfs).
  assert (Hσ1 : ∀ l, σ1 !! l =
            if decide (l ∈ dfs) then on_snapshot set_time <$> σ !! l else σ !! l).
  { intros l. apply foldl_alter_lookup, on_snapshot_idemp. }
  assert (Hkeep : ∀ l o, l ∉ dfs → σ !! l = Some o → σ1 !! l = Some o).
  { intros l o Hl Ho. by rewrite Hσ1, decide_False. }
  assert (Hset : Forall2 (λ l df, σ1 !! l = Some (Snapshot (set_time df))) dfs snaps).
  { apply Forall2_same_length_lookup. split; [by eapply Forall2_length|].
    intros i l df Hl Hdf.
    + rewrite Hσ1.
      rewrite decide_True by (by eapply list_elem_of_lookup_2).
      eapply Forall2_lookup_lr in Hdfs; [|done..]. by rewrite Hdfs. }
  assert (Hnone : ∀ l, σ1 !! l = None → σ !! l = None).
  { intros l. rewrite Hσ1. case_decide; [|done]. by destruct (σ !! l). }
  rewrite (snapshots_at_Forall2 σ dfs snaps Hdfs).
  rewrite (snapshots_at_Forall2 σ1 dfs (set_time <$> snaps))
    by (by apply Forall2_fmap_r).
  destruct (decide (snaps = [])) as [->|Hne].
  { exists σ1, (inl NoObjectsToConcatenate). by split_and!. }
  assert (Hcat : pd_concat (set_time <$> snaps) = inr (dfa_of snaps)).
  { by destruct snaps. }
  rewrite Hcat. set (rows := dfa_of snaps). set (dfa := fresh (dom σ1)).
  set (σ2 := <[dfa := Frame InColumn rows]> σ1).
  assert (H12 : σ1 ⊆ σ2) by apply insert_subseteq, fresh_lookup.
  destruct (referrer_frames_spec σ2 dfa (set_iter (referrers snaps)) rows)
    as (σ3 & dict & -> & H23 & Hkeys & Hdict).
  { apply lookup_insert_eq. }
  assert (H13 : σ1 ⊆ σ3) by (by etrans).
  set (pd := (λ kv : string * loc, (kv.1, rdf_of rows kv.1)) <$> dict).
  assert (Hpd : pd = referrer_dfs set_iter rows (referrers snaps)).
  { unfold pd, referrer_dfs. rewrite <-Hkeys, <-list_fmap_compose. done. }
  assert (Hmap : (λ kv : string * loc,
                    (kv.1, series_max
                             (count_unique_series (rows_of (σ3 !!! kv.2))).*2))
                   <$> dict = ref_max_cu_map pd).
  { unfold ref_max_cu_map, pd. rewrite <-list_fmap_compose.
    apply list_fmap_ext. intros i kv Hkv. rewrite Forall_forall in Hdict.
    destruct (Hdict kv) as [_ Hl]; [by eapply list_elem_of_lookup_2|].
    by rewrite (lookup_total_correct _ _ _ Hl). }
  rewrite Hmap.
  assert (Htop : take top_n (sorted_reverse (ref_max_cu_map pd)).*1 =
                 top_referrers set_iter snaps).
  { by rewrite Hpd. }
  rewrite Htop. set (top := top_referrers set_iter snaps).
  set (tbl := fresh (dom σ3)).
  assert (Htbl3 : σ3 !! tbl = None) by apply fresh_lookup.
  set (σ4 := <[tbl := Top empty_table]> σ3).
  destruct (store_columns_spec σ4 dict tbl rows top empty_table)
    as (acc' & Hst & Hres).
  { apply lookup_insert_eq. }
  { eapply Forall_impl; [exact Hdict|]. intros kv [_ Hl].
    assert (kv.2 ≠ tbl) by congruence.
    split; [done|]. unfold σ4. by rewrite lookup_insert_ne. }
  fold pd in Hres.
  assert (Hpure : (Referrer.aggregator set_iter snaps).2 =
                  match foldl (pure_step pd) (inr empty_table) top with
                  | inl e => inl e
                  | inr t => inr (top, t)
                  end).
  { rewrite aggregator_snd by done. rewrite Hpd. done. }
  destruct (for_each top (store_column dict tbl) σ4) as [σ5 r] eqn:Hrun.
  cbn [fst snd] in Hst, Hres. subst σ5. unfold σ4. rewrite insert_insert_eq.
  assert (H15 : σ1 ⊆ <[tbl := Top acc']> σ3).
  { etrans; [exact H13|]. by apply insert_subseteq. }
  assert (Hfacts :
    (∀ l o, l ∉ dfs → σ !! l = Some o → <[tbl := Top acc']> σ3 !! l = Some o) ∧
    Forall2 (λ l df, <[tbl := Top acc']> σ3 !! l = Some (Snapshot (set_time df)))
      dfs snaps).
  { split.
    - intros l o Hl Ho. eapply lookup_weaken; [|exact H15]. by apply Hkeep.
    - eapply Forall2_impl; [exact Hset|]. intros l df Hl. cbv beta in Hl.
      eapply lookup_weaken; [exact Hl|exact H15]. }
  destruct Hfacts as [Hf1 Hf2].
  destruct (foldl (pure_step pd) (inr empty_table) top) as [e|t].
  - subst r. eexists _, _. split; [done|]. by split_and!.
  - destruct Hres as [-> [us ->]]. eexists _, _. split; [done|].
    split_and!; [done|done| |].
    + apply Hnone. by eapply lookup_weaken_None.
    + exists t. split; [apply lookup_insert_eq|done].
Qed.

End aggregator_objects.

(** ** The frame objects after a run *)

Section frame_theorems.
Import Strptime Referrer.

(** C9, as stated, fails.  After the aggregator has run on the two frames
    loaded from [snap1] and [snap2], each of them has the column [time],
    which it did not have when it was loaded. *)
Lemma C9_counterexample :
  (aggregator elements loaded12).1 ≠ loaded12 ∧
  columns <$> loaded12 =
    [["referrer"; "count_unique"]; ["referrer"; "count_unique"]] ∧
  columns <$> (aggregator elements loaded12).1 =
    [["referrer"; "count_unique"; "time"]; ["referrer"; "count_unique"; "time"]].
Proof.
  rewrite aggregator_fst. split_and!; [|reflexivity..]. discriminate.
Qed.

End frame_theorems.

Section object_theorems.
Import Strptime Referrer Objects.

(** C9, amended.  Run on objects, the reconciler changes no object that
    exists before the run, the loaded fragments among them: [pd.concat]
    builds a new object, the sort and the renaming of the index in place are
    applied to that object, and [df_agg] is an object that did not exist
    before, holding the aggregate of the contents of the fragments.  The
    aggregator changes the loaded snapshots and no other object that exists
    before the run: each snapshot a reference of [dfs] leads to, however
    many references lead to it, ends as the same snapshot with the column
    [time] stored into it, with the rows and the snapshot time it had and
    its other column labels; the table [df_top_cu] is an object that did not
    exist before, holding the table of the aggregator; a run that fails
    fails as the aggregator does. *)
Theorem C9_fragments_kept_snapshots_gain_time
    (set_iter : gset string → list string)
    (σv : gmap loc frame) (fragments : list loc) (frames : list frame)
    (σr : gmap loc obj) (snapshots : list loc) (snaps : list DataFrame)
    (Hv : Forall2 (λ l o, σv !! l = Some o) fragments frames)
    (Hr : Forall2 (λ l df, σr !! l = Some (Snapshot df)) snapshots snaps) :
  let rv := Objects.reconciler fragments σv in
  let rr := Objects.aggregator set_iter snapshots σr in
  (∀ l o, σv !! l = Some o → rv.1 !! l = Some o) ∧
  match rv.2 with
  | inr df_agg =>
      σv !! df_agg = None ∧
      ∃ out, Scalar.df_agg (content <$> frames) = inr out ∧
             rv.1 !! df_agg = Some (mkFrame (Some "time") out)
  | inl e => Scalar.df_agg (content <$> frames) = inl e ∧ rv.1 = σv
  end ∧
  (∀ l o, l ∉ snapshots → σr !! l = Some o → rr.1 !! l = Some o) ∧
  Forall2 (λ l df, rr.1 !! l = Some (Snapshot (set_time df))) snapshots snaps ∧
  Forall (λ df,
      rows (set_time df) = rows df ∧
      snapshot_time (set_time df) = snapshot_time df ∧
      columns (set_time df) =
        if decide ("time" ∈ columns df) then columns df
        else columns df ++ ["time"]) snaps ∧
  match rr.2 with
  | inr (top, df_top_cu) =>
      σr !! df_top_cu = None ∧
      ∃ tbl, rr.1 !! df_top_cu = Some (Top tbl) ∧
             (Referrer.aggregator set_iter snaps).2 = inr (top, tbl)
  | inl e => (Referrer.aggregator set_iter snaps).2 = inl e
  end.
Proof.
  intros rv rr.
  destruct (reconciler_spec σv fragments frames Hv) as [Hv1 Hv2].
  destruct (aggregator_spec set_iter σr snapshots snaps Hr)
    as (σ' & r & Hrun & Hr1 & Hr2 & Hr3).
  unfold rr. rewrite Hrun. cbn [fst snd].
  split_and!; [exact Hv1|exact Hv2|exact Hr1|exact Hr2| |exact Hr3].
  by apply Forall_forall.
Qed.

Lemma C9_fragments_kept_snapshots_gain_time_witness :
  Forall2 (λ l o, two_fragments !! l = Some o) [1%positive; 2%positive]
    [mkFrame (Some "time_iso8601") Scalar.fragment1;
     mkFrame (Some "time_iso8601") Scalar.fragment2] ∧
  Forall2 (λ l df, two_snapshots !! l = Some (Snapshot df))
    [1%positive; 2%positive] loaded12 ∧
  (∀ l o, two_fragments !! l = Some o →
     (Objects.reconciler [1%positive; 2%positive] two_fragments).1 !! l = Some o) ∧
  Forall2 (λ l df,
      (Objects.aggregator elements [1%positive; 2%positive] two_snapshots).1 !! l =
      Some (Snapshot (set_time df)))
    [1%positive; 2%positive] loaded12.
Proof.
  assert (Hv : Forall2 (λ l o, two_fragments !! l = Some o)
                 [1%positive; 2%positive]
                 [mkFrame (Some "time_iso8601") Scalar.fragment1;
                  mkFrame (Some "time_iso8601") Scalar.fragment2])
    by (repeat constructor).
  assert (Hr : Forall2 (λ l df, two_snapshots !! l = Some (Snapshot df))
                 [1%positive; 2%positive] loaded12)
    by (repeat constructor).
  split; [exact Hv|]. split; [exact Hr|].
  destruct (C9_fragments_kept_snapshots_gain_time elements
              two_fragments [1%positive; 2%positive] _
              two_snapshots [1%positive; 2%positive] loaded12 Hv Hr)
    as (H1 & _ & _ & H4 & _).
  split; [exact H1|exact H4].
Defined.

End object_theorems.

(** ** The parser on sample inputs

    Each line agrees with what [datetime.strptime] of CPython 3.11 returns
    or raises for the format ["%Y-%m-%d_%H%M%S"]. *)

Section strptime_examples.
Import Strptime.

Example strptime_padded :
  strptime "2020-12-01_120000" = Some (mkDatetime 2020 12 1 12 0 0).
Proof. reflexivity. Qed.

Example strptime_month_day_one_digit :
  strptime "2020-1-5_123456" = Some (mkDatetime 2020 1 5 12 34 56).
Proof. reflexivity. Qed.

Example strptime_time_three_digits :
  strptime "2020-1-5_123" = Some (mkDatetime 2020 1 5 1 2 3).
Proof. reflexivity. Qed.

Example strptime_time_four_digits :
  strptime "2020-1-5_1234" = Some (mkDatetime 2020 1 5 12 3 4).
Proof. reflexivity. Qed.

Example strptime_time_digit_left_over :
  strptime "2020-01-05_19999" = None.
Proof. reflexivity. Qed.

Example strptime_february_30 :
  strptime "2020-02-30_000000" = None.
Proof. reflexivity. Qed.

Example strptime_february_29_common_year :
  strptime "2021-02-29_000000" = None.
Proof. reflexivity. Qed.

Example strptime_year_zero :
  strptime "0000-01-01_000000" = None.
Proof. reflexivity. Qed.

Example strptime_second_60 :
  strptime "2020-12-01_120060" = None.
Proof. reflexivity. Qed.

Example strptime_day_blank_padded :
  strptime "2020-12- 1_120000" = Some (mkDatetime 2020 12 1 12 0 0).
Proof. reflexivity. Qed.

Example strptime_time_2959 :
  strptime "2020-12-01_2959" = Some (mkDatetime 2020 12 1 2 9 59).
Proof. reflexivity. Qed.

Example strptime_time_696 :
  strptime "2020-12-01_696" = Some (mkDatetime 2020 12 1 6 9 6).
Proof. reflexivity. Qed.

Example strptime_time_6159 :
  strptime "2020-10-31_6159" = Some (mkDatetime 2020 10 31 6 15 9).
Proof. reflexivity. Qed.

Example strptime_time_2400 :
  strptime "2020-10-31_2400" = Some (mkDatetime 2020 10 31 2 40 0).
Proof. reflexivity. Qed.

Example strptime_time_0960 :
  strptime "2020-10-31_0960" = Some (mkDatetime 2020 10 31 9 6 0).
Proof. reflexivity. Qed.

Example strptime_time_two_digits :
  strptime "2020-12-31_00" = None.
Proof. reflexivity. Qed.

Example strptime_year_0100 :
  strptime "0100-01-05_123456" = Some (mkDatetime 100 1 5 12 34 56).
Proof. reflexivity. Qed.

Example strptime_february_29_1900 :
  strptime "1900-02-29_000000" = None.
Proof. reflexivity. Qed.

Example strptime_february_29_2000 :
  strptime "2000-02-29_000000" = Some (mkDatetime 2000 2 29 0 0 0).
Proof. reflexivity. Qed.

Example strptime_day_with_blank_inside :
  strptime "2020-10-3 1_000000" = None.
Proof. reflexivity. Qed.

Example strptime_trailing_character :
  strptime "2020-12-01_120000x" = None.
Proof. reflexivity. Qed.

Example strptime_leading_blank :
  strptime " 2020-12-01_120000" = None.
Proof. reflexivity. Qed.

Example strptime_hour_25 :
  strptime "2020-12-01_250000" = None.
Proof. reflexivity. Qed.

Example strptime_month_13 :
  strptime "2020-13-01_120000" = None.
Proof. reflexivity. Qed.

Example strptime_time_999 :
  strptime "2020-12-01_999" = Some (mkDatetime 2020 12 1 9 9 9).
Proof. reflexivity. Qed.

Example strptime_time_611 :
  strptime "2020-10-31_611" = Some (mkDatetime 2020 10 31 6 1 1).
Proof. reflexivity. Qed.

Example strptime_pprefix_of_path :
  pprefix "dir/sub/2020-12-01_120000_top_referrers_snapshot.csv" = "2020-12-01_120000".
Proof. reflexivity. Qed.

Example strptime_pprefix_first_occurrence :
  pprefix "a_top_referrers_snapshot.csv_top_referrers_snapshot.csv" = "a".
Proof. reflexivity. Qed.

Example strptime_shape_padded :
  begins_with_token "2020-12-01_120000_top_referrers_snapshot.csv" = true.
Proof. reflexivity. Qed.

Example strptime_shape_one_digit :
  begins_with_token "2020-1-5_123456_top_referrers_snapshot.csv" = false.
Proof. reflexivity. Qed.

End strptime_examples.

(** * Further properties *)

(** ** Column sets that agree *)

Section agreement_lemmas.

Lemma agrees_nil : agrees [].
Proof. intros i j ci cj _ Hi. by rewrite lookup_nil in Hi. Qed.

Lemma agrees_cons (c : list string) (cs : list (list string)) :
  agrees (c :: cs) ↔
  (c ≠ [] → Forall (λ c', list_to_set c' =@{gset string} list_to_set c) cs) ∧
  agrees cs.
Proof.
  split.
  - intros H. split.
    + intros Hc. apply Forall_forall. intros c' [j Hj]%list_elem_of_lookup_1.
      apply (H 0%nat (S j) c c'); [lia|done..].
    + intros i j ci cj Hij Hi Hj. apply (H (S i) (S j)); [lia|done..].
  - intros [Hhd Htl] i j ci cj Hij Hi Hj Hne.
    destruct i as [|i], j as [|j]; try lia; simpl in *.
    + injection Hi as ->. specialize (Hhd Hne). rewrite Forall_forall in Hhd.
      by eapply Hhd, list_elem_of_lookup_2.
    + apply (Htl i j ci cj); [lia|done..].
Qed.

Lemma agrees_same (c : list string) (cs : list (list string)) :
  Forall (λ c', list_to_set c' =@{gset string} list_to_set c) cs → agrees cs.
Proof.
  intros Hall i j ci cj _ Hi Hj _. rewrite Forall_forall in Hall.
  rewrite (Hall ci), (Hall cj); [done|by eapply list_elem_of_lookup_2..].
Qed.

Lemma read_fragments_loop_empty_seen (dfs files : list Scalar.DataFrame) :
  (agrees (Scalar.columns <$> files) ∧
   Scalar.read_fragments_loop ∅ dfs files = inr (dfs ++ files)) ∨
  (¬ agrees (Scalar.columns <$> files) ∧
   Scalar.read_fragments_loop ∅ dfs files = inl SchemaMismatch).
Proof.
  revert dfs. induction files as [|df files IH]; intros dfs.
  { left. split; [apply agrees_nil|by rewrite app_nil_r]. }
  rewrite fmap_cons, agrees_cons. simpl.
  rewrite columns_differ_empty, union_empty_l_L.
  destruct (decide (Scalar.columns df = [])) as [Hnil|Hne].
  - rewrite Hnil. simpl.
    destruct (IH (dfs ++ [df])) as [[Ha ->]|[Hn ->]]; [left|right].
    + rewrite <-app_assoc. by split.
    + split; [|done]. by intros [_ Ha].
  - pose proof (list_to_set_nonempty _ Hne) as Hs.
    destruct (decide (Forall (λ d, list_to_set (Scalar.columns d) =@{gset string}
                                   list_to_set (Scalar.columns df)) files))
      as [Hall|Hnall]; [left|right].
    + rewrite read_fragments_loop_same by done. rewrite <-app_assoc.
      split; [|done]. split; [by rewrite Forall_fmap|].
      eapply agrees_same. by rewrite Forall_fmap.
    + split.
      * intros [Ha _]. destruct Hnall. specialize (Ha Hne).
        by rewrite Forall_fmap in Ha.
      * apply read_fragments_loop_differ; [done|].
        by apply not_Forall_Exists; [apply _|].
Qed.

End agreement_lemmas.

(** ** The reconciliation as an operation on fragments *)

Section reconciliation_theorems.
Import Scalar.

Lemma reconciler_snd (dfs : list DataFrame) : (reconciler dfs).2 = df_agg dfs.
Proof.
  unfold reconciler, df_agg, mbind, reads, mret, bind, ret.
  by destruct (pd_concat dfs).
Qed.

(** X1. The views/clones analysis has three outcomes, decided by the files
    alone: with no file it ends in the [ValueError] of [pd.concat]; with
    files whose column sets do not agree it ends at the column check; with
    files that agree it returns the aggregate of all of them, whose columns
    are the union of theirs. *)
Theorem analyse_view_clones_outcomes (files : list DataFrame) :
  (files = [] ∧
   analyse_view_clones_ts_fragments files = inl NoObjectsToConcatenate) ∨
  (files ≠ [] ∧ ¬ agrees (columns <$> files) ∧
   analyse_view_clones_ts_fragments files = inl SchemaMismatch) ∨
  (files ≠ [] ∧ agrees (columns <$> files) ∧
   analyse_view_clones_ts_fragments files =
     inr (mkDataFrame (concat_columns files) (agg_rows (concat_rows files)))).
Proof.
  unfold analyse_view_clones_ts_fragments, read_fragments.
  destruct files as [|df files]; [by left|]. right.
  destruct (read_fragments_loop_empty_seen [] (df :: files)) as [[Ha ->]|[Hn ->]];
    [right|left]; (split; [done|]); (split; [done|]); [|done].
  unfold bind. rewrite app_nil_l, reconciler_snd. by apply df_agg_unfold.
Qed.

Lemma length_concat_rows (dfs : list DataFrame) :
  length (concat_rows dfs) = total_sample_count dfs.
Proof.
  unfold concat_rows, total_sample_count.
  induction dfs as [|df dfs IH]; [done|]. csimpl.
  by rewrite length_app, IH.
Qed.

Lemma length_remove_dups_le {A} `{EqDecision A} (l : list A) :
  (length (remove_dups l) ≤ length l)%nat.
Proof.
  induction l as [|x l IH]; simpl; [done|].
  destruct (decide_rel _ _ _); simpl; lia.
Qed.

Lemma length_remove_dups_eq {A} `{EqDecision A} (l : list A) :
  length (remove_dups l) = length l ↔ NoDup l.
Proof.
  split; [|by intros ->%remove_dups_NoDup].
  induction l as [|x l IH]; simpl; [constructor|].
  pose proof (length_remove_dups_le l).
  destruct (decide_rel _ _ _); simpl; [lia|].
  intros [=]. constructor; auto.
Qed.

(** The aggregate of frames whose rows all have a time never has more rows
    than the frames together, and as many when no label occurs twice. *)
Lemma df_agg_row_count (dfs : list DataFrame) (Hne : dfs ≠ []) :
  ∃ out, df_agg dfs = inr out ∧
    (length (rows out) ≤ total_sample_count dfs)%nat ∧
    (length (rows out) = total_sample_count dfs ↔ NoDup (concat_rows dfs).*1).
Proof.
  eexists. split; [by apply df_agg_unfold|]. simpl.
  rewrite <-length_concat_rows.
  rewrite <-(length_fmap fst (agg_rows _)), agg_rows_index.
  rewrite group_keys_Permutation, <-(length_fmap fst (concat_rows dfs)).
  split; [apply length_remove_dups_le|apply length_remove_dups_eq].
Qed.

Lemma concat_rows_app (dfs1 dfs2 : list DataFrame) :
  concat_rows (dfs1 ++ dfs2) = concat_rows dfs1 ++ concat_rows dfs2.
Proof. unfold concat_rows. by rewrite fmap_app, join_app. Qed.

Lemma group_rows_app (t : Z) (rs1 rs2 : list row) :
  group_rows t (rs1 ++ rs2) = group_rows t rs1 ++ group_rows t rs2.
Proof. apply filter_app. Qed.

Lemma cells_max_empty_l (a : cells) : cells_max ∅ a = a.
Proof. by rewrite cells_max_comm, cells_max_empty_r. Qed.

Lemma group_max_app (rs1 rs2 : list row) :
  group_max (rs1 ++ rs2) = cells_max (group_max rs1) (group_max rs2).
Proof.
  unfold group_max. rewrite fmap_app, foldr_app.
  induction (rs1.*2) as [|a l IH]; simpl; [by rewrite cells_max_empty_l|].
  by rewrite IH, cells_max_assoc.
Qed.

Lemma cells_max_ge_l (a b : cells) (c : string) (v : Z) :
  a !! c = Some v → ∃ v', cells_max a b !! c = Some v' ∧ v ≤ v'.
Proof.
  intros Ha. rewrite cells_max_lookup, Ha.
  destruct (b !! c) as [w|]; simpl; eexists; split; [done|lia|done|lia].
Qed.

(** X3. Loading more fragments never loses a row and never lowers a value:
    every row of the aggregate of [dfs] has a row of the same label in the
    aggregate of [dfs ++ more], and every cell of it that has a value has a
    value at least as great there. *)
Theorem aggregate_grows (dfs more : list DataFrame) (Hne : dfs ≠ []) :
  ∃ out out', df_agg dfs = inr out ∧ df_agg (dfs ++ more) = inr out' ∧
    ∀ t m, (t, m) ∈ rows out →
      ∃ m', (t, m') ∈ rows out' ∧
            ∀ c v, m !! c = Some v → ∃ v', m' !! c = Some v' ∧ v ≤ v'.
Proof.
  do 2 eexists. split_and!; [by apply df_agg_unfold| |].
  { apply df_agg_unfold. by destruct dfs. }
  simpl. intros t m [Ht ->]%elem_of_agg_rows. eexists. split.
  - apply elem_of_agg_rows. split; [|done].
    rewrite concat_rows_app, fmap_app. apply elem_of_app. by left.
  - intros c v Hv. rewrite concat_rows_app, group_rows_app, group_max_app.
    by apply cells_max_ge_l.
Qed.

Lemma aggregate_grows_witness :
  [fragment1] ≠ [] ∧
  ∃ out out', df_agg [fragment1] = inr out ∧
    df_agg ([fragment1] ++ [fragment2]) = inr out' ∧
    ∀ t m, (t, m) ∈ rows out →
      ∃ m', (t, m') ∈ rows out' ∧
            ∀ c v, m !! c = Some v → ∃ v', m' !! c = Some v' ∧ v ≤ v'.
Proof.
  split; [discriminate|].
  apply (aggregate_grows [fragment1] [fragment2]). discriminate.
Defined.

Lemma group_rows_absent (t : Z) (rs : list row) :
  t ∉ rs.*1 → group_rows t rs = [].
Proof.
  intros Ht. unfold group_rows. induction rs as [|r rs IH]; [done|].
  apply not_elem_of_cons in Ht as [Hr Ht]. rewrite filter_cons.
  rewrite decide_False by done. by apply IH.
Qed.

Lemma group_max_agg_rows (t : Z) (rs : list row) :
  group_max (group_rows t (agg_rows rs)) = group_max (group_rows t rs).
Proof.
  destruct (decide (t ∈ rs.*1)) as [Hin|Hnin].
  - unfold agg_rows. rewrite group_rows_singleton_key;
      [|apply group_keys_NoDup|by apply elem_of_group_keys].
    unfold group_max at 1. simpl. apply cells_max_empty_r.
  - rewrite (group_rows_absent t rs) by done.
    rewrite group_rows_absent; [done|].
    by rewrite agg_rows_index, elem_of_group_keys.
Qed.

Lemma agg_rows_app (rs1 rs2 : list row) :
  agg_rows (agg_rows rs1 ++ agg_rows rs2) = agg_rows (rs1 ++ rs2).
Proof.
  unfold agg_rows at 1 4.
  rewrite (group_keys_ext (agg_rows rs1 ++ agg_rows rs2).*1 (rs1 ++ rs2).*1).
  - apply list_fmap_ext. intros _ t _. f_equal.
    by rewrite !group_rows_app, !group_max_app, !group_max_agg_rows.
  - intros t. rewrite !fmap_app, !elem_of_app, !agg_rows_index.
    by rewrite !elem_of_group_keys.
Qed.

Lemma remove_dups_app_disjoint {A} `{EqDecision A} (l k : list A) :
  NoDup k → (∀ x, x ∈ l → x ∉ k) → remove_dups (l ++ k) = remove_dups l ++ k.
Proof.
  intros Hk Hd. induction l as [|x l IH]; simpl.
  { by apply remove_dups_NoDup. }
  assert (Hd' : ∀ y, y ∈ l → y ∉ k) by (intros y Hy; apply Hd; by right).
  rewrite IH by done.
  destruct (decide_rel _ x (l ++ k)) as [Hin|Hnin],
           (decide_rel _ x l) as [Hin'|Hnin']; try done.
  - apply elem_of_app in Hin as [?|Hin]; [done|]. destruct (Hd x); [by left|done].
  - destruct Hnin. apply elem_of_app. by left.
Qed.

Lemma union_columns_assoc (a b c : list string) :
  union_columns (union_columns a b) c = union_columns a (union_columns b c).
Proof.
  unfold union_columns.
  rewrite (remove_dups_app_disjoint b).
  - rewrite filter_app, <-app_assoc. do 2 f_equal.
    rewrite list_filter_filter. apply list_filter_iff. intros x.
    rewrite elem_of_app, list_elem_of_filter, elem_of_remove_dups.
    destruct (decide (x ∈ a)); tauto.
  - apply NoDup_filter, NoDup_remove_dups.
  - intros x Hx [Hn _]%list_elem_of_filter. done.
Qed.

Lemma union_columns_nil_r (a : list string) : union_columns a [] = a.
Proof. unfold union_columns. simpl. by rewrite app_nil_r. Qed.

Lemma foldl_union_columns (a b : list string) (dfs : list DataFrame) :
  foldl (λ acc df, union_columns acc (columns df)) (union_columns a b) dfs =
  union_columns a (foldl (λ acc df, union_columns acc (columns df)) b dfs).
Proof.
  revert b. induction dfs as [|df dfs IH]; intros b; simpl; [done|].
  by rewrite union_columns_assoc, IH.
Qed.

Lemma concat_columns_app (dfs1 dfs2 : list DataFrame) :
  concat_columns (dfs1 ++ dfs2) =
  union_columns (concat_columns dfs1) (concat_columns dfs2).
Proof.
  unfold concat_columns. rewrite foldl_app.
  rewrite <-(union_columns_nil_r (foldl _ [] dfs1)) at 1.
  apply foldl_union_columns.
Qed.

(** X4. Reconciling in batches: the aggregates of two non-empty batches of
    fragments, reconciled as two fragments, give the aggregate of all the
    fragments, columns included. *)
Theorem aggregate_in_batches (dfs1 dfs2 : list DataFrame)
    (H1 : dfs1 ≠ []) (H2 : dfs2 ≠ []) :
  ∃ out1 out2 out,
    df_agg dfs1 = inr out1 ∧ df_agg dfs2 = inr out2 ∧
    df_agg (dfs1 ++ dfs2) = inr out ∧ df_agg [out1; out2] = inr out.
Proof.
  do 3 eexists. split_and!; [by apply df_agg_unfold..| |].
  { apply df_agg_unfold. by destruct dfs1. }
  rewrite df_agg_unfold by done. f_equal. f_equal.
  - change [?x; ?y] with ([x] ++ [y]). rewrite !concat_columns_app.
    by rewrite !concat_columns_singleton by apply concat_columns_NoDup.
  - unfold concat_rows at 1. simpl. rewrite app_nil_r.
    rewrite agg_rows_app. by rewrite concat_rows_app.
Qed.

Lemma aggregate_in_batches_witness :
  [fragment1] ≠ [] ∧ [fragment2] ≠ [] ∧
  ∃ out1 out2 out,
    df_agg [fragment1] = inr out1 ∧ df_agg [fragment2] = inr out2 ∧
    df_agg ([fragment1] ++ [fragment2]) = inr out ∧
    df_agg [out1; out2] = inr out.
Proof.
  split; [discriminate|]. split; [discriminate|].
  apply (aggregate_in_batches [fragment1] [fragment2]); discriminate.
Defined.

Lemma group_rows_NoDup (rs : list row) (r : row) :
  NoDup rs.*1 → r ∈ rs → group_rows r.1 rs = [r].
Proof.
  unfold group_rows. induction rs as [|r' rs IH]; intros Hnd Hin.
  { by apply elem_of_nil in Hin. }
  rewrite fmap_cons in Hnd. apply NoDup_cons in Hnd as [Hr' Hnd].
  rewrite filter_cons. apply elem_of_cons in Hin as [->|Hin].
  - rewrite decide_True by done. f_equal.
    apply (group_rows_absent r'.1 rs Hr').
  - rewrite decide_False; [by apply IH|].
    intros Heq. apply Hr'. rewrite Heq. by apply list_elem_of_fmap_2.
Qed.

Lemma group_max_singleton (r : row) : group_max [r] = r.2.
Proof. unfold group_max. simpl. apply cells_max_empty_r. Qed.

Lemma agg_rows_NoDup_Permutation (rs : list row) :
  NoDup rs.*1 → agg_rows rs ≡ₚ rs.
Proof.
  intros Hnd. apply NoDup_Permutation.
  - apply (NoDup_fmap_1 fst). rewrite agg_rows_index. apply group_keys_NoDup.
  - by apply (NoDup_fmap_1 fst).
  - intros [t m]. rewrite elem_of_agg_rows. split.
    + intros [(r & -> & Hr)%list_elem_of_fmap ->].
      rewrite group_rows_NoDup, group_max_singleton by done. by destruct r.
    + intros Hr. split; [by apply (list_elem_of_fmap_2 fst) in Hr|].
      pose proof (group_rows_NoDup rs (t, m) Hnd Hr) as Hg. simpl in Hg.
      by rewrite Hg, group_max_singleton.
Qed.

Lemma agg_rows_NoDup (rs : list row) :
  NoDup rs.*1 → agg_rows rs = sort_rows rs.
Proof.
  intros Hnd.
  apply (StronglySorted_unique_strong (λ a b : row, a.1 ≤ b.1)).
  - intros a b Ha Hb ??.
    rewrite agg_rows_NoDup_Permutation in Ha by done.
    rewrite sort_rows_Permutation in Hb.
    assert (Heq : a.1 = b.1) by lia.
    apply (group_rows_NoDup rs) in Ha, Hb; [|done..].
    rewrite Heq in Ha. congruence.
  - unfold agg_rows. eapply StronglySorted_fmap; [|apply group_keys_StronglySorted].
    simpl. lia.
  - apply Sorted_StronglySorted; [|apply sort_rows_Sorted].
    intros a b c. lia.
  - by rewrite agg_rows_NoDup_Permutation, sort_rows_Permutation.
Qed.

(** For frames whose rows all have a time and no label twice, the aggregate
    is the concatenated frame, sorted. *)
Lemma df_agg_without_overlap (dfs : list DataFrame)
    (Hne : dfs ≠ []) (Hnd : NoDup (concat_rows dfs).*1) :
  ∃ dfa, pd_concat dfs = inr dfa ∧ df_agg dfs = inr (sort_index dfa).
Proof.
  eexists. split.
  - by destruct dfs.
  - rewrite df_agg_unfold by done. unfold sort_index. simpl.
    by rewrite agg_rows_NoDup.
Qed.

Lemma column_max_spec (c : string) (df : DataFrame) :
  match column_max c df with
  | Some v => is_maximum v (column_values c df)
  | None => column_values c df = []
  end.
Proof.
  unfold column_max. induction (column_values c df) as [|x l IH]; [done|].
  simpl. destruct (foldr _ None l) as [w|].
  - destruct IH as [Hin Hle]. split.
    + destruct (Z.max_spec x w) as [[_ ->]|[_ ->]]; [by right|by left].
    + intros u [->|Hu]%elem_of_cons; [lia|]. apply Hle in Hu. lia.
  - subst l. split; [by left|]. by intros u ->%list_elem_of_singleton.
Qed.

Lemma column_max_Some (c : string) (df : DataFrame) (v : Z) :
  column_max c df = Some v ↔ is_maximum v (column_values c df).
Proof.
  pose proof (column_max_spec c df) as H.
  destruct (column_max c df) as [w|].
  - split; [by intros [= ->]|]. intros Hv. f_equal. by eapply is_maximum_unique.
  - rewrite H. split; [done|]. by intros [?%elem_of_nil _].
Qed.

Lemma elem_of_column_values (c : string) (df : DataFrame) (v : Z) :
  v ∈ column_values c df ↔ ∃ r, r ∈ rows df ∧ r.2 !! c = Some v.
Proof. unfold column_values. by rewrite list_elem_of_omap. Qed.

Lemma elem_of_observed (c : string) (t : Z) (rs : list row) (v : Z) :
  v ∈ observed c t rs ↔ ∃ r, r ∈ rs ∧ r.1 = t ∧ r.2 !! c = Some v.
Proof.
  unfold observed, group_rows. rewrite list_elem_of_omap. split.
  - intros (r & [Ht Hr]%list_elem_of_filter & Hv). by exists r.
  - intros (r & Hr & Ht & Hv). exists r. split; [|done].
    by apply list_elem_of_filter.
Qed.

(** The maximum of a column of the aggregate is the maximum of that column
    over the rows of the frames. *)
Lemma df_agg_column_max (dfs : list DataFrame) (c : string) (v : Z)
    (Hne : dfs ≠ []) :
  ∃ out, df_agg dfs = inr out ∧
    (column_max c out = Some v ↔
     is_maximum v (omap (λ r : row, r.2 !! c) (concat_rows dfs))).
Proof.
  eexists. split; [by apply df_agg_unfold|].
  rewrite column_max_Some. set (rs := concat_rows dfs).
  assert (Hout : ∀ w, w ∈ column_values c (mkDataFrame (concat_columns dfs) (agg_rows rs)) ↔
                      ∃ t, is_maximum w (observed c t rs)).
  { intros w. rewrite elem_of_column_values. simpl. split.
    - intros ([t m] & [Ht ->]%elem_of_agg_rows & Hw). exists t.
      by apply group_max_Some.
    - intros [t Hmax]. exists (t, group_max (group_rows t rs)). split.
      + apply elem_of_agg_rows. split; [|done].
        destruct Hmax as [(r & Hr & <- & _)%elem_of_observed _].
        by apply list_elem_of_fmap_2.
      + by apply group_max_Some. }
  assert (Hall : ∀ w, w ∈ omap (λ r : row, r.2 !! c) rs ↔ ∃ t, w ∈ observed c t rs).
  { intros w. rewrite list_elem_of_omap. setoid_rewrite elem_of_observed. split.
    - intros (r & Hr & Hv). by exists r.1, r.
    - intros (t & r & Hr & _ & Hv). by exists r. }
  assert (Hex : ∀ t w, w ∈ observed c t rs →
                  ∃ w', is_maximum w' (observed c t rs) ∧ w ≤ w').
  { intros t w Hw. pose proof (group_max_spec c (group_rows t rs)) as Hs.
    fold (observed c t rs) in Hs.
    destruct (group_max (group_rows t rs) !! c) as [w'|].
    - exists w'. split; [done|]. by apply Hs.
    - rewrite Hs in Hw. by apply elem_of_nil in Hw. }
  unfold is_maximum at 1 2. setoid_rewrite Hout. setoid_rewrite Hall. split.
  - intros [[t Hmax] Hle]. split; [exists t; apply Hmax|].
    intros w [t' Hw]. destruct (Hex t' w Hw) as (w' & Hw' & ?).
    specialize (Hle w' (ex_intro _ t' Hw')). lia.
  - intros [[t Hv] Hle]. destruct (Hex t v Hv) as (w' & Hw' & ?).
    assert (w' ≤ v) by (apply Hle; exists t; apply Hw').
    assert (w' = v) as -> by lia. split; [by exists t|].
    intros w [t' Hw]. apply Hle. exists t'. apply Hw.
Qed.

End reconciliation_theorems.

(** ** Fragments with rows that have no time *)

Section fragment_lemmas.
Import Scalar.

Lemma insert_sample_Permutation (r : sample) (rs : list sample) :
  insert_sample r rs ≡ₚ r :: rs.
Proof.
  induction rs as [|r' rs IH]; simpl; [done|].
  case_decide; [done|]. rewrite IH. apply perm_swap.
Qed.

Lemma sort_samples_Permutation (rs : list sample) : sort_samples rs ≡ₚ rs.
Proof.
  induction rs as [|r rs IH]; simpl; [done|].
  by rewrite insert_sample_Permutation, IH.
Qed.

Lemma timed_rows_app (l k : list sample) :
  timed_rows (l ++ k) = timed_rows l ++ timed_rows k.
Proof. apply omap_app. Qed.

Lemma timed_rows_index (rs : list sample) : (timed_rows rs).*1 = omap fst rs.
Proof.
  induction rs as [|[[t|] m] rs IH]; csimpl; [done| |done]. by rewrite IH.
Qed.

Lemma timed_rows_group (t : Z) (rs : list sample) :
  group_rows t (timed_rows rs) = timed_rows (filter (λ r : sample, r.1 = Some t) rs).
Proof.
  unfold group_rows. induction rs as [|[[u|] m] rs IH]; csimpl; [done| |].
  - rewrite !filter_cons. simpl.
    destruct (decide (u = t)) as [->|Hne].
    + rewrite decide_True by done. csimpl. by rewrite IH.
    + rewrite decide_False by congruence. done.
  - rewrite filter_cons_False by done. done.
Qed.

Lemma timed_rows_cells (t : Z) (rs : list sample) :
  (timed_rows (filter (λ r : sample, r.1 = Some t) rs)).*2 =
  (filter (λ r : sample, r.1 = Some t) rs).*2.
Proof.
  induction rs as [|[[u|] m] rs IH]; [done| |].
  - rewrite filter_cons. simpl. case_decide; [|done]. csimpl. by rewrite IH.
  - by rewrite filter_cons_False.
Qed.

Lemma concat_rows_timed (fs : list Fragment) :
  concat_rows (timed <$> fs) = timed_rows (concat_samples fs).
Proof.
  unfold concat_rows, concat_samples.
  induction fs as [|f fs IH]; [done|]. csimpl. by rewrite timed_rows_app, IH.
Qed.

Lemma concat_columns_timed (fs : list Fragment) :
  concat_columns (timed <$> fs) =
  foldl (λ acc f, union_columns acc (fragment_columns f)) [] fs.
Proof. unfold concat_columns. by rewrite foldl_fmap. Qed.

Lemma timed_rows_Permutation (l k : list sample) :
  l ≡ₚ k → timed_rows l ≡ₚ timed_rows k.
Proof. intros H. unfold timed_rows. by rewrite H. Qed.

Lemma groupby_samples_max_timed (rs : list sample) :
  groupby_samples_max rs = agg_rows (timed_rows rs).
Proof.
  unfold groupby_samples_max, agg_rows. rewrite timed_rows_index.
  apply list_fmap_ext. intros _ t _. f_equal.
  by rewrite timed_rows_group, <-timed_rows_cells.
Qed.

(** The aggregate of fragments is the aggregate of their rows that have a
    time. *)
Lemma fragments_agg_timed (fs : list Fragment) :
  fragments_agg fs = df_agg (timed <$> fs).
Proof.
  destruct fs as [|f fs]; [done|].
  rewrite df_agg_unfold by done. unfold fragments_agg, ret. do 2 f_equal.
  - by rewrite concat_columns_timed.
  - rewrite groupby_samples_max_timed, concat_rows_timed.
    apply groupby_rows_Permutation, timed_rows_Permutation,
      sort_samples_Permutation.
Qed.

(** The row of [sample_nat] that has no time, with the greatest value of
    the column, is in no group. *)
Lemma fragments_agg_sample_nat :
  fragments_agg [sample_nat] =
    inr (mkDataFrame ["clones_total"] [(20201201, {["clones_total" := 10]})]).
Proof. reflexivity. Qed.

End fragment_lemmas.

Section fragment_theorems.
Import Scalar.

Lemma length_timed_rows_le (rs : list sample) :
  (length (timed_rows rs) ≤ length rs)%nat.
Proof.
  induction rs as [|[[t|] m] rs IH]; csimpl; [done|lia|lia].
Qed.

Lemma length_timed_rows_eq (rs : list sample) :
  length (timed_rows rs) = length rs ↔ None ∉ rs.*1.
Proof.
  induction rs as [|[[t|] m] rs IH]; csimpl.
  - split; [intros _; apply not_elem_of_nil|done].
  - rewrite not_elem_of_cons. split.
    + intros [= H]. split; [done|]. by apply IH.
    + intros [_ H]. f_equal. by apply IH.
  - pose proof (length_timed_rows_le rs) as Hle. split; [lia|].
    intros H. destruct H. by left.
Qed.

Lemma labels_timed (rs : list sample) :
  None ∉ rs.*1 → rs.*1 = Some <$> (timed_rows rs).*1.
Proof.
  induction rs as [|[[t|] m] rs IH]; csimpl; [done| |].
  - intros [_ H]%not_elem_of_cons. f_equal. by apply IH.
  - intros H. destruct H. by left.
Qed.

Lemma samples_timed (rs : list sample) :
  None ∉ rs.*1 → rs = (λ r : row, (Some r.1, r.2)) <$> timed_rows rs.
Proof.
  induction rs as [|[[t|] m] rs IH]; csimpl; [done| |].
  - intros [_ H]%not_elem_of_cons. f_equal. by apply IH.
  - intros H. destruct H. by left.
Qed.

Lemma length_concat_samples (fs : list Fragment) :
  length (concat_samples fs) = sample_count fs.
Proof.
  unfold concat_samples, sample_count.
  induction fs as [|f fs IH]; [done|]. csimpl. by rewrite length_app, IH.
Qed.

Lemma insert_sample_timed (r : row) (rs : list row) :
  insert_sample (Some r.1, r.2) ((λ r : row, (Some r.1, r.2)) <$> rs) =
  (λ r : row, (Some r.1, r.2)) <$> insert_row r rs.
Proof.
  induction rs as [|r' rs IH]; [done|].
  rewrite fmap_cons. cbn [insert_sample insert_row fst snd].
  destruct (decide (label_le (Some r.1) (Some r'.1))) as [Hle|Hle];
    simpl in Hle.
  - by rewrite decide_True by done.
  - rewrite decide_False by done. by rewrite IH.
Qed.

Lemma sort_samples_timed (rs : list row) :
  sort_samples ((λ r : row, (Some r.1, r.2)) <$> rs) =
  (λ r : row, (Some r.1, r.2)) <$> sort_rows rs.
Proof.
  induction rs as [|r rs IH]; [done|]. csimpl.
  by rewrite IH, insert_sample_timed.
Qed.

Lemma timed_rows_values (c : string) (rs : list sample) :
  omap (λ r : row, r.2 !! c) (timed_rows rs) =
  omap (λ r : sample, r.2 !! c) (filter (λ r : sample, is_Some r.1) rs).
Proof.
  induction rs as [|[[t|] m] rs IH]; [done| |].
  - rewrite filter_cons_True by (by eexists). csimpl. by rewrite IH.
  - rewrite filter_cons_False by (by intros [? ?]). done.
Qed.

(** X2. The aggregate never has more rows than the total sample count
    logged on line 372, and it has exactly that many when no label occurs
    twice and no row lacks its time: [groupby] drops the rows without a
    time. *)
Theorem aggregate_row_count (fs : list Fragment) (Hne : fs ≠ []) :
  ∃ out, fragments_agg fs = inr out ∧
    (length (rows out) ≤ sample_count fs)%nat ∧
    (length (rows out) = sample_count fs ↔
     NoDup (concat_samples fs).*1 ∧ None ∉ (concat_samples fs).*1).
Proof.
  rewrite fragments_agg_timed.
  destruct (df_agg_row_count (timed <$> fs)) as (out & Hout & Hle & Heq).
  { by destruct fs. }
  exists out. split; [done|].
  rewrite <-length_concat_rows, concat_rows_timed in Hle, Heq.
  rewrite <-length_concat_samples.
  pose proof (length_timed_rows_le (concat_samples fs)) as Hle'.
  pose proof (length_timed_rows_eq (concat_samples fs)) as Heq'.
  split; [lia|]. split.
  - intros H. assert (Hnat : None ∉ (concat_samples fs).*1) by (apply Heq'; lia).
    split; [|done]. rewrite labels_timed by done.
    apply (NoDup_fmap_2 Some), Heq. apply Heq' in Hnat. lia.
  - intros [Hnd Hnat]. rewrite labels_timed in Hnd by done.
    apply (NoDup_fmap_1 Some), Heq in Hnd. apply Heq' in Hnat. lia.
Qed.

Lemma aggregate_row_count_witness :
  [sample_a; sample_nat] ≠ [] ∧
  ∃ out, fragments_agg [sample_a; sample_nat] = inr out ∧
    (length (rows out) ≤ sample_count [sample_a; sample_nat])%nat ∧
    (length (rows out) = sample_count [sample_a; sample_nat] ↔
     NoDup (concat_samples [sample_a; sample_nat]).*1 ∧
     None ∉ (concat_samples [sample_a; sample_nat]).*1).
Proof.
  split; [discriminate|].
  apply (aggregate_row_count [sample_a; sample_nat]). discriminate.
Defined.

(** X5. When no label occurs twice in the fragments and no row lacks its
    time, taking the maximum per label changes nothing: the aggregate is the
    concatenated frame, sorted by label, with the columns of the
    fragments. *)
Theorem aggregate_without_overlap (fs : list Fragment)
    (Hne : fs ≠ [])
    (Hnd : NoDup (concat_samples fs).*1)
    (Hnat : None ∉ (concat_samples fs).*1) :
  ∃ out, fragments_agg fs = inr out ∧
    columns out = foldl (λ acc f, union_columns acc (fragment_columns f)) [] fs ∧
    (λ r : row, (Some r.1, r.2)) <$> rows out =
      sort_samples (concat_samples fs).
Proof.
  rewrite fragments_agg_timed.
  assert (Hne' : timed <$> fs ≠ []) by (by destruct fs).
  rewrite df_agg_unfold by done. eexists. split; [done|]. simpl.
  split; [apply concat_columns_timed|].
  rewrite concat_rows_timed.
  rewrite labels_timed in Hnd by done. apply (NoDup_fmap_1 Some) in Hnd.
  rewrite agg_rows_NoDup by done.
  rewrite <-sort_samples_timed. by rewrite <-samples_timed.
Qed.

Lemma aggregate_without_overlap_witness :
  [sample_a; sample_b] ≠ [] ∧
  NoDup (concat_samples [sample_a; sample_b]).*1 ∧
  (None ∉ (concat_samples [sample_a; sample_b]).*1) ∧
  ∃ out, fragments_agg [sample_a; sample_b] = inr out ∧
    columns out =
      foldl (λ acc f, union_columns acc (fragment_columns f)) []
        [sample_a; sample_b] ∧
    (λ r : row, (Some r.1, r.2)) <$> rows out =
      sort_samples (concat_samples [sample_a; sample_b]).
Proof.
  assert (Hnd : NoDup (concat_samples [sample_a; sample_b]).*1) by compute_done.
  assert (Hnat : None ∉ (concat_samples [sample_a; sample_b]).*1) by compute_done.
  split; [discriminate|]. split; [exact Hnd|]. split; [exact Hnat|].
  apply (aggregate_without_overlap [sample_a; sample_b]);
    [discriminate|exact Hnd|exact Hnat].
Defined.

(** X6. The upper end of the scale of a chart, [df_agg[c].max()], is the
    greatest value the column [c] has in a row that has a time, over all
    fragments; a row without a time does not count, whatever it holds. *)
Theorem aggregate_column_max (fs : list Fragment) (c : string) (v : Z)
    (Hne : fs ≠ []) :
  ∃ out, fragments_agg fs = inr out ∧
    (column_max c out = Some v ↔
     is_maximum v
       (omap (λ r : sample, r.2 !! c)
          (filter (λ r : sample, is_Some r.1) (concat_samples fs)))).
Proof.
  rewrite fragments_agg_timed.
  destruct (df_agg_column_max (timed <$> fs) c v) as (out & Hout & Hmax).
  { by destruct fs. }
  exists out. split; [done|].
  by rewrite Hmax, concat_rows_timed, timed_rows_values.
Qed.

Lemma aggregate_column_max_witness :
  [sample_a; sample_nat] ≠ [] ∧
  ∃ out, fragments_agg [sample_a; sample_nat] = inr out ∧
    (column_max "clones_total" out = Some 25 ↔
     is_maximum 25
       (omap (λ r : sample, r.2 !! "clones_total")
          (filter (λ r : sample, is_Some r.1)
             (concat_samples [sample_a; sample_nat])))).
Proof.
  split; [discriminate|].
  apply (aggregate_column_max [sample_a; sample_nat] "clones_total" 25).
  discriminate.
Defined.

End fragment_theorems.

(** ** The frames of the charts *)

Section chart_theorems.
Import Scalar.

Lemma subseteq_cons_r_ne (l k : list string) (c : string) :
  c ∉ l → l ⊆ c :: k ↔ l ⊆ k.
Proof.
  intros Hc. split; intros H x Hx.
  - apply H in Hx as Hx'. apply elem_of_cons in Hx' as [->|?]; done.
  - right. by apply H.
Qed.

Lemma counters_split (cols : list string) :
  counters ⊆ cols ↔
  ["clones_unique"; "clones_total"] ⊆ cols ∧ ["views_unique"; "views_total"] ⊆ cols.
Proof.
  unfold counters. split.
  - intros H. split; intros c Hc; apply H.
    + by apply (elem_of_app [_; _]); left.
    + by apply (elem_of_app [_; _]); right.
  - intros [H1 H2] c Hc.
    change (c ∈ ["clones_unique"; "clones_total"] ++ ["views_unique"; "views_total"]) in Hc.
    apply elem_of_app in Hc as [?|?]; auto.
Qed.

(** X7. Lines 414 to 416 go through exactly when the aggregate has the
    four counter columns and no column [time]: a column [time] makes
    [reset_index] raise, and a missing counter column makes [drop] raise. *)
Theorem chart_frames_outcomes (df_agg : DataFrame) :
  ("time" ∈ columns df_agg ∧ chart_frames df_agg = inl CannotInsert) ∨
  (("time" ∉ columns df_agg) ∧ ¬ (counters ⊆ columns df_agg) ∧
   chart_frames df_agg = inl NotFoundInAxis) ∨
  (("time" ∉ columns df_agg) ∧ counters ⊆ columns df_agg ∧
   ∃ views clones, chart_frames df_agg = inr (views, clones)).
Proof.
  unfold chart_frames, reset_index. rewrite counters_split.
  destruct (decide ("time" ∈ columns df_agg)) as [Ht|Ht]; [by left|right].
  unfold drop_columns. simpl.
  destruct (decide (["clones_unique"; "clones_total"] ⊆ "time" :: columns df_agg))
    as [Hc|Hc]; rewrite subseteq_cons_r_ne in Hc by compute_done.
  - destruct (decide (["views_unique"; "views_total"] ⊆ "time" :: columns df_agg))
      as [Hv|Hv]; rewrite subseteq_cons_r_ne in Hv by compute_done.
    + right. split_and!; [done..|by eexists _, _].
    + left. split_and!; [done| |done]. by intros [_ ?].
  - left. split_and!; [done| |done]. by intros [? _].
Qed.

Lemma lookup_drop_time (labels : list string) (t : Z) (m : cells) :
  "time" ∉ labels →
  filter (λ kv : string * Z, kv.1 ∉ labels) (<["time" := t]> m) !! "time" = Some t.
Proof.
  intros Hl. apply map_lookup_filter_Some. split; [|done].
  apply lookup_insert_eq.
Qed.

Lemma lookup_drop_kept (labels : list string) (t : Z) (m : cells) (c : string) :
  c ≠ "time" → c ∉ labels →
  filter (λ kv : string * Z, kv.1 ∉ labels) (<["time" := t]> m) !! c = m !! c.
Proof.
  intros Hc Hl. apply option_eq. intros v.
  rewrite map_lookup_filter_Some, lookup_insert_ne by done. simpl. tauto.
Qed.

Lemma lookup_drop_dropped (labels : list string) (m : cells) (c : string) :
  c ∈ labels → filter (λ kv : string * Z, kv.1 ∉ labels) m !! c = None.
Proof.
  intros Hl. apply map_lookup_filter_None. right. intros v _ Hn. by apply Hn.
Qed.

(** X8. What the two chart frames hold: the column [time] first, then the
    columns of the aggregate without the two dropped ones; one row per row
    of the aggregate, in order, numbered from 0, whose [time] is the label
    of that row, whose kept counters are those of that row and whose dropped
    counters are absent. *)
Theorem chart_frames_content (df_agg views clones : DataFrame)
    (H : chart_frames df_agg = inr (views, clones)) :
  columns views =
    "time" :: filter (λ c, c ∉ ["clones_unique"; "clones_total"]) (columns df_agg) ∧
  columns clones =
    "time" :: filter (λ c, c ∉ ["views_unique"; "views_total"]) (columns df_agg) ∧
  length (rows views) = length (rows df_agg) ∧
  length (rows clones) = length (rows df_agg) ∧
  ∀ (i : nat) (t : Z) (m : cells), rows df_agg !! i = Some (t, m) →
    ∃ mv mc,
      rows views !! i = Some (Z.of_nat i, mv) ∧
      rows clones !! i = Some (Z.of_nat i, mc) ∧
      mv !! "time" = Some t ∧ mc !! "time" = Some t ∧
      (∀ c, c ∈ ["views_unique"; "views_total"] →
         mv !! c = m !! c ∧ mc !! c = None) ∧
      (∀ c, c ∈ ["clones_unique"; "clones_total"] →
         mc !! c = m !! c ∧ mv !! c = None).
Proof.
  unfold chart_frames, reset_index in H.
  destruct (decide ("time" ∈ columns df_agg)) as [|Ht]; [done|].
  unfold drop_columns in H. simpl in H.
  repeat case_decide; try done. injection H as <- <-. simpl.
  rewrite !filter_cons_True by compute_done.
  rewrite !length_fmap, !length_imap. split_and!; [done..|].
  intros i t m Hi. do 2 eexists.
  rewrite !list_lookup_fmap, !list_lookup_imap, Hi. simpl. split_and!; [done..| | | |].
  - by apply lookup_drop_time; compute_done.
  - by apply lookup_drop_time; compute_done.
  - intros c Hc. split; [|by apply lookup_drop_dropped].
    apply elem_of_cons in Hc as [->|[->|[]%elem_of_nil]%elem_of_cons];
      by apply lookup_drop_kept; compute_done.
  - intros c Hc. split; [|by apply lookup_drop_dropped].
    apply elem_of_cons in Hc as [->|[->|[]%elem_of_nil]%elem_of_cons];
      by apply lookup_drop_kept; compute_done.
Qed.

Lemma chart_frames_content_witness :
  ∃ views clones,
    chart_frames fragment_four = inr (views, clones) ∧
    columns views =
      "time" :: filter (λ c, c ∉ ["clones_unique"; "clones_total"])
                  (columns fragment_four) ∧
    columns clones =
      "time" :: filter (λ c, c ∉ ["views_unique"; "views_total"])
                  (columns fragment_four) ∧
    length (rows views) = length (rows fragment_four) ∧
    length (rows clones) = length (rows fragment_four) ∧
    ∀ (i : nat) (t : Z) (m : cells), rows fragment_four !! i = Some (t, m) →
      ∃ mv mc,
        rows views !! i = Some (Z.of_nat i, mv) ∧
        rows clones !! i = Some (Z.of_nat i, mc) ∧
        mv !! "time" = Some t ∧ mc !! "time" = Some t ∧
        (∀ c, c ∈ ["views_unique"; "views_total"] →
           mv !! c = m !! c ∧ mc !! c = None) ∧
        (∀ c, c ∈ ["clones_unique"; "clones_total"] →
           mc !! c = m !! c ∧ mv !! c = None).
Proof.
  destruct (chart_frames fragment_four) as [e|[views clones]] eqn:H.
  - exfalso. vm_compute in H. discriminate.
  - exists views, clones. split; [reflexivity|].
    apply (chart_frames_content fragment_four views clones H).
Defined.

End chart_theorems.

(** ** The per-referrer frames and the outcomes of the analysis *)

Section partition_lemmas.
Import Strptime Referrer.

Lemma insert_trow_Sorted (r : trow) (rs : list trow) :
  Sorted (λ a b : trow, dt_key a.1 ≤ dt_key b.1) rs →
  Sorted (λ a b : trow, dt_key a.1 ≤ dt_key b.1) (insert_trow r rs).
Proof.
  induction 1 as [|r' rs Hs IH Hhd]; simpl; [by repeat constructor|].
  case_decide.
  - by repeat constructor.
  - constructor; [done|]. destruct Hhd; simpl.
    + constructor. lia.
    + case_decide; constructor; lia.
Qed.

Lemma sort_index_Sorted (rs : list trow) :
  Sorted (λ a b : trow, dt_key a.1 ≤ dt_key b.1) (sort_index rs).
Proof.
  induction rs; simpl; [constructor|by apply insert_trow_Sorted].
Qed.

(** Counting the rows of each key of a duplicate-free list of keys counts
    the rows whose key is in the list. *)
Lemma sum_length_filter {A} (f : A → string) (keys : list string) (rs : list A) :
  NoDup keys →
  sum_list ((λ k, length (filter (λ r, f r = k) rs)) <$> keys) =
  length (filter (λ r, f r ∈ keys) rs).
Proof.
  induction 1 as [|k keys Hk Hnd IH]; csimpl.
  { induction rs as [|r rs IHrs]; [done|].
    rewrite filter_cons_False; [done|]. apply not_elem_of_nil. }
  rewrite IH. clear IH. induction rs as [|r rs IHrs]; [done|].
  rewrite !filter_cons.
  destruct (decide (f r = k)) as [Heq|Hne], (decide (f r ∈ keys)) as [Hin|Hnin],
    (decide (f r ∈ k :: keys)) as [Hin'|Hnin']; simpl; try lia;
    first [ by rewrite Heq in Hin
          | by (destruct Hnin'; rewrite Heq; left)
          | by (destruct Hnin'; right)
          | by apply elem_of_cons in Hin' as [?|?] ].
Qed.

Lemma filter_Forall_id {A} (P : A → Prop) `{!∀ x, Decision (P x)} (l : list A) :
  Forall P l → filter P l = l.
Proof.
  induction 1 as [|x l Hx _ IH]; [done|].
  by rewrite filter_cons_True, IH.
Qed.

End partition_lemmas.

Section partition_theorems.
Import Strptime Referrer.

(** X9. The dictionary [referrer_dfs] partitions the rows of [dfa]: its
    keys are pairwise distinct, every frame in it is non-empty, holds the
    rows of its referrer and no other row, in ascending order of time, and
    the frames together have as many rows as [dfa]. *)
Theorem referrer_dfs_partition
    (set_iter : gset string → list string) (Hiter : lists_elements set_iter)
    (dfs : list DataFrame) :
  let dfa := dfa_of dfs in
  let rdfs := referrer_dfs set_iter dfa (referrers dfs) in
  NoDup rdfs.*1 ∧
  sum_list ((λ kv, length kv.2) <$> rdfs) = length dfa ∧
  ∀ name rdf, (name, rdf) ∈ rdfs →
    rdf ≠ [] ∧
    rdf ≡ₚ filter (λ r, referrer r.2 = name) dfa ∧
    Sorted (λ a b : trow, dt_key a.1 ≤ dt_key b.1) rdf.
Proof.
  intros dfa rdfs. unfold rdfs. rewrite referrers_names_of. fold dfa.
  unfold referrer_dfs. rewrite <-!list_fmap_compose. split_and!.
  - erewrite (list_fmap_ext _ id) by done.
    rewrite list_fmap_id. by apply keys_NoDup.
  - erewrite (list_fmap_ext _
               (λ k, length (filter (λ r : trow, referrer r.2 = k) dfa))).
    + rewrite sum_length_filter by (by apply keys_NoDup).
      f_equal. apply filter_Forall_id, Forall_forall. intros r Hr.
      apply elem_of_keys; [done|]. apply elem_of_names_of. by exists r.
    + intros _ k _. simpl. by rewrite rdf_of_Permutation.
  - intros name rdf (k & [= -> ->] & Hk)%list_elem_of_fmap. split_and!.
    + apply elem_of_keys in Hk; [|done].
      apply elem_of_names_of in Hk as (r & Hr & Hn). intros Hnil.
      assert (Hin : r ∈ rdf_of dfa k).
      { rewrite rdf_of_Permutation. by apply list_elem_of_filter. }
      rewrite Hnil in Hin. by apply elem_of_nil in Hin.
    + apply rdf_of_Permutation.
    + apply sort_index_Sorted.
Qed.

Lemma referrer_dfs_partition_witness :
  lists_elements elements ∧
  let dfa := dfa_of loaded12 in
  let rdfs := referrer_dfs elements dfa (referrers loaded12) in
  NoDup rdfs.*1 ∧
  sum_list ((λ kv, length kv.2) <$> rdfs) = length dfa ∧
  ∀ name rdf, (name, rdf) ∈ rdfs →
    rdf ≠ [] ∧
    rdf ≡ₚ filter (λ r, referrer r.2 = name) dfa ∧
    Sorted (λ a b : trow, dt_key a.1 ≤ dt_key b.1) rdf.
Proof.
  assert (H : lists_elements elements) by (intros s; reflexivity).
  split; [exact H|]. apply (referrer_dfs_partition elements H loaded12).
Defined.

End partition_theorems.

Section snapshot_outcome_lemmas.
Import Strptime Referrer.

Local Abbreviation cols_of := (λ pf : string * csv, rename_columns (header pf.2)).

Lemma read_snapshots_loop_seen (seen : gset string) (dfs : list DataFrame)
    (files : list (string * csv)) :
  seen ≠ ∅ →
  (read_snapshots_loop seen dfs files = inl TimestampParse ∧
   Exists (λ pf, snapshot_time_of pf.1 = None) files) ∨
  (read_snapshots_loop seen dfs files = inl SchemaMismatch ∧
   Exists (λ pf, list_to_set (cols_of pf) ≠ seen) files) ∨
  ((∃ out, read_snapshots_loop seen dfs files = inr out) ∧
   Forall (λ pf, is_Some (snapshot_time_of pf.1)) files ∧
   Forall (λ pf, list_to_set (cols_of pf) = seen) files).
Proof.
  intros Hne. revert dfs. induction files as [|[p f] files IH]; intros dfs; simpl.
  { right; right. split_and!; [by eexists|done..]. }
  destruct (snapshot_time_of p) as [t|] eqn:Ht.
  - rewrite columns_differ_seen by done.
    destruct (decide (list_to_set (rename_columns (header f)) = seen)) as [Heq|Hd].
    + rewrite bool_decide_eq_false_2 by (by intros []).
      rewrite Heq, union_idemp_L.
      destruct (IH (dfs ++ [mkDataFrame (rename_columns (header f)) t (body f)]))
        as [[-> Hex]|[[-> Hex]|(Hout & H1 & H2)]].
      * left. split; [done|]. by apply Exists_cons_tl.
      * right; left. split; [done|]. by apply Exists_cons_tl.
      * right; right. split_and!; [done|..]; constructor; simpl; by rewrite ?Ht.
    + rewrite bool_decide_eq_true_2 by done. right; left. split; [done|].
      by apply Exists_cons_hd.
  - left. split; [done|]. by apply Exists_cons_hd.
Qed.

Lemma read_snapshots_loop_empty (dfs : list DataFrame)
    (files : list (string * csv)) :
  (read_snapshots_loop ∅ dfs files = inl TimestampParse ∧
   Exists (λ pf, snapshot_time_of pf.1 = None) files) ∨
  (read_snapshots_loop ∅ dfs files = inl SchemaMismatch ∧
   ¬ agrees (cols_of <$> files)) ∨
  ((∃ out, read_snapshots_loop ∅ dfs files = inr out) ∧
   Forall (λ pf, is_Some (snapshot_time_of pf.1)) files ∧
   agrees (cols_of <$> files)).
Proof.
  revert dfs. induction files as [|[p f] files IH]; intros dfs.
  { right; right. split_and!; [by eexists|done|apply agrees_nil]. }
  rewrite fmap_cons, agrees_cons. simpl.
  destruct (snapshot_time_of p) as [t|] eqn:Ht;
    [|left; split; [done|by apply Exists_cons_hd]].
  rewrite columns_differ_empty, !union_empty_l_L.
  set (df := mkDataFrame (rename_columns (header f)) t (body f)).
  destruct (decide (rename_columns (header f) = [])) as [Hnil|Hne].
  - rewrite Hnil. simpl.
    destruct (IH (dfs ++ [df])) as [[-> Hex]|[[-> Hn]|(Hout & H1 & H2)]].
    + left. split; [done|]. by apply Exists_cons_tl.
    + right; left. split; [done|]. by intros [_ ?].
    + right; right. split_and!; [done| |done|done].
      constructor; [|done]. simpl. by rewrite Ht.
  - pose proof (list_to_set_nonempty _ Hne) as Hs.
    destruct (read_snapshots_loop_seen _ (dfs ++ [df]) files Hs)
      as [[-> Hex]|[[-> Hex]|(Hout & H1 & H2)]].
    + left. split; [done|]. by apply Exists_cons_tl.
    + right; left. split; [done|].
      intros [Hall _]. specialize (Hall Hne). rewrite Forall_fmap in Hall.
      apply Exists_exists in Hex as (pf & Hpf & Hd).
      rewrite Forall_forall in Hall. by apply Hd, Hall.
    + right; right. split_and!; [done| | |].
      * constructor; [|done]. simpl. by rewrite Ht.
      * by rewrite Forall_fmap.
      * eapply agrees_same. by rewrite Forall_fmap.
Qed.

Lemma setitem_inl (tbl : Table) (n : string) (s : series) (e : fatal) :
  setitem tbl n s = inl e → e = DuplicateLabels.
Proof.
  unfold setitem. repeat case_decide; try done. by intros [= <-].
Qed.

Lemma build_table_inl (dfa : list trow) (rnames : list string) (e : fatal) :
  build_table dfa rnames = inl e → e = DuplicateLabels.
Proof.
  unfold build_table.
  assert (H : ∀ acc : result Table,
    (∀ e', acc = inl e' → e' = DuplicateLabels) →
    foldl (λ acc rname,
             tbl ←! acc;
             setitem tbl rname (count_unique_series (rdf_of dfa rname)))
          acc rnames = inl e → e = DuplicateLabels).
  { induction rnames as [|n rnames IH]; intros acc Hacc; simpl; [apply Hacc|].
    apply IH. intros e'. destruct acc as [e0|tbl]; simpl.
    - apply Hacc.
    - apply setitem_inl. }
  apply H. by intros e'.
Qed.

Lemma aggregator_inl (set_iter : gset string → list string)
    (Hiter : lists_elements set_iter) (dfs : list DataFrame) (e : fatal) :
  (aggregator set_iter dfs).2 = inl e →
  (dfs = [] ∧ e = NoObjectsToConcatenate) ∨
  (dfs ≠ [] ∧ e = DuplicateLabels ∧
   Exists (λ n, ¬ NoDup (observed_at (dfa_of dfs) n)) (top_referrers set_iter dfs)).
Proof.
  destruct (decide (dfs = [])) as [->|Hne].
  { rewrite aggregator_nil. intros [= <-]. by left. }
  intros H. right. split; [done|]. rewrite aggregator_snd in H by done.
  set (top := top_referrers set_iter dfs) in *.
  set (dfa := dfa_of dfs) in *.
  assert (Hsub : top ⊆ set_iter (names_of dfa)).
  { unfold top, top_referrers. rewrite referrers_names_of.
    apply top_n_rnames_subseteq. }
  assert (Hnd : NoDup top).
  { unfold top, top_referrers. rewrite referrers_names_of.
    by apply top_n_rnames_NoDup. }
  rewrite referrers_names_of, df_top_cu_build_table in H by done. fold dfa in H.
  destruct (build_table dfa top) as [e'|tbl] eqn:Hb; [|done].
  injection H as ->. split; [by eapply build_table_inl|].
  destruct (decide (Forall (λ n, NoDup (observed_at dfa n)) top)) as [Hall|Hnall].
  - exfalso. destruct top as [|first rest]; [done|].
    destruct (build_table_stored dfa first rest) as (tbl & Heq & _).
    + apply (elem_of_keys set_iter Hiter), Hsub. by left.
    + done.
    + intros n Hn. rewrite Forall_forall in Hall. apply Hall. by right.
    + congruence.
  - by apply not_Forall_Exists; [apply _|].
Qed.

End snapshot_outcome_lemmas.

Section snapshot_outcome_theorems.
Import Strptime Referrer.

(** X10. The causes of each outcome of the referrer analysis, for files
    whose headers name the columns [referrer] (or [referrers]) and
    [count_unique], each once, so that no look-up of a column raises.  A
    parse error means some file name is not accepted; the exit at the column
    check means the column sets of the files do not agree; the [ValueError]
    of [pd.concat] means there is no file; the [ValueError] of the column
    assignment means a selected referrer has two rows for one time; the
    look-up [referrer_dfs[rname]] does not raise.  When the analysis
    returns, there is a file, every file name is accepted and the column
    sets agree. *)
Theorem analyse_referrer_outcomes
    (set_iter : gset string → list string) (Hiter : lists_elements set_iter)
    (files : list (string * csv))
    (Hcols : ∀ pf, pf ∈ files → readable pf.2) :
  (∀ e, analyse_referrer_snapshots set_iter files = inl e →
     (e = TimestampParse ∧ ∃ pf, pf ∈ files ∧ snapshot_time_of pf.1 = None) ∨
     (e = SchemaMismatch ∧
      ¬ agrees ((λ pf, rename_columns (header pf.2)) <$> files)) ∨
     (e = NoObjectsToConcatenate ∧ files = []) ∨
     (e = DuplicateLabels ∧
      ∃ dfs n, read_snapshots files = inr dfs ∧
               n ∈ top_referrers set_iter dfs ∧
               ¬ NoDup (observed_at (dfa_of dfs) n))) ∧
  (∀ out, analyse_referrer_snapshots set_iter files = inr out →
     files ≠ [] ∧
     (∀ pf, pf ∈ files → is_Some (snapshot_time_of pf.1)) ∧
     agrees ((λ pf, rename_columns (header pf.2)) <$> files)).
Proof.
  unfold analyse_referrer_snapshots, read_snapshots.
  destruct (read_snapshots_loop_empty [] files)
    as [[-> Hex]|[[-> Hn]|([dfs Hload] & Hparse & Hagree)]]; simpl.
  - split; [|done]. intros e [= <-]. left. split; [done|].
    by apply Exists_exists in Hex.
  - split; [|done]. intros e [= <-]. right; left. by split.
  - rewrite Hload. simpl. split.
    + intros e [[-> ->]|(Hne & -> & Hex)]%aggregator_inl; [| |done].
      * right; right; left. split; [done|].
        apply read_snapshots_loop_inr in Hload as (new & Heq & Hall).
        destruct new; [|done]. by apply Forall2_nil_inv_r in Hall.
      * right; right; right. split; [done|].
        apply Exists_exists in Hex as (n & Hn & Hd). by exists dfs, n.
    + intros out Hout. split_and!; [|by apply Forall_forall|done].
      intros ->. simpl in Hload. injection Hload as <-.
      by rewrite aggregator_nil in Hout.
Qed.

Lemma analyse_referrer_outcomes_witness :
  lists_elements elements ∧
  (∀ pf, pf ∈ [snap1; snap_bad; snap2] → readable pf.2) ∧
  analyse_referrer_snapshots elements [snap1; snap_bad; snap2] = inl TimestampParse ∧
  ∃ pf, pf ∈ [snap1; snap_bad; snap2] ∧ snapshot_time_of pf.1 = None.
Proof.
  assert (H : lists_elements elements) by (intros s; reflexivity).
  assert (Hcols : ∀ pf, pf ∈ [snap1; snap_bad; snap2] → readable pf.2).
  { intros pf Hpf.
    repeat (apply elem_of_cons in Hpf as [->|Hpf]);
      try (by apply elem_of_nil in Hpf); split_and!; compute_done. }
  split; [exact H|]. split; [exact Hcols|]. split; [reflexivity|].
  destruct (proj1 (analyse_referrer_outcomes elements H
                     [snap1; snap_bad; snap2] Hcols)
              TimestampParse eq_refl)
    as [[_ Hpf]|[[? _]|[[? _]|[? _]]]]; [exact Hpf|discriminate..].
Defined.

End snapshot_outcome_theorems.

(** ** The long form of the table and the scale of its chart *)

Section melt_lemmas.
Import Strptime Referrer.
Context (dfa : list trow).

Local Abbreviation series_of n := (count_unique_series (rdf_of dfa n)).
Local Abbreviation step :=
  (λ (acc : result Table) rname,
     tbl ←! acc; setitem tbl rname (series_of rname)).

Lemma elem_of_set_column_ne (n m : string) (col col' : list (option Z))
    (cols : list (string * list (option Z))) :
  m ≠ n → (m, col) ∈ cols → (m, col) ∈ set_column n col' cols.
Proof.
  intros Hne. induction cols as [|c cols IH]; [by intros ?%elem_of_nil|].
  simpl. intros [<-|Hin]%elem_of_cons.
  - rewrite decide_False by done. by left.
  - case_decide; right; auto.
Qed.

Lemma setitem_keeps (tbl tbl' : Table) (n m : string) (s : series)
    (col : list (option Z)) :
  tindex tbl ≠ [] → setitem tbl n s = inr tbl' → m ≠ n →
  (m, col) ∈ tcolumns tbl →
  tindex tbl' = tindex tbl ∧ (m, col) ∈ tcolumns tbl'.
Proof.
  intros Hidx Hset Hne Hin. unfold setitem in Hset.
  rewrite decide_False in Hset by done.
  repeat case_decide; try done; injection Hset as <-; simpl;
    (split; [done|by apply elem_of_set_column_ne]).
Qed.

Lemma foldl_step_inl (e : fatal) (rnames : list string) :
  foldl step (inl e) rnames = inl e.
Proof. by induction rnames. Qed.

Lemma build_keeps (tbl tbl' : Table) (rest : list string) (m : string)
    (col : list (option Z)) :
  tindex tbl ≠ [] → foldl step (inr tbl) rest = inr tbl' → m ∉ rest →
  (m, col) ∈ tcolumns tbl → (m, col) ∈ tcolumns tbl'.
Proof.
  revert tbl. induction rest as [|n rest IH]; intros tbl Hidx Hf Hm Hin; simpl in Hf.
  { by injection Hf as <-. }
  apply not_elem_of_cons in Hm as [Hmn Hm].
  destruct (setitem tbl n (series_of n)) as [e|tbl1] eqn:Hset.
  { by rewrite foldl_step_inl in Hf. }
  destruct (setitem_keeps tbl tbl1 n m _ col Hidx Hset Hmn Hin) as [Hi Hc].
  apply (IH tbl1); [by rewrite Hi|done..].
Qed.

(** The column of the first referrer holds its whole series. *)
Lemma build_table_first (first : string) (rest : list string) (tbl : Table) :
  first ∈ names_of dfa → first ∉ rest →
  build_table dfa (first :: rest) = inr tbl →
  (first, Some <$> (series_of first).*2) ∈ tcolumns tbl.
Proof.
  intros Hfirst Hnin. unfold build_table. simpl.
  pose proof (series_nonempty dfa first Hfirst) as Hne.
  unfold setitem at 2. simpl. rewrite decide_False by done.
  intros Hf. eapply build_keeps; [|exact Hf|done|by left].
  simpl. by destruct (series_of first).
Qed.

Lemma elem_of_melted_values (tbl : Table) (v : Z) :
  v ∈ omap melted_count_unique (melt tbl) ↔
  ∃ c i t, c ∈ tcolumns tbl ∧ tindex tbl !! i = Some t ∧ c.2 !! i = Some (Some v).
Proof.
  rewrite list_elem_of_omap. unfold melt. split.
  - intros (r & (c & Hr & Hc)%list_elem_of_bind & Hv).
    apply elem_of_lookup_zip_with in Hr as (i & t & w & -> & Ht & Hw).
    simpl in Hv. subst w. by exists c, i, t.
  - intros (c & i & t & Hc & Ht & Hv). exists (mkMelted t c.1 (Some v)).
    split; [|done]. apply list_elem_of_bind. exists c. split; [|done].
    by apply (elem_of_lookup_zip_with_2 (λ t v, mkMelted t c.1 v) _ _ t (Some v)
                (mkMelted t c.1 (Some v)) i).
Qed.

Lemma length_melt (tbl : Table) :
  Forall (λ c, length c.2 = length (tindex tbl)) (tcolumns tbl) →
  length (melt tbl) = (length (tcolumns tbl) * length (tindex tbl))%nat.
Proof.
  unfold melt. induction 1 as [|c cs Hc _ IH]; [done|].
  rewrite bind_cons, length_app, IH, length_zip_with. simpl. lia.
Qed.

End melt_lemmas.

Section melt_theorems.
Import Strptime Referrer.

Lemma greatest_is_first
    (set_iter : gset string → list string) (Hiter : lists_elements set_iter)
    (dfa : list trow) (first : string) (rest : list string) (vM : Z) :
  top_n_rnames (referrer_dfs set_iter dfa (names_of dfa)) = first :: rest →
  is_maximum vM (observations dfa first) →
  is_maximum vM ((λ r : trow, count_unique r.2) <$> dfa).
Proof.
  intros Htop [Hin Hle]. split.
  - unfold observations in Hin.
    apply list_elem_of_fmap in Hin as (r & -> & [_ Hr]%list_elem_of_filter).
    apply list_elem_of_fmap. by exists r.
  - intros w (r & -> & Hr)%list_elem_of_fmap.
    set (n := referrer r.2).
    assert (Hn : n ∈ names_of dfa) by (apply elem_of_names_of; by exists r).
    destruct (max_cu_is_Some dfa n Hn) as [vn Hvn].
    apply max_cu_Some in Hvn as Hmax.
    assert (count_unique r.2 ≤ vn).
    { apply Hmax. unfold observations. apply list_elem_of_fmap. exists r.
      split; [done|]. by apply list_elem_of_filter. }
    assert (vn ≤ vM); [|lia].
    destruct (decide (n ∈ first :: rest)) as [Hntop|Hntop].
    + apply list_elem_of_lookup_1 in Hntop as [j Hj]. destruct j as [|j].
      * injection Hj as Hj. rewrite <-Hj in Hmax.
        by rewrite (is_maximum_unique vn vM _ Hmax (conj Hin Hle)).
      * apply (top_descending set_iter Hiter dfa 0 (S j) first n);
          [lia|by rewrite Htop..|done|done].
    + apply (top_outranks_rest set_iter Hiter dfa first n);
        [rewrite Htop; by left|done|by rewrite Htop|done|done].
Qed.

Lemma top_nil_no_rows
    (set_iter : gset string → list string) (Hiter : lists_elements set_iter)
    (dfa : list trow) :
  top_n_rnames (referrer_dfs set_iter dfa (names_of dfa)) = [] → dfa = [].
Proof.
  intros Htop. pose proof (top_n_rnames_length set_iter Hiter dfa) as Hlen.
  rewrite Htop in Hlen. unfold top_n in Hlen.
  destruct (size (names_of dfa)) eqn:Hsz; [|done].
  apply size_empty_inv in Hsz. destruct dfa as [|r dfa]; [done|].
  assert (Hr : referrer r.2 ∈ names_of (r :: dfa)).
  { apply elem_of_names_of. exists r. split; [by left|done]. }
  by apply Hsz in Hr.
Qed.

(** X11. When every selected referrer has at most one row per snapshot
    time, the long-form frame [df_melted] has one row per column and index
    label of [df_top_cu], and the value [df_melted["count_unique"].max()]
    that scales the chart is the greatest [count_unique] of any row of any
    snapshot, of a selected referrer or not; it is NaN exactly when the
    snapshots have no row. *)
Theorem chart_scale_is_greatest_count
    (set_iter : gset string → list string) (Hiter : lists_elements set_iter)
    (dfs : list DataFrame) (Hne : dfs ≠ [])
    (Hobs : ∀ n, n ∈ top_referrers set_iter dfs →
                 NoDup (observed_at (dfa_of dfs) n)) :
  ∃ tbl, (aggregator set_iter dfs).2 = inr (top_referrers set_iter dfs, tbl) ∧
    length (melt tbl) =
      (length (top_referrers set_iter dfs) * length (tindex tbl))%nat ∧
    ∀ v, melted_max (melt tbl) = Some v ↔
         is_maximum v ((λ r : trow, count_unique r.2) <$> dfa_of dfs).
Proof.
  rewrite aggregator_snd by done.
  set (dfa := dfa_of dfs). set (top := top_referrers set_iter dfs) in *.
  assert (Htopeq : top = top_n_rnames (referrer_dfs set_iter dfa (names_of dfa))).
  { unfold top, top_referrers. by rewrite referrers_names_of. }
  assert (Hsub : top ⊆ set_iter (names_of dfa)).
  { rewrite Htopeq. apply top_n_rnames_subseteq. }
  assert (Hnd : NoDup top).
  { rewrite Htopeq. by apply top_n_rnames_NoDup. }
  rewrite referrers_names_of, df_top_cu_build_table by done. fold dfa.
  destruct top as [|first rest] eqn:Htop.
  { exists empty_table. split_and!; [done..|]. intros v.
    rewrite (top_nil_no_rows set_iter Hiter dfa) by done.
    split; [done|]. by intros [?%elem_of_nil _]. }
  assert (Hfirst : first ∈ names_of dfa).
  { apply (elem_of_keys set_iter Hiter), Hsub. by left. }
  destruct (build_table_stored dfa first rest) as (tbl & Heq & Hi & Hc & Hall);
    [done|done| |].
  { intros n Hn. apply Hobs. by right. }
  pose proof (build_table_first dfa first rest tbl Hfirst) as Hcol.
  apply NoDup_cons in Hnd as [Hnin _]. specialize (Hcol Hnin Heq).
  rewrite Heq. exists tbl. split_and!; [done| |].
  - rewrite length_melt.
    + by rewrite <-Hc, length_fmap.
    + eapply Forall_impl; [exact Hall|]. intros c [Hlen _]. by rewrite Hi.
  - destruct (max_cu_is_Some dfa first Hfirst) as [vM HvM].
    apply max_cu_Some in HvM as Hmax.
    pose proof (greatest_is_first set_iter Hiter dfa first rest vM
                  (eq_sym Htopeq) Hmax) as HA.
    assert (HB : is_maximum vM (omap melted_count_unique (melt tbl))).
    { split.
      - apply elem_of_melted_values.
        destruct Hmax as [Hin _]. rewrite <-rdf_values_Permutation in Hin.
        apply list_elem_of_lookup_1 in Hin as [i Hi'].
        apply list_lookup_fmap_Some in Hi' as (p & Hp2 & Hp).
        exists (first, Some <$> (count_unique_series (rdf_of dfa first)).*2), i, p.1.
        split_and!; [done| |].
        + rewrite Hi, <-series_index. by rewrite list_lookup_fmap, Hp.
        + simpl. by rewrite !list_lookup_fmap, Hp, Hp2.
      - intros w (c & i & t & Hcin & Ht & Hw)%elem_of_melted_values.
        rewrite Forall_forall in Hall. destruct (Hall c Hcin) as [_ Hal].
        rewrite Hi in Ht. destruct (Hal i t Ht) as [_ Hset].
        destruct (Hset w Hw) as (r & Hr & _ & _ & <-).
        apply HA. apply list_elem_of_fmap. by exists r. }
    intros v. unfold melted_max. rewrite series_max_Some. split; intros Hv.
    + by rewrite (is_maximum_unique v vM _ Hv HB).
    + by rewrite (is_maximum_unique v vM _ Hv HA).
Qed.

Lemma chart_scale_is_greatest_count_witness :
  lists_elements elements ∧ loaded12 ≠ [] ∧
  ∃ tbl, (aggregator elements loaded12).2 =
           inr (top_referrers elements loaded12, tbl) ∧
    length (melt tbl) =
      (length (top_referrers elements loaded12) * length (tindex tbl))%nat ∧
    ∀ v, melted_max (melt tbl) = Some v ↔
         is_maximum v ((λ r : trow, count_unique r.2) <$> dfa_of loaded12).
Proof.
  assert (H : lists_elements elements) by (intros s; reflexivity).
  split; [exact H|]. split; [discriminate|].
  apply (chart_scale_is_greatest_count elements H loaded12); [discriminate|].
  intros n Hn.
  assert (top_referrers elements loaded12 = ["A"; "B"; "C"; "D"; "E"]) as Htop
    by (vm_compute; reflexivity).
  rewrite Htop in Hn.
  repeat (apply elem_of_cons in Hn as [->|Hn]);
    try (by apply elem_of_nil in Hn); compute_done.
Defined.

End melt_theorems.

(** ** The paths of the two reports *)

Section path_lemmas.
Import Paths.

Lemma startswith_sep_app (b c : string) :
  b ≠ "" → startswith_sep (b +:+ c) = startswith_sep b.
Proof. by destruct b. Qed.

Lemma string_app_assoc (a b c : string) : (a +:+ b) +:+ c = a +:+ (b +:+ c).
Proof.
  induction a as [|x a IH]; [done|].
  change (String x ((a +:+ b) +:+ c) = String x (a +:+ (b +:+ c))). by f_equal.
Qed.

Lemma join_append (a b c : string) :
  b ≠ "" → join a (b +:+ c) = join a b +:+ c.
Proof.
  intros Hb. unfold join. rewrite startswith_sep_app by done.
  destruct (startswith_sep b); [done|].
  destruct (_ || _); by rewrite !string_app_assoc.
Qed.

Lemma join_suffix (a b : string) : ∃ pre, join a b = pre +:+ b.
Proof.
  unfold join. destruct (startswith_sep b); [by exists ""|].
  destruct (_ || _); [by exists a|]. exists (a +:+ "/").
  by rewrite string_app_assoc.
Qed.

Lemma rfind_from_app (c : ascii) (l1 l2 : list ascii) (i found : Z) :
  rfind_from c (l1 ++ l2) i found =
  rfind_from c l2 (i + Z.of_nat (length l1)) (rfind_from c l1 i found).
Proof.
  revert i found. induction l1 as [|x l1 IH]; intros i found; simpl.
  { by rewrite Z.add_0_r. }
  rewrite IH. f_equal. lia.
Qed.

Lemma rfind_from_bound (c : ascii) (l : list ascii) (i found : Z) :
  rfind_from c l i found = found ∨
  i ≤ rfind_from c l i found < i + Z.of_nat (length l).
Proof.
  revert i found. induction l as [|x l IH]; intros i found; simpl; [by left|].
  destruct (IH (i + 1) (if decide (x = c) then i else found)) as [->|?]; [|lia].
  case_decide; [right; lia|by left].
Qed.

Lemma skip_dots_true (l : list ascii) (n : nat) (k j : Z) :
  0 ≤ k → k ≤ j < k + Z.of_nat n →
  l !! Z.to_nat j ≠ Some "."%char → skip_dots n l k = true.
Proof.
  revert k. induction n as [|n IH]; intros k Hk Hj Hc; [lia|]. simpl.
  case_decide as Hd; [done|].
  apply IH; [lia| |done].
  destruct (decide (j = k)) as [->|]; [|lia].
  destruct Hd. done.
Qed.

Lemma splitext_report (q : string) :
  splitext ((q +:+ "_report") +:+ ".md") = (q +:+ "_report", ".md").
Proof.
  unfold splitext. rewrite !list_ascii_of_string_app.
  set (lq := list_ascii_of_string q).
  change (list_ascii_of_string "_report") with
    ["_"; "r"; "e"; "p"; "o"; "r"; "t"]%char.
  change (list_ascii_of_string ".md") with ["."; "m"; "d"]%char.
  set (n := Z.of_nat (length lq)).
  assert (Hdot : rfind "." ((lq ++ ["_"; "r"; "e"; "p"; "o"; "r"; "t"]%char) ++
                            ["."; "m"; "d"]%char) = n + 7).
  { unfold rfind. rewrite rfind_from_app. simpl. rewrite length_app. simpl. lia. }
  assert (Hsep : rfind "/" ((lq ++ ["_"; "r"; "e"; "p"; "o"; "r"; "t"]%char) ++
                            ["."; "m"; "d"]%char) = rfind "/" lq).
  { unfold rfind. by rewrite !rfind_from_app. }
  rewrite Hdot, Hsep.
  assert (Hb : -1 ≤ rfind "/" lq < n).
  { unfold rfind. destruct (rfind_from_bound "/" lq 0 (-1)) as [->|?]; lia. }
  rewrite decide_True by lia.
  rewrite (skip_dots_true _ _ _ n); [|lia|lia|].
  - replace (Z.to_nat (n + 7)) with (length (lq ++ ["_"; "r"; "e"; "p"; "o"; "r"; "t"]%char))
      by (rewrite length_app; simpl; lia).
    rewrite take_app_length, drop_app_length. f_equal.
    unfold lq. rewrite <-(string_of_list_ascii_of_string (q +:+ "_report")).
    by rewrite list_ascii_of_string_app.
  - unfold n. rewrite Nat2Z.id. rewrite <-app_assoc.
    rewrite lookup_app_r by done. by rewrite Nat.sub_diag.
Qed.

End path_lemmas.

Section path_theorems.
Import Paths.

(** X12. For every output directory and every date text, the Markdown
    report is written to the path of the directory joined with the date and
    [_report], followed by [.md], and the HTML report to the same path
    followed by [.html] instead: [splitext] takes off [.md] and nothing
    else, whatever dots and slashes the directory and the date contain. *)
Theorem html_report_beside_markdown (OUTDIR TODAY : string) :
  md_report_filepath OUTDIR TODAY = join OUTDIR (TODAY +:+ "_report") +:+ ".md" ∧
  html_report_filepath OUTDIR TODAY =
    join OUTDIR (TODAY +:+ "_report") +:+ ".html".
Proof.
  assert (Hmd : md_report_filepath OUTDIR TODAY =
                join OUTDIR (TODAY +:+ "_report") +:+ ".md").
  { unfold md_report_filepath.
    change "_report.md" with ("_report" +:+ ".md").
    rewrite <-string_app_assoc. apply join_append. by destruct TODAY. }
  split; [done|]. unfold html_report_filepath. rewrite Hmd.
  destruct (join_suffix OUTDIR (TODAY +:+ "_report")) as [pre ->].
  rewrite <-(string_app_assoc pre TODAY). by rewrite splitext_report.
Qed.

End path_theorems.
